(** * whl.knaebel.dev: the wheel publisher and the index generator

    A shallow embedding of [scripts/publish_release.py] and
    [scripts/generate_index.py], and the properties of their manifest and
    index pipeline.

    Conventions of the embedding.
    - A Python [str] is a [string]: a sequence of code points below 256
      (the Latin-1 range).  On that range [\d] is [0-9], [str.lower] moves
      [A-Z] and [U+00C0-U+00DE] (without [U+00D7]) by 32, and [str.strip]
      removes the code points Python counts as white space.
    - A raised [SystemExit] carries its message; any other exception that
      leaves a script is an [Uncaught] one.
    - Floating point numbers in a manifest are outside the embedding: a JSON
      text that holds one is reported as [Unmodelled].
    - Integers are unbounded, as in Python.  The limit that newer versions of
      Python put on the number of digits that [int] reads from a text, and
      the recursion limit of the interpreter, are left out. *)

From Stdlib Require Import Ascii String List ZArith Lia Bool Arith.
From Stdlib Require Import Permutation Sorted.
From Stdlib Require Import Decimal DecimalString DecimalZ DecimalPos DecimalFacts.
From Stdlib Require OrderedTypeEx.
Import ListNotations.
Open Scope string_scope.

(** ** Characters and strings *)

Definition code (c : ascii) : nat := nat_of_ascii c.

Definition in_range (lo hi : nat) (c : ascii) : bool :=
  (lo <=? code c)%nat && (code c <=? hi)%nat.

Definition dquote : ascii := "034"%char.
Definition newline : ascii := "010"%char.

(** [\d] on code points below 256. *)
Definition is_digit (c : ascii) : bool := in_range 48 57 c.

(** [str.lower] on one code point below 256.  On this range the lower case
    of a code point is one code point; beyond it, and outside the embedding,
    [str.lower] can make a text longer (U+0130 becomes two code points). *)
Definition lower_char (c : ascii) : ascii :=
  if in_range 65 90 c || (in_range 192 222 c && negb (code c =? 215)%nat)
  then ascii_of_nat (code c + 32)
  else c.

Fixpoint lower (s : string) : string :=
  match s with
  | EmptyString => EmptyString
  | String c t => String (lower_char c) (lower t)
  end.

(** [str.isspace] on one code point below 256. *)
Definition is_space (c : ascii) : bool :=
  in_range 9 13 c || in_range 28 32 c || (code c =? 133)%nat || (code c =? 160)%nat.

Fixpoint lstrip (s : string) : string :=
  match s with
  | String c t => if is_space c then lstrip t else s
  | EmptyString => EmptyString
  end.

Fixpoint rstrip (s : string) : string :=
  match s with
  | EmptyString => EmptyString
  | String c t =>
      match rstrip t with
      | EmptyString => if is_space c then EmptyString else String c EmptyString
      | t' => String c t'
      end
  end.

(** [str.strip()] *)
Definition strip (s : string) : string := rstrip (lstrip s).

(** [sep.join(parts)] *)
Definition join (sep : string) (parts : list string) : string :=
  String.concat sep parts.

(** the first [n] characters of [s] *)
Fixpoint take (n : nat) (s : string) : string :=
  match n, s with
  | S m, String c t => String c (take m t)
  | _, _ => EmptyString
  end.

(** ** Regular expressions

    The fragment of Python's [re] the two scripts use, run by backtracking in
    the order of [re]: a greedy repetition tries the longest run first, a lazy
    one the shortest. *)

Module Re.

Definition captures := list (string * string).

Inductive regex : Type :=
| Eps
| Chr (p : ascii -> bool)
| Lit (s : string)
| Seq (r1 r2 : regex)
| Alt (r1 r2 : regex)
| Opt (r : regex)
| Rep (greedy : bool) (least : nat) (p : ascii -> bool)
| Group (name : string) (r : regex)
| Bol
| Eol.

Fixpoint lit {A} (l s : string) (k : string -> option A) : option A :=
  match l with
  | EmptyString => k s
  | String c l' =>
      match s with
      | String d s' => if Ascii.eqb c d then lit l' s' k else None
      | EmptyString => None
      end
  end.

Fixpoint rep_greedy {A} (p : ascii -> bool) (least : nat) (s : string)
    (k : string -> option A) : option A :=
  let stop := match least with O => k s | S _ => None end in
  match s with
  | String c t =>
      if p c then
        match rep_greedy p (pred least) t k with
        | Some x => Some x
        | None => stop
        end
      else stop
  | EmptyString => stop
  end.

Fixpoint rep_lazy {A} (p : ascii -> bool) (least : nat) (s : string)
    (k : string -> option A) : option A :=
  let more :=
    match s with
    | String c t => if p c then rep_lazy p (pred least) t k else None
    | EmptyString => None
    end in
  match least with
  | S _ => more
  | O => match k s with Some x => Some x | None => more end
  end.

Definition set_group (name text : string) (caps : captures) : captures :=
  (name, text) :: filter (fun p => negb (String.eqb (fst p) name)) caps.

Fixpoint group (name : string) (caps : captures) : option string :=
  match caps with
  | [] => None
  | (n, t) :: rest => if String.eqb n name then Some t else group name rest
  end.

(** [run r n0 s caps k]: match [r] at the suffix [s] of a subject of length
    [n0], then hand the rest of the subject and the groups to [k]. *)
Fixpoint run {A} (r : regex) (n0 : nat) (s : string) (caps : captures)
    (k : string -> captures -> option A) : option A :=
  match r with
  | Eps => k s caps
  | Chr p =>
      match s with
      | String c t => if p c then k t caps else None
      | EmptyString => None
      end
  | Lit l => lit l s (fun s' => k s' caps)
  | Seq r1 r2 => run r1 n0 s caps (fun s' caps' => run r2 n0 s' caps' k)
  | Alt r1 r2 =>
      match run r1 n0 s caps k with
      | Some x => Some x
      | None => run r2 n0 s caps k
      end
  | Opt r1 =>
      match run r1 n0 s caps k with
      | Some x => Some x
      | None => k s caps
      end
  | Rep true least p => rep_greedy p least s (fun s' => k s' caps)
  | Rep false least p => rep_lazy p least s (fun s' => k s' caps)
  | Group name r1 =>
      run r1 n0 s caps
        (fun s' caps' =>
           k s' (set_group name (take (String.length s - String.length s') s) caps'))
  | Bol => if (String.length s =? n0)%nat then k s caps else None
  | Eol =>
      match s with
      | EmptyString => k s caps
      | String c EmptyString => if Ascii.eqb c newline then k s caps else None
      | _ => None
      end
  end.

(** [pattern.match(s)]: the groups of the match at the start of [s]. *)
Definition re_match (r : regex) (s : string) : option captures :=
  run r (String.length s) s [] (fun _ caps => Some caps).

(** [re.sub(pattern, repl, s)] for a literal [repl], scanning from the left.
    A match is replaced and the scan goes on after it; an empty match is
    replaced too and the next character is copied. *)
Fixpoint sub_from (fuel : nat) (r : regex) (repl : string) (n0 : nat)
    (s : string) : string :=
  match fuel with
  | O => s
  | S fuel' =>
      match run r n0 s [] (fun s' _ => Some s') with
      | Some s' =>
          if (String.length s' <? String.length s)%nat
          then repl ++ sub_from fuel' r repl n0 s'
          else
            match s with
            | EmptyString => repl
            | String c t => repl ++ String c (sub_from fuel' r repl n0 t)
            end
      | None =>
          match s with
          | EmptyString => EmptyString
          | String c t => String c (sub_from fuel' r repl n0 t)
          end
      end
  end.

Definition re_sub (r : regex) (repl s : string) : string :=
  sub_from (S (String.length s)) r repl (String.length s) s.

End Re.

(** every character of [s] is in the class [p] *)
Fixpoint all_chars (p : ascii -> bool) (s : string) : bool :=
  match s with
  | EmptyString => true
  | String c t => p c && all_chars p t
  end.

(** The matches of a pattern, read off its syntax: [matches r n0 s caps s'
    caps'] says that [r] can consume the text between the suffixes [s] and
    [s'] of a subject of length [n0], and turn the groups [caps] into
    [caps']. *)
Fixpoint matches (r : Re.regex) (n0 : nat) (s : string) (caps : Re.captures)
    (s' : string) (caps' : Re.captures) : Prop :=
  match r with
  | Re.Eps => s' = s /\ caps' = caps
  | Re.Chr p => exists c, s = String c s' /\ p c = true /\ caps' = caps
  | Re.Lit l => s = l ++ s' /\ caps' = caps
  | Re.Seq r1 r2 =>
      exists m cm, matches r1 n0 s caps m cm /\ matches r2 n0 m cm s' caps'
  | Re.Alt r1 r2 => matches r1 n0 s caps s' caps' \/ matches r2 n0 s caps s' caps'
  | Re.Opt r1 => matches r1 n0 s caps s' caps' \/ (s' = s /\ caps' = caps)
  | Re.Rep _ least p =>
      exists run, s = run ++ s' /\ all_chars p run = true
                  /\ (least <= String.length run)%nat /\ caps' = caps
  | Re.Group name r1 =>
      exists c1, matches r1 n0 s caps s' c1
                 /\ caps' = Re.set_group name (take (String.length s - String.length s') s) c1
  | Re.Bol => s' = s /\ caps' = caps /\ String.length s = n0
  | Re.Eol => s' = s /\ caps' = caps /\ (s = "" \/ s = String newline "")
  end.

(** ** The package name normalizer (both scripts) *)

(** the class [[-_.]] *)
Definition is_sep (c : ascii) : bool :=
  Ascii.eqb c "-" || Ascii.eqb c "_" || Ascii.eqb c ".".

(** [r"[-_.]+"] *)
Definition SEP_RUN_RE : Re.regex := Re.Rep true 1 is_sep.

(** [re.sub(r"[-_.]+", "-", name).lower()] *)
Definition canonicalize_package_name (name : string) : string :=
  lower (Re.re_sub SEP_RUN_RE "-" name).

(** The normalizer in the words of the specification: every maximal run of
    [-], [_], [.] becomes one [-] ([in_run] tells that a run is being read),
    and the result is lowercased. *)
Fixpoint collapse (in_run : bool) (s : string) : string :=
  match s with
  | EmptyString => EmptyString
  | String c t =>
      if is_sep c
      then if in_run then collapse true t else String "-" (collapse true t)
      else String c (collapse false t)
  end.

Definition canonicalize_spec (name : string) : string :=
  lower (collapse false name).

(** ** Wheel file names and repository URLs ([publish_release.py]) *)

Definition any_but_newline (c : ascii) : bool := negb (Ascii.eqb c newline).
Definition not_dash (c : ascii) : bool := negb (Ascii.eqb c "-").
Definition not_slash (c : ascii) : bool := negb (Ascii.eqb c "/").

Fixpoint seq_all (rs : list Re.regex) : Re.regex :=
  match rs with
  | [] => Re.Eps
  | [r] => r
  | r :: rest => Re.Seq r (seq_all rest)
  end.

(** [WHEEL_NAME_RE], the pattern of a wheel file name, written here in three
    pieces: "^(?P<name>.+?)-(?P<version>[^-]+)(?:-(?P<build>\d[^-]*" "))?"
    "-(?P<py>[^-]+)-(?P<abi>[^-]+)-(?P<plat>[^-]+)\.whl$".  At the start a
    lazy name, a dash, the version, an optional dash and build tag (a digit
    and a run without dashes), then a dash and a run without dashes three
    times, the literal .whl and the end of the name. *)
Definition WHEEL_NAME_RE : Re.regex :=
  seq_all
    [ Re.Bol;
      Re.Group "name" (Re.Rep false 1 any_but_newline);
      Re.Lit "-";
      Re.Group "version" (Re.Rep true 1 not_dash);
      Re.Opt (Re.Seq (Re.Lit "-")
                (Re.Group "build" (Re.Seq (Re.Chr is_digit) (Re.Rep true 0 not_dash))));
      Re.Lit "-";
      Re.Group "py" (Re.Rep true 1 not_dash);
      Re.Lit "-";
      Re.Group "abi" (Re.Rep true 1 not_dash);
      Re.Lit "-";
      Re.Group "plat" (Re.Rep true 1 not_dash);
      Re.Lit ".whl";
      Re.Eol ].

(** [GITHUB_REPO_RE], the pattern of a GitHub remote; its one group is
    named 1 here:
    "^(?:git@github\.com:|https://github\.com/)([^/]+/[^/]+?)(?:\.git)?$" *)
Definition GITHUB_REPO_RE : Re.regex :=
  seq_all
    [ Re.Bol;
      Re.Alt (Re.Lit "git@github.com:") (Re.Lit "https://github.com/");
      Re.Group "1"
        (seq_all [Re.Rep true 1 not_slash; Re.Lit "/"; Re.Rep false 1 not_slash]);
      Re.Opt (Re.Lit ".git");
      Re.Eol ].

(** ** JSON values

    A value as [json.loads] returns it and [json.dumps] takes it.  A [dict]
    keeps its keys in insertion order; its keys are strings and pairwise
    distinct ([wf_json]). *)

#[warnings="-register-all"]
Inductive json : Type :=
| JNull
| JBool (b : bool)
| JInt (n : Z)
| JStr (s : string)
| JArr (items : list json)
| JObj (members : list (string * json)).

(** [d.get(key)] *)
Fixpoint dict_get (key : string) (d : list (string * json)) : option json :=
  match d with
  | [] => None
  | (k, v) :: rest => if String.eqb k key then Some v else dict_get key rest
  end.

(** [d[key] = v]: a key already present keeps its place. *)
Fixpoint dict_set (key : string) (v : json) (d : list (string * json))
    : list (string * json) :=
  match d with
  | [] => [(key, v)]
  | (k, w) :: rest =>
      if String.eqb k key then (k, v) :: rest else (k, w) :: dict_set key v rest
  end.

(** [dict(pairs)] *)
Definition dict_of_pairs (pairs : list (string * json)) : list (string * json) :=
  fold_left (fun d kv => dict_set (fst kv) (snd kv) d) pairs [].

Definition keys (d : list (string * json)) : list string := map fst d.

Fixpoint wf_json (v : json) : Prop :=
  match v with
  | JArr items => (fix all l := match l with [] => True | x :: r => wf_json x /\ all r end) items
  | JObj members =>
      NoDup (keys members) /\
      (fix all l := match l with [] => True | (_, x) :: r => wf_json x /\ all r end) members
  | _ => True
  end.

(** *** [json.dumps(value, indent=2, sort_keys=True)] *)

Definition hex_digit (n : nat) : ascii :=
  if (n <? 10)%nat then ascii_of_nat (48 + n) else ascii_of_nat (87 + n).

(** one character of a string under [ensure_ascii] *)
Definition escape_char (c : ascii) : string :=
  if Ascii.eqb c dquote then String "\" (String dquote "")
  else if Ascii.eqb c "\" then "\\"
  else if in_range 32 126 c then String c ""
  else if Ascii.eqb c "008" then "\b"
  else if Ascii.eqb c "012" then "\f"
  else if Ascii.eqb c newline then "\n"
  else if Ascii.eqb c "013" then "\r"
  else if Ascii.eqb c "009" then "\t"
  else "\u00" ++ String (hex_digit (code c / 16)) (String (hex_digit (code c mod 16)) "").

Fixpoint escape_chars (s : string) : string :=
  match s with
  | EmptyString => EmptyString
  | String c t => escape_char c ++ escape_chars t
  end.

Definition encode_basestring_ascii (s : string) : string :=
  String dquote (escape_chars s ++ String dquote "").

(** [str(n)] for an [int] *)
Definition str_of_int (n : Z) : string :=
  DecimalString.NilZero.string_of_int (Z.to_int n).

Fixpoint spaces (n : nat) : string :=
  match n with
  | O => EmptyString
  | S m => String " " (spaces m)
  end.

Definition newline_indent (level : nat) : string :=
  String newline (spaces (2 * level)).

(** [list.sort] and [sorted]: a stable sort that only asks whether one
    element is below another.  [x] goes before the first element that is not
    below it, and [fold_right] inserts the later elements first. *)
Fixpoint insert_by {A} (lt : A -> A -> bool) (x : A) (l : list A) : list A :=
  match l with
  | [] => [x]
  | y :: rest => if lt y x then y :: insert_by lt x rest else x :: l
  end.

Definition sort_by {A} (lt : A -> A -> bool) (l : list A) : list A :=
  fold_right (insert_by lt) [] l.

(** [sorted(dct.items())]: the keys of a dictionary are distinct, so the
    order of the keys decides. *)
Definition sort_items {A} (l : list (string * A)) : list (string * A) :=
  sort_by (fun a b => String.ltb (fst a) (fst b)) l.

Definition item_separator (level : nat) : string := "," ++ newline_indent level.

(** The text of a value at a depth of nesting.  The members of an object
    are rendered first and sorted after: the sort looks at the keys only
    ([sort_items_map]), and the recursion stays structural. *)
Fixpoint dumps_at (level : nat) (v : json) : string :=
  match v with
  | JNull => "null"
  | JBool true => "true"
  | JBool false => "false"
  | JInt n => str_of_int n
  | JStr s => encode_basestring_ascii s
  | JArr [] => "[]"
  | JArr items =>
      "[" ++ newline_indent (S level)
          ++ join (item_separator (S level)) (map (dumps_at (S level)) items)
          ++ newline_indent level ++ "]"
  | JObj [] => "{}"
  | JObj members =>
      "{" ++ newline_indent (S level)
          ++ join (item_separator (S level))
               (map (fun kt => encode_basestring_ascii (fst kt) ++ ": " ++ snd kt)
                  (sort_items
                     (map (fun kv => (fst kv, dumps_at (S level) (snd kv))) members)))
          ++ newline_indent level ++ "}"
  end.

Definition json_dumps (v : json) : string := dumps_at 0 v.

(** *** [json.loads(text)]

    The decoder of the [json] module, as the scanner of CPython runs it.  The
    recursion of the scanner is bounded by [fuel]: a value or a separator
    takes at least one character and at most two calls, so [json_loads] gives
    twice the length of the text and [NoFuel] is never its result. *)

Inductive parsed (A : Type) : Type :=
| Parsed (a : A)
| Invalid        (* json.JSONDecodeError *)
| Beyond         (* a float, or a code point above 255: outside the embedding *)
| NoFuel.
Arguments Parsed {A} a.
Arguments Invalid {A}.
Arguments Beyond {A}.
Arguments NoFuel {A}.

Definition pbind {A B} (p : parsed A) (f : A -> parsed B) : parsed B :=
  match p with
  | Parsed a => f a
  | Invalid => Invalid
  | Beyond => Beyond
  | NoFuel => NoFuel
  end.

Notation "' pat <- p ;; k" := (pbind p (fun x => match x with pat => k end))
  (at level 61, pat pattern, p at next level, right associativity).

(** the class of [WHITESPACE] *)
Definition is_ws (c : ascii) : bool :=
  Ascii.eqb c " " || Ascii.eqb c "009" || Ascii.eqb c newline || Ascii.eqb c "013".

Fixpoint skip_ws (s : string) : string :=
  match s with
  | String c t => if is_ws c then skip_ws t else s
  | EmptyString => EmptyString
  end.

Definition hex_value (c : ascii) : option nat :=
  if in_range 48 57 c then Some (code c - 48)
  else if in_range 97 102 c then Some (code c - 87)
  else if in_range 65 70 c then Some (code c - 55)
  else None.

(** the table [BACKSLASH] *)
Definition unescape (c : ascii) : option ascii :=
  if Ascii.eqb c dquote then Some dquote
  else if Ascii.eqb c "\" then Some "\"%char
  else if Ascii.eqb c "/" then Some "/"%char
  else if Ascii.eqb c "b" then Some "008"%char
  else if Ascii.eqb c "f" then Some "012"%char
  else if Ascii.eqb c "n" then Some newline
  else if Ascii.eqb c "r" then Some "013"%char
  else if Ascii.eqb c "t" then Some "009"%char
  else None.

(** [scanstring], after the opening quote: the string and the rest *)
Fixpoint scanstring (s : string) : parsed (string * string) :=
  match s with
  | EmptyString => Invalid
  | String c t =>
      if Ascii.eqb c dquote then Parsed (EmptyString, t)
      else if Ascii.eqb c "\" then
        match t with
        | EmptyString => Invalid
        | String e t' =>
            if Ascii.eqb e "u" then
              match t' with
              | String h1 (String h2 (String h3 (String h4 t''))) =>
                  match hex_value h1, hex_value h2, hex_value h3, hex_value h4 with
                  | Some a, Some b, Some c3, Some d =>
                      if (a =? 0)%nat && (b =? 0)%nat then
                        '(str, rest) <- scanstring t'' ;;
                        Parsed (String (ascii_of_nat (16 * c3 + d)) str, rest)
                      else Beyond
                  | _, _, _, _ => Invalid
                  end
              | _ => Invalid
              end
            else
              match unescape e with
              | Some ch => '(str, rest) <- scanstring t' ;; Parsed (String ch str, rest)
              | None => Invalid
              end
        end
      else if (code c <? 32)%nat then Invalid
      else '(str, rest) <- scanstring t ;; Parsed (String c str, rest)
  end.

(** the longest run of digits at the start of [s] *)
Fixpoint scan_digits (s : string) : uint * string :=
  match s with
  | String c t =>
      if is_digit c then
        let (d, rest) := scan_digits t in
        match uint_of_char c (Some d) with
        | Some d' => (d', rest)
        | None => (Nil, s)
        end
      else (Nil, s)
  | EmptyString => (Nil, EmptyString)
  end.

(** [s.startswith(p)], and the rest of [s] *)
Fixpoint strip_prefix (p s : string) : option string :=
  match p with
  | EmptyString => Some s
  | String c p' =>
      match s with
      | String d s' => if Ascii.eqb c d then strip_prefix p' s' else None
      | EmptyString => None
      end
  end.

(** the digits of the integer group of [NUMBER_RE]: 0, or a run of digits
    that starts with 1-9 *)
Definition match_digits (s : string) : option (uint * string) :=
  match s with
  | String c t =>
      if Ascii.eqb c "0" then Some (D0 Nil, t)
      else if in_range 49 57 c then Some (scan_digits s)
      else None
  | EmptyString => None
  end.

(** the integer group of [NUMBER_RE]: an optional sign, then the digits *)
Definition match_integer (s : string) : option (Decimal.int * string) :=
  match strip_prefix "-" s with
  | Some t => option_map (fun p => (Neg (fst p), snd p)) (match_digits t)
  | None => option_map (fun p => (Pos (fst p), snd p)) (match_digits s)
  end.

Definition starts_with_digit (s : string) : bool :=
  match s with
  | String c _ => is_digit c
  | EmptyString => false
  end.

(** the fraction and exponent groups of [NUMBER_RE]: is the number a float? *)
Definition has_frac_or_exp (s : string) : bool :=
  match s with
  | String "." t => starts_with_digit t
  | String c t =>
      if Ascii.eqb c "e" || Ascii.eqb c "E" then
        match t with
        | String sg t' =>
            if Ascii.eqb sg "+" || Ascii.eqb sg "-" then starts_with_digit t'
            else starts_with_digit t
        | EmptyString => false
        end
      else false
  | EmptyString => false
  end.

(** the atoms of the scanner: the constants and the numbers *)
Definition scan_atom (s : string) : parsed (json * string) :=
  match strip_prefix "null" s, strip_prefix "true" s, strip_prefix "false" s with
  | Some rest, _, _ => Parsed (JNull, rest)
  | _, Some rest, _ => Parsed (JBool true, rest)
  | _, _, Some rest => Parsed (JBool false, rest)
  | None, None, None =>
      match match_integer s with
      | Some (d, rest) =>
          if has_frac_or_exp rest then Beyond else Parsed (JInt (Z.of_int d), rest)
      | None =>
          match strip_prefix "NaN" s, strip_prefix "Infinity" s,
                strip_prefix "-Infinity" s with
          | None, None, None => Invalid
          | _, _, _ => Beyond
          end
      end
  end.

Fixpoint scan_once (fuel : nat) (s : string) : parsed (json * string) :=
  match fuel with
  | O => NoFuel
  | S fuel' =>
      match s with
      | EmptyString => Invalid
      | String c t =>
          if Ascii.eqb c dquote then
            '(str, rest) <- scanstring t ;; Parsed (JStr str, rest)
          else if Ascii.eqb c "{" then
            match strip_prefix "}" (skip_ws t) with
            | Some rest => Parsed (JObj [], rest)
            | None =>
                '(pairs, rest) <- scan_members fuel' (skip_ws t) ;;
                Parsed (JObj (dict_of_pairs pairs), rest)
            end
          else if Ascii.eqb c "[" then
            match strip_prefix "]" (skip_ws t) with
            | Some rest => Parsed (JArr [], rest)
            | None =>
                '(items, rest) <- scan_items fuel' (skip_ws t) ;;
                Parsed (JArr items, rest)
            end
          else scan_atom s
      end
  end

(** the values of an array, up to its closing bracket *)
with scan_items (fuel : nat) (s : string) : parsed (list json * string) :=
  match fuel with
  | O => NoFuel
  | S fuel' =>
      '(v, s1) <- scan_once fuel' s ;;
      match strip_prefix "]" (skip_ws s1), strip_prefix "," (skip_ws s1) with
      | Some rest, _ => Parsed ([v], rest)
      | None, Some s2 =>
          '(vs, rest) <- scan_items fuel' (skip_ws s2) ;; Parsed (v :: vs, rest)
      | None, None => Invalid
      end
  end

(** the members of an object, up to its closing brace *)
with scan_members (fuel : nat) (s : string)
    : parsed (list (string * json) * string) :=
  match fuel with
  | O => NoFuel
  | S fuel' =>
      match strip_prefix (String dquote "") s with
      | None => Invalid
      | Some t =>
          '(key, s1) <- scanstring t ;;
          match strip_prefix ":" (skip_ws s1) with
          | None => Invalid
          | Some s2 =>
              '(v, s3) <- scan_once fuel' (skip_ws s2) ;;
              match strip_prefix "}" (skip_ws s3), strip_prefix "," (skip_ws s3) with
              | Some rest, _ => Parsed ([(key, v)], rest)
              | None, Some s4 =>
                  '(kvs, rest) <- scan_members fuel' (skip_ws s4) ;;
                  Parsed ((key, v) :: kvs, rest)
              | None, None => Invalid
              end
          end
      end
  end.

(** [json.loads(text)]: one value between white space, and nothing else *)
Definition json_loads (text : string) : parsed json :=
  '(v, rest) <- scan_once (S (2 * String.length text)) (skip_ws text) ;;
  match skip_ws rest with
  | EmptyString => Parsed v
  | _ => Invalid
  end.

(** ** Outcomes of a run *)

Inductive exn : Type :=
| JSONDecodeError
| AttributeError
| TypeError
| KeyError
| ValueError
| OSError
| OverflowError
| CalledProcessError.

Inductive failure : Type :=
| SystemExit (message : string)
| Uncaught (e : exn)
| Unmodelled.

Definition result (A : Type) : Type := (failure + A)%type.
Definition Ok {A} (a : A) : result A := inr a.
Definition Err {A} (f : failure) : result A := inl f.

Definition bind {A B} (r : result A) (k : A -> result B) : result B :=
  match r with
  | inl f => inl f
  | inr a => k a
  end.

Notation "x <- r ;; k" := (bind r (fun x => k))
  (at level 61, r at next level, right associativity).

Fixpoint mapM {A B} (f : A -> result B) (l : list A) : result (list B) :=
  match l with
  | [] => Ok []
  | x :: rest => y <- f x ;; ys <- mapM f rest ;; Ok (y :: ys)
  end.

(** ** Python's conversions on JSON values *)

Definition hex2 (c : ascii) : string :=
  String (hex_digit (code c / 16)) (String (hex_digit (code c mod 16)) "").

(** [str.isprintable] on one code point below 256 *)
Definition is_printable (c : ascii) : bool :=
  in_range 32 126 c || (in_range 161 255 c && negb (code c =? 173)%nat).

Fixpoint contains (c : ascii) (s : string) : bool :=
  match s with
  | String d t => Ascii.eqb c d || contains c t
  | EmptyString => false
  end.

Definition repr_char (quote c : ascii) : string :=
  if Ascii.eqb c quote || Ascii.eqb c "\" then String "\" (String c "")
  else if Ascii.eqb c "009" then "\t"
  else if Ascii.eqb c newline then "\n"
  else if Ascii.eqb c "013" then "\r"
  else if is_printable c then String c ""
  else "\x" ++ hex2 c.

Fixpoint repr_chars (quote : ascii) (s : string) : string :=
  match s with
  | EmptyString => EmptyString
  | String c t => repr_char quote c ++ repr_chars quote t
  end.

(** [repr(s)] for a [str] *)
Definition repr_str (s : string) : string :=
  let quote := if contains "'" s && negb (contains dquote s) then dquote else "'"%char in
  String quote (repr_chars quote s ++ String quote "").

(** [repr(v)] *)
Fixpoint py_repr (v : json) : string :=
  match v with
  | JNull => "None"
  | JBool true => "True"
  | JBool false => "False"
  | JInt n => str_of_int n
  | JStr s => repr_str s
  | JArr items => "[" ++ join ", " (map py_repr items) ++ "]"
  | JObj members =>
      "{" ++ join ", " (map (fun kv => repr_str (fst kv) ++ ": " ++ py_repr (snd kv)) members)
          ++ "}"
  end.

(** [str(v)] *)
Definition py_str (v : json) : string :=
  match v with
  | JStr s => s
  | _ => py_repr v
  end.

(** the digits of [int(text)], with single underscores between them *)
Fixpoint int_digits (after_digit : bool) (acc : Z) (s : string) : option Z :=
  match s with
  | EmptyString => if after_digit then Some acc else None
  | String c t =>
      if is_digit c then int_digits true (10 * acc + Z.of_nat (code c - 48)) t
      else if Ascii.eqb c "_" && after_digit then
        match t with
        | String d _ => if is_digit d then int_digits false acc t else None
        | EmptyString => None
        end
      else None
  end.

(** The white space that [int] skips around a number: below 127 the class
    of [isspace] of C, from 127 on the class of [str.isspace].  The
    separators U+001C to U+001F, which [str.strip] removes, are not in
    it. *)
Definition is_int_space (c : ascii) : bool :=
  in_range 9 13 c || (code c =? 32)%nat || (code c =? 133)%nat || (code c =? 160)%nat.

Fixpoint skip_left (p : ascii -> bool) (s : string) : string :=
  match s with
  | String c t => if p c then skip_left p t else s
  | EmptyString => EmptyString
  end.

Fixpoint skip_right (p : ascii -> bool) (s : string) : string :=
  match s with
  | EmptyString => EmptyString
  | String c t =>
      match skip_right p t with
      | EmptyString => if p c then EmptyString else String c EmptyString
      | t' => String c t'
      end
  end.

(** [int(text)] for a [str] in base ten *)
Definition int_of_str (text : string) : option Z :=
  match skip_right is_int_space (skip_left is_int_space text) with
  | String "-" t => option_map Z.opp (int_digits false 0 t)
  | String "+" t => int_digits false 0 t
  | t => int_digits false 0 t
  end.

(** [int(v)] *)
Definition py_int (v : json) : result Z :=
  match v with
  | JInt n => Ok n
  | JBool b => Ok (if b then 1 else 0)%Z
  | JStr s =>
      match int_of_str s with
      | Some n => Ok n
      | None => Err (Uncaught ValueError)
      end
  | _ => Err (Uncaught TypeError)
  end.

(** [v.get(key, default)]: only a [dict] has [get] *)
Definition py_get (v : json) (key : string) (default : json) : result json :=
  match v with
  | JObj members =>
      match dict_get key members with
      | Some x => Ok x
      | None => Ok default
      end
  | _ => Err (Uncaught AttributeError)
  end.

Fixpoint chars_of (s : string) : list json :=
  match s with
  | EmptyString => []
  | String c t => JStr (String c "") :: chars_of t
  end.

(** [for item in v]: the items of a list, the keys of a dict, the characters
    of a str *)
Definition py_iter (v : json) : result (list json) :=
  match v with
  | JArr items => Ok items
  | JObj members => Ok (map (fun kv => JStr (fst kv)) members)
  | JStr s => Ok (chars_of s)
  | _ => Err (Uncaught TypeError)
  end.

(** the order of Python on triples of strings *)
Definition key3 : Type := (string * string * string)%type.

Definition key3_lt (a b : key3) : bool :=
  let '(a1, a2, a3) := a in
  let '(b1, b2, b3) := b in
  match String.compare a1 b1 with
  | Lt => true
  | Gt => false
  | Eq =>
      match String.compare a2 b2 with
      | Lt => true
      | Gt => false
      | Eq => String.ltb a3 b3
      end
  end.

(** ** The world of a run

    The files the scripts touch, and the two external commands.  [fs] holds
    the wheel files by path, and [in_dist] tells which of these paths lie in
    the directory [dist/] of the checkout, the one that the index generator
    removes and makes again.  [manifest_file] is the text of [wheels.json] as
    [read_text] returns it, [index_html] the page in [dist/]; these two files
    are kept apart from [fs], and a path of the command line that names one
    of them is outside the embedding.  [git_origin] is what
    [git remote get-url origin] prints, [None] when it exits with an error;
    [gh_succeeds] tells whether [gh release create] succeeds on a call, and
    [releases] lists the calls made, latest first. *)

Inductive file_state : Type :=
| Missing
| Unreadable
| File (content : string).

Record gh_call : Type := {
  gh_tag : string;
  gh_paths : list string;
  gh_title : string;
  gh_notes : string
}.

Record world : Type := {
  fs : string -> file_state;
  in_dist : string -> bool;
  manifest_file : option string;
  index_html : option string;
  git_origin : option string;
  gh_succeeds : gh_call -> bool;
  releases : list gh_call
}.

Definition set_manifest_file (text : option string) (w : world) : world :=
  {| fs := fs w; in_dist := in_dist w; manifest_file := text;
     index_html := index_html w;
     git_origin := git_origin w; gh_succeeds := gh_succeeds w;
     releases := releases w |}.

Definition set_index_html (text : option string) (w : world) : world :=
  {| fs := fs w; in_dist := in_dist w; manifest_file := manifest_file w;
     index_html := text;
     git_origin := git_origin w; gh_succeeds := gh_succeeds w;
     releases := releases w |}.

Definition add_release (call : gh_call) (w : world) : world :=
  {| fs := fs w; in_dist := in_dist w; manifest_file := manifest_file w;
     index_html := index_html w;
     git_origin := git_origin w; gh_succeeds := gh_succeeds w;
     releases := call :: releases w |}.

(** [shutil.rmtree(dist)] and [dist.mkdir()]: the files of [dist/] are gone,
    the page among them *)
Definition clear_dist (w : world) : world :=
  {| fs := fun path => if in_dist w path then Missing else fs w path;
     in_dist := in_dist w; manifest_file := manifest_file w;
     index_html := None;
     git_origin := git_origin w; gh_succeeds := gh_succeeds w;
     releases := releases w |}.

(** A command of a script: it reads and changes the world, and returns or
    fails. *)
Definition cmd (A : Type) : Type := world -> result A * world.

Definition ret {A} (a : A) : cmd A := fun w => (Ok a, w).
Definition raise {A} (f : failure) : cmd A := fun w => (Err f, w).
Definition lift {A} (r : result A) : cmd A := fun w => (r, w).
Definition ask {A} (f : world -> A) : cmd A := fun w => (Ok (f w), w).
Definition change (f : world -> world) : cmd unit := fun w => (Ok tt, f w).

Definition cbind {A B} (c : cmd A) (k : A -> cmd B) : cmd B :=
  fun w =>
    match c w with
    | (inl f, w') => (inl f, w')
    | (inr a, w') => k a w'
    end.

Notation "x <~ c ;; k" := (cbind c (fun x => k))
  (at level 61, c at next level, right associativity).
Notation "c ;;; k" := (cbind c (fun _ => k))
  (at level 61, right associativity).

(** [json.loads(path.read_text())] as both scripts use it *)
Definition decode_manifest (text : string) : result json :=
  match json_loads text with
  | Parsed v => Ok v
  | Invalid => Err (Uncaught JSONDecodeError)
  | Beyond => Err Unmodelled
  | NoFuel => Err Unmodelled
  end.

Definition MANIFEST_NAME : string := "wheels.json".

(** ** [scripts/generate_index.py] *)

Module GenerateIndex.

Definition REPO_URL_PREFIX : string := "https://github.com".

Record WheelEntry : Type := {
  filename : string;
  package : string;
  version : string;
  size_bytes : Z;
  sha256 : string;
  url : string
}.

Definition sort_key (entry : WheelEntry) : key3 :=
  (package entry, version entry, filename entry).

Definition nonempty (s : string) : bool := negb (String.eqb s "").

(** the body of the loop of [load_manifest]: the entry of one item, if it is
    kept *)
Definition load_item (repo : string) (item : json) : result (option WheelEntry) :=
  v <- py_get item "filename" (JStr "") ;;
  let filename := strip (py_str v) in
  v <- py_get item "release_tag" (JStr "") ;;
  let release_tag := strip (py_str v) in
  v <- py_get item "package" (JStr "") ;;
  let package := canonicalize_package_name (strip (py_str v)) in
  v <- py_get item "version" (JStr "") ;;
  let version := strip (py_str v) in
  v <- py_get item "size_bytes" (JInt 0) ;;
  size_bytes <- py_int v ;;
  v <- py_get item "sha256" (JStr "") ;;
  let sha256 := strip (py_str v) in
  let url :=
    if nonempty repo
    then REPO_URL_PREFIX ++ "/" ++ repo ++ "/releases/download/" ++ release_tag
           ++ "/" ++ filename
    else "" in
  if nonempty filename && nonempty package && nonempty version && nonempty sha256
     && nonempty release_tag
  then Ok (Some {| filename := filename; package := package; version := version;
                   size_bytes := size_bytes; sha256 := sha256; url := url |})
  else Ok None.

Fixpoint keep {A} (l : list (option A)) : list A :=
  match l with
  | [] => []
  | Some x :: rest => x :: keep rest
  | None :: rest => keep rest
  end.

Definition load_manifest (w : world) : result (string * list WheelEntry) :=
  match manifest_file w with
  | None => Ok ("", [])
  | Some text =>
      manifest <- decode_manifest text ;;
      v <- py_get manifest "repo" (JStr "") ;;
      let repo := strip (py_str v) in
      v <- py_get manifest "wheels" (JArr []) ;;
      items <- py_iter v ;;
      entries <- mapM (load_item repo) items ;;
      Ok (repo, sort_by (fun a b => key3_lt (sort_key a) (sort_key b)) (keep entries))
  end.

(** *** [bytes_to_human]

    The floats of this function are computed exactly: [float(value)] is the
    integer rounded to 53 bits, dividing by 1024 loses nothing, and the
    format [.1f] rounds the exact quotient to a tenth, ties to even. *)

Definition round_half_even (num den : Z) : Z :=
  let q := (num / den)%Z in
  let r := (num mod den)%Z in
  if (2 * r <? den)%Z then q
  else if (den <? 2 * r)%Z then (q + 1)%Z
  else if Z.even q then q else (q + 1)%Z.

Definition float_of_nat_int (n : Z) : option Z :=
  let bits := (Z.log2 n + 1)%Z in
  if (bits <=? 53)%Z then Some n
  else
    let unit := (2 ^ (bits - 53))%Z in
    let v := (round_half_even n unit * unit)%Z in
    if (v <? 2 ^ 1024)%Z then Some v else None.

(** [float(value)], as the integer it is equal to; [None] is [OverflowError] *)
Definition float_of_int (value : Z) : option Z :=
  if (value <? 0)%Z then option_map Z.opp (float_of_nat_int (- value))
  else float_of_nat_int value.

(** [f"{num/den:.1f}"] *)
Definition format_1f (num den : Z) : string :=
  let tenths := round_half_even (10 * Z.abs num) den in
  (if (num <? 0)%Z then "-" else "")
    ++ str_of_int (tenths / 10) ++ "." ++ str_of_int (tenths mod 10).

Definition suffixes : list string := ["B"; "KB"; "MB"; "GB"; "TB"].

(** the loop over the suffixes; the size is [num / den] *)
Fixpoint human_loop (num den : Z) (rest : list string) : option string :=
  match rest with
  | [] => None
  | suffix :: rest' =>
      if (num <? 1024 * den)%Z || String.eqb suffix (last suffixes "")
      then Some (if negb (String.eqb suffix "B")
                 then format_1f num den ++ " " ++ suffix
                 else str_of_int (Z.quot num den) ++ " " ++ suffix)
      else human_loop num (1024 * den) rest'
  end.

Definition bytes_to_human (value : Z) : result string :=
  match float_of_int value with
  | None => Err (Uncaught OverflowError)
  | Some size =>
      match human_loop size 1 suffixes with
      | Some text => Ok text
      | None => Ok (str_of_int value ++ " B")
      end
  end.

(** *** [render_index] *)

(** [html.escape(s)] *)
Definition escape_html_char (c : ascii) : string :=
  if Ascii.eqb c "&" then "&amp;"
  else if Ascii.eqb c "<" then "&lt;"
  else if Ascii.eqb c ">" then "&gt;"
  else if Ascii.eqb c dquote then "&quot;"
  else if Ascii.eqb c "'" then "&#x27;"
  else String c "".

Fixpoint html_escape (s : string) : string :=
  match s with
  | EmptyString => EmptyString
  | String c t => escape_html_char c ++ html_escape t
  end.

Definition groups : Type := list (string * list WheelEntry).

(** [grouped[package].append(wheel)] on a [defaultdict(list)] *)
Fixpoint group_append (key : string) (wheel : WheelEntry) (g : groups) : groups :=
  match g with
  | [] => [(key, [wheel])]
  | (k, ws) :: rest =>
      if String.eqb k key then (k, (ws ++ [wheel])%list) :: rest
      else (k, ws) :: group_append key wheel rest
  end.

Definition group_wheels (wheels : list WheelEntry) : groups :=
  fold_left (fun g wheel => group_append (package wheel) wheel g) wheels [].

(** [grouped[package]] *)
Fixpoint group_get (key : string) (g : groups) : list WheelEntry :=
  match g with
  | [] => []
  | (k, ws) :: rest => if String.eqb k key then ws else group_get key rest
  end.

Definition q : string := String dquote "".

Definition head_lines : list string :=
  [ "<!doctype html>";
    "<html lang=" ++ q ++ "en" ++ q ++ ">";
    "<head>";
    "  <meta charset=" ++ q ++ "utf-8" ++ q ++ ">";
    "  <meta name=" ++ q ++ "viewport" ++ q ++ " content=" ++ q
      ++ "width=device-width, initial-scale=1" ++ q ++ ">";
    "  <title>whl.knaebel.dev</title>";
    "  <style>";
    "    body { font-family: ui-monospace, SFMono-Regular, Menlo, Monaco, Consolas, monospace; max-width: 920px; margin: 2rem auto; padding: 0 1rem; line-height: 1.4; }";
    "    h1 { margin-bottom: 0.25rem; }";
    "    .meta { color: #5f6368; font-size: 0.95rem; margin-bottom: 1.5rem; }";
    "    h2 { margin-top: 2rem; margin-bottom: 0.25rem; }";
    "    ul { padding-left: 1.25rem; }";
    "    li { margin: 0.5rem 0; }";
    "    .details { color: #5f6368; font-size: 0.9rem; }";
    "  </style>";
    "</head>";
    "<body>";
    "  <h1>Python Wheels</h1>";
    "  <p class=" ++ q ++ "meta" ++ q
      ++ ">Use with <code>pip install --no-index --find-links https://whl.knaebel.dev/ PACKAGE==VERSION</code></p>" ].

Definition placeholder_line : string := "  <p>No wheels published yet.</p>".

Definition foot_lines : list string := ["</body>"; "</html>"; ""].

Definition heading_line (package : string) : string :=
  "  <h2 id=" ++ q ++ html_escape package ++ q ++ ">" ++ html_escape package ++ "</h2>".

Definition wheel_line (wheel : WheelEntry) : result string :=
  let filename := html_escape (filename wheel) in
  let url := html_escape (url wheel) in
  human <- bytes_to_human (size_bytes wheel) ;;
  let size := html_escape human in
  let version := html_escape (version wheel) in
  let sha := html_escape (sha256 wheel) in
  Ok ("    <li><a href=" ++ q ++ url ++ "#sha256=" ++ sha ++ q ++ ">" ++ filename
        ++ "</a> " ++ "<span class=" ++ q ++ "details" ++ q ++ ">version " ++ version
        ++ ", " ++ size ++ "</span></li>").

(** the lines of one package: its heading and its list *)
Definition section_lines (package : string) (entries : list WheelEntry)
    : result (list string) :=
  items <- mapM wheel_line entries ;;
  Ok ([heading_line package; "  <ul>"] ++ items ++ ["  </ul>"])%list.

(** the packages in the order of [sorted(grouped)], each with its wheels *)
Definition sections (wheels : list WheelEntry) : groups :=
  let grouped := group_wheels wheels in
  map (fun package => (package, group_get package grouped))
    (sort_by String.ltb (map fst grouped)).

Definition render_lines (wheels : list WheelEntry) : result (list string) :=
  body <-
    match wheels with
    | [] => Ok [placeholder_line]
    | _ =>
        parts <- mapM (fun s => section_lines (fst s) (snd s)) (sections wheels) ;;
        Ok (List.concat parts)
    end ;;
  Ok (head_lines ++ body ++ foot_lines)%list.

Definition render_index (wheels : list WheelEntry) : result string :=
  lines <- render_lines wheels ;;
  Ok (join (String newline "") lines).

(** *** [build_dist] and [main] *)

Definition build_dist : cmd Z :=
  loaded <~ (fun w => (load_manifest w, w)) ;;
  let '(repo, wheels) := loaded in
  match wheels, nonempty repo with
  | _ :: _, false =>
      raise (SystemExit (MANIFEST_NAME ++ " must include a non-empty repo field."))
  | _, _ =>
      change clear_dist ;;;
      index_html <~ lift (render_index wheels) ;;
      change (set_index_html (Some index_html)) ;;;
      ret (Z.of_nat (List.length wheels))
  end.

Definition main : cmd unit :=
  wheel_count <~ build_dist ;;
  ret tt.

End GenerateIndex.

(** ** Paths ([pathlib.PurePosixPath]) *)

Fixpoint split_on (sep : ascii) (s : string) : list string :=
  match s with
  | EmptyString => [EmptyString]
  | String c t =>
      if Ascii.eqb c sep then EmptyString :: split_on sep t
      else
        match split_on sep t with
        | first :: rest => String c first :: rest
        | [] => [String c EmptyString]
        end
  end.

(** the components of a path: empty ones and [.] are dropped *)
Definition path_parts (p : string) : list string :=
  filter (fun part => negb (String.eqb part "") && negb (String.eqb part "."))
    (split_on "/" p).

(** the root of a path: two leading slashes are kept, one or three are one *)
Definition path_root (p : string) : string :=
  match p with
  | String "/" (String "/" (String "/" _)) => "/"
  | String "/" (String "/" _) => "//"
  | String "/" _ => "/"
  | _ => ""
  end.

(** [Path(p).name] *)
Definition path_name (p : string) : string := last (path_parts p) "".

(** [str(Path(p))] *)
Definition path_str (p : string) : string :=
  match path_root p, path_parts p with
  | EmptyString, [] => "."
  | root, parts => root ++ join "/" parts
  end.

(** [Path(p).exists()] *)
Definition path_exists (w : world) (p : string) : bool :=
  match fs w (path_str p) with
  | Missing => false
  | _ => true
  end.

(** ** The failures of the publisher, under the names of the specification *)

Definition MissingArtifact (missing : list string) : failure :=
  SystemExit ("Missing wheel files: " ++ join ", " missing).

Definition InvalidArtifactName (name : string) : failure :=
  SystemExit ("Unrecognized wheel filename: " ++ name).

Definition RepoConflict (manifest_repo cli_repo : string) : failure :=
  SystemExit ("Manifest repo is " ++ manifest_repo ++ ", but CLI repo is " ++ cli_repo ++ ".").

Definition RepoUnresolved : failure :=
  SystemExit "Could not infer repo. Pass --repo owner/name.".

Definition RepoUnset : failure :=
  SystemExit "Repo must be set in wheels.json or provided via --repo.".

Definition DuplicateArtifact (filename release_tag : string) : failure :=
  SystemExit ("Wheel already recorded in manifest: " ++ filename ++ " (" ++ release_tag ++ ")").

Definition ManifestCorrupt : failure := Uncaught JSONDecodeError.

(** ** [scripts/publish_release.py] *)

Module PublishRelease.

Record WheelRecord : Type := {
  filename : string;
  package : string;
  version : string;
  size_bytes : Z;
  sha256 : string;
  release_tag : string
}.

(** the parsed command line: [wheels] (one or more), [--tag], [--title],
    [--repo] and [--notes] *)
Record arguments : Type := {
  wheels : list string;
  tag : string;
  title : option string;
  repo : option string;
  notes : string
}.

(** [value or default] for an optional string *)
Definition or_else (value : option string) (default : string) : string :=
  match value with
  | Some (String c t) => String c t
  | _ => default
  end.

Definition nonempty (s : string) : bool := negb (String.eqb s "").

Section Publisher.

(** [hashlib.sha256]: the digest of the bytes of a file, in hexadecimal *)
Variable sha256_hexdigest : string -> string.

Definition sha256_file (w : world) (path : string) : result string :=
  match fs w (path_str path) with
  | File content => Ok (sha256_hexdigest content)
  | _ => Err (Uncaught OSError)
  end.

(** [path.stat().st_size] *)
Definition st_size (w : world) (path : string) : result Z :=
  match fs w (path_str path) with
  | File content => Ok (Z.of_nat (String.length content))
  | _ => Err (Uncaught OSError)
  end.

Definition infer_repo_from_git (w : world) : string :=
  match git_origin w with
  | None => ""
  | Some stdout =>
      match Re.re_match GITHUB_REPO_RE (strip stdout) with
      | Some caps => or_else (Re.group "1" caps) ""
      | None => ""
      end
  end.

Definition load_manifest (w : world) : result json :=
  match manifest_file w with
  | None => Ok (JObj [("repo", JStr ""); ("wheels", JArr [])])
  | Some text => decode_manifest text
  end.

Definition write_manifest (manifest : json) : cmd unit :=
  change (set_manifest_file (Some (json_dumps manifest ++ String newline ""))).

(** the body of the loop of [collect_wheels] *)
Definition collect_wheel (w : world) (tag : string) (path : string) : result WheelRecord :=
  match Re.re_match WHEEL_NAME_RE (path_name path) with
  | None => Err (InvalidArtifactName (path_name path))
  | Some caps =>
      let package := canonicalize_package_name (or_else (Re.group "name" caps) "") in
      let version := or_else (Re.group "version" caps) "" in
      size <- st_size w path ;;
      digest <- sha256_file w path ;;
      Ok {| filename := path_name path; package := package; version := version;
            size_bytes := size; sha256 := digest; release_tag := tag |}
  end.

Definition collect_wheels (w : world) (paths : list string) (tag : string)
    : result (list WheelRecord) :=
  mapM (collect_wheel w tag) paths.

Definition ensure_repo (manifest_repo cli_repo : string) : result string :=
  if nonempty manifest_repo && nonempty cli_repo
     && negb (String.eqb manifest_repo cli_repo)
  then Err (RepoConflict manifest_repo cli_repo)
  else Ok (if nonempty cli_repo then cli_repo else manifest_repo).

Definition create_release (tag title notes : string) (wheel_paths : list string)
    : cmd unit :=
  let call := {| gh_tag := tag; gh_paths := map path_str wheel_paths;
                 gh_title := title; gh_notes := notes |} in
  change (add_release call) ;;;
  ok <~ ask (fun w => gh_succeeds w call) ;;
  if ok : bool then ret tt else raise (Uncaught CalledProcessError).

(** one element of the set [existing]; a list or a dict cannot be hashed *)
Definition existing_key (entry : json) : result (json * json) :=
  rt <- py_get entry "release_tag" JNull ;;
  fn <- py_get entry "filename" JNull ;;
  match rt, fn with
  | JArr _, _ | JObj _, _ | _, JArr _ | _, JObj _ => Err (Uncaught TypeError)
  | _, _ => Ok (rt, fn)
  end.

(** [key in existing] for a key of two strings *)
Definition in_existing (release_tag filename : string) (existing : list (json * json))
    : bool :=
  existsb
    (fun k =>
       match k with
       | (JStr rt, JStr fn) => String.eqb rt release_tag && String.eqb fn filename
       | _ => false
       end)
    existing.

(** the loop that refuses a wheel the manifest already records *)
Fixpoint check_new (existing : list (json * json)) (records : list WheelRecord)
    : result unit :=
  match records with
  | [] => Ok tt
  | record :: rest =>
      if in_existing (release_tag record) (filename record) existing
      then Err (DuplicateArtifact (filename record) (release_tag record))
      else check_new existing rest
  end.

Definition record_json (record : WheelRecord) : json :=
  JObj [ ("filename", JStr (filename record));
         ("package", JStr (package record));
         ("version", JStr (version record));
         ("size_bytes", JInt (size_bytes record));
         ("sha256", JStr (sha256 record));
         ("release_tag", JStr (release_tag record)) ].

(** [entry[key]] for an entry that is a dict *)
Definition subscript (entry : json) (key : string) : result json :=
  match entry with
  | JObj members =>
      match dict_get key members with
      | Some v => Ok v
      | None => Err (Uncaught KeyError)
      end
  | _ => Err (Uncaught TypeError)
  end.

(** the key of the sort of the wheels.  Keys that are not strings are left
    out of the embedding. *)
Definition entry_key (entry : json) : result key3 :=
  p <- subscript entry "package" ;;
  v <- subscript entry "version" ;;
  f <- subscript entry "filename" ;;
  match p, v, f with
  | JStr p', JStr v', JStr f' => Ok (p', v', f')
  | _, _, _ => Err Unmodelled
  end.

(** [wheels.sort(key=...)]: the keys are computed first, then the list is
    sorted on them *)
Definition sort_wheels (entries : list json) : result (list json) :=
  keyed <- mapM (fun entry => k <- entry_key entry ;; Ok (k, entry)) entries ;;
  Ok (map snd (sort_by (fun a b => key3_lt (fst a) (fst b)) keyed)).

(** lines 141 to 155 of [main]: the manifest with the repo and the new
    records, sorted *)
Definition updated_manifest (manifest : json) (repo : string)
    (records : list WheelRecord) : result json :=
  match manifest with
  | JObj members =>
      let members := dict_set "repo" (JStr repo) members in
      let members :=
        match dict_get "wheels" members with
        | Some _ => members
        | None => dict_set "wheels" (JArr []) members
        end in
      match dict_get "wheels" members with
      | Some (JArr entries) =>
          sorted <- sort_wheels (entries ++ map record_json records)%list ;;
          Ok (JObj (dict_set "wheels" (JArr sorted) members))
      | _ => Err (Uncaught AttributeError)
      end
  | _ => Err (Uncaught TypeError)
  end.

(** the generator, run as a child process *)
Definition run_generate_index : cmd unit :=
  fun w =>
    match GenerateIndex.main w with
    | (inr _, w') => (Ok tt, w')
    | (inl Unmodelled, w') => (Err Unmodelled, w')
    | (inl _, w') => (Err (Uncaught CalledProcessError), w')
    end.

Definition main (args : arguments) : cmd unit :=
  let wheel_paths := wheels args in
  missing <~ ask (fun w => map path_str
                             (filter (fun path => negb (path_exists w path)) wheel_paths)) ;;
  match missing with
  | _ :: _ => raise (MissingArtifact missing)
  | [] =>
      inferred_repo <~ ask infer_repo_from_git ;;
      repo <~ lift (ensure_repo (or_else (repo args) "") inferred_repo) ;;
      if negb (nonempty repo) then raise RepoUnresolved
      else
        manifest <~ (fun w => (load_manifest w, w)) ;;
        v <~ lift (py_get manifest "repo" (JStr "")) ;;
        let manifest_repo := strip (py_str v) in
        repo <~ lift (ensure_repo manifest_repo repo) ;;
        if negb (nonempty repo) then raise RepoUnset
        else
          create_release (tag args) (or_else (title args) (tag args)) (notes args)
            wheel_paths ;;;
          records <~ (fun w => (collect_wheels w wheel_paths (tag args), w)) ;;
          v <~ lift (py_get manifest "wheels" (JArr [])) ;;
          entries <~ lift (py_iter v) ;;
          existing <~ lift (mapM existing_key entries) ;;
          lift (check_new existing records) ;;;
          manifest <~ lift (updated_manifest manifest repo records) ;;
          write_manifest manifest ;;;
          run_generate_index
  end.

End Publisher.

End PublishRelease.

(** ** Notions of the specification *)

(** a tag of a wheel name: not empty, without a dash *)
Definition is_tag (s : string) : Prop := s <> "" /\ all_chars not_dash s = true.

(** Modelled on the pattern of the specification,
    name-version[-build]-tag1-tag2-tag3.whl: [s] is a wheel file name with
    the given name and version.  [build] is empty or a dash and a build tag
    that starts with a digit; a line feed may end the name. *)
Definition wheel_name_shape (s name version : string) : Prop :=
  exists build py abi plat tail,
    s = name ++ "-" ++ version ++ build ++ "-" ++ py ++ "-" ++ abi ++ "-" ++ plat
             ++ ".whl" ++ tail
    /\ name <> "" /\ all_chars any_but_newline name = true
    /\ is_tag version
    /\ (build = ""
        \/ exists d b, build = String "-" (String d b) /\ is_digit d = true
                       /\ all_chars not_dash b = true)
    /\ is_tag py /\ is_tag abi /\ is_tag plat
    /\ (tail = "" \/ tail = String newline "").

(** the rest of a string after its leading run of separators *)
Fixpoint skip_seps (s : string) : string :=
  match s with
  | String c t => if is_sep c then skip_seps t else s
  | EmptyString => EmptyString
  end.

(** The logical content of a JSON value: the value with the members of each
    object in the order of their keys.  Two values have the same logical
    content when these are equal. *)
Fixpoint normalize (v : json) : json :=
  match v with
  | JArr items => JArr (map normalize items)
  | JObj members =>
      JObj (sort_items (map (fun kv => (fst kv, normalize (snd kv))) members))
  | _ => v
  end.

Definition same_content (a b : json) : Prop := normalize a = normalize b.

Definition is_str (v : option json) : bool :=
  match v with
  | Some (JStr _) => true
  | _ => false
  end.

(** Modelled from the spec: the structure of a wheel record in the manifest
    file, five strings and an integer size under the six keys of the data
    model. *)
Definition record_schema (entry : json) : bool :=
  match entry with
  | JObj members =>
      is_str (dict_get "filename" members) && is_str (dict_get "package" members)
      && is_str (dict_get "version" members) && is_str (dict_get "sha256" members)
      && is_str (dict_get "release_tag" members)
      && match dict_get "size_bytes" members with
         | Some (JInt n) => (0 <=? n)%Z
         | _ => false
         end
  | _ => false
  end.

(** Modelled from the spec: the structure of the manifest file, an object
    with a string under [repo] and an array of wheel records under
    [wheels]. *)
Definition manifest_schema (manifest : json) : bool :=
  match manifest with
  | JObj members =>
      is_str (dict_get "repo" members)
      && match dict_get "wheels" members with
         | Some (JArr entries) => forallb record_schema entries
         | _ => false
         end
  | _ => false
  end.

(** the (release_tag, filename) pairs of the entries of a manifest *)
Definition entry_pair (entry : json) : option json * option json :=
  match entry with
  | JObj members => (dict_get "release_tag" members, dict_get "filename" members)
  | _ => (None, None)
  end.

Definition manifest_pairs (manifest : json) : list (option json * option json) :=
  match manifest with
  | JObj members =>
      match dict_get "wheels" members with
      | Some (JArr entries) => map entry_pair entries
      | _ => []
      end
  | _ => []
  end.

(** the wheels of one package, in the order of the list *)
Definition wheels_of (package : string) (wheels : list GenerateIndex.WheelEntry)
    : list GenerateIndex.WheelEntry :=
  filter (fun wheel => String.eqb (GenerateIndex.package wheel) package) wheels.

(** [a] is strictly below [b] in the order of the code points *)
Definition str_lt (a b : string) : Prop := String.ltb a b = true.


(** the text [x] occurs in the text [s] *)
Definition text_in (x s : string) : Prop := exists a c, s = a ++ x ++ c.



(** ** Notions used in the proofs *)

(** the rest of a scan, with one more character in front of its string *)
Definition and_then (p : parsed (string * string)) (c : ascii)
    : parsed (string * string) :=
  pbind p (fun x => Parsed (String c (fst x), snd x)).

(** a text after which a number ends: no digit, fraction or exponent *)
Definition number_end (rest : string) : bool :=
  negb (starts_with_digit rest) && negb (has_frac_or_exp rest).

(** a text that starts with the first character of a value *)
Definition starts_value (s : string) : Prop :=
  exists c t, s = String c t /\ is_ws c = false
              /\ Ascii.eqb "]" c = false /\ Ascii.eqb "}" c = false.

(** the scanner reads back the text of [v], at any depth and before any
    text that lets a number end *)
Definition decodes (v : json) : Prop :=
  forall L rest f,
    number_end rest = true ->
    (2 * String.length (dumps_at L v) < f)%nat ->
    scan_once f (dumps_at L v ++ rest) = Parsed (normalize v, rest).

(** the text of one member of an object *)
Definition member_text (L : nat) (kv : string * json) : string :=
  encode_basestring_ascii (fst kv) ++ ": " ++ dumps_at L (snd kv).

(** a result that is not [NoFuel] and leaves less than [n] characters *)
Definition bounded {A} (p : parsed (A * string)) (n : nat) : Prop :=
  p <> NoFuel
  /\ forall a r, p = Parsed (a, r) -> (String.length r < n)%nat.

(** [a] may stand before [b] in a sorted list: [b] is not below [a] *)
Definition not_after {A} (lt : A -> A -> bool) (a b : A) : Prop := lt b a = false.

Import PublishRelease.

(** the fields of a wheel entry that the index needs as text *)
Definition required_fields : list string :=
  ["filename"; "package"; "version"; "sha256"; "release_tag"].

(** what the groups hold after the wheels [seen] *)
Definition groups_of (g : GenerateIndex.groups) (seen : list GenerateIndex.WheelEntry) : Prop :=
  NoDup (map fst g)
  /\ (forall p, In p (map fst g) <-> In p (map GenerateIndex.package seen))
  /\ (forall p, GenerateIndex.group_get p g = wheels_of p seen).

(** the paths of [missing] in [main] *)
Definition missing_paths (w : world) (paths : list string) : list string :=
  map path_str (filter (fun path => negb (path_exists w path)) paths).

(** the pair of a record, as the manifest holds it *)
Definition record_pair (r : WheelRecord) : option json * option json :=
  (Some (JStr (release_tag r)), Some (JStr (filename r))).

(** the call of the release command that [main] makes *)
Definition release_call (args : arguments) : gh_call :=
  {| gh_tag := tag args; gh_paths := map path_str (wheels args);
     gh_title := or_else (title args) (tag args); gh_notes := notes args |}.

(** *** Views of [main]

    The body of [main] in three parts; [main_unfold] and the lemmas after
    it show that [main] is their composition. *)

(** lines 116 to 127 of [main]: the repo of the flag, the remote and the
    manifest *)
Definition resolved_repo (args : arguments) (w : world) (manifest : json)
    : result string :=
  repo <- ensure_repo (or_else (repo args) "") (infer_repo_from_git w) ;;
  if negb (nonempty repo) then Err RepoUnresolved
  else
    v <- py_get manifest "repo" (JStr "") ;;
    repo <- ensure_repo (strip (py_str v)) repo ;;
    if negb (nonempty repo) then Err RepoUnset else Ok repo.

(** [main] after the release is created: the records, the check against the
    manifest, the write and the index *)
Definition record_wheels (sha : string -> string) (args : arguments)
    (manifest : json) (repo : string) : cmd unit :=
  records <~ (fun w => (collect_wheels sha w (wheels args) (tag args), w)) ;;
  v <~ lift (py_get manifest "wheels" (JArr [])) ;;
  entries <~ lift (py_iter v) ;;
  existing <~ lift (mapM existing_key entries) ;;
  lift (check_new existing records) ;;;
  manifest <~ lift (updated_manifest manifest repo records) ;;
  write_manifest manifest ;;;
  run_generate_index.

(** [main] once the wheel files are known to exist *)
Definition publish_existing (sha : string -> string) (args : arguments) : cmd unit :=
  inferred_repo <~ ask infer_repo_from_git ;;
  repo <~ lift (ensure_repo (or_else (repo args) "") inferred_repo) ;;
  if negb (nonempty repo) then raise RepoUnresolved
  else
    manifest <~ (fun w => (load_manifest w, w)) ;;
    v <~ lift (py_get manifest "repo" (JStr "")) ;;
    let manifest_repo := strip (py_str v) in
    repo <~ lift (ensure_repo manifest_repo repo) ;;
    if negb (nonempty repo) then raise RepoUnset
    else
      create_release (tag args) (or_else (title args) (tag args)) (notes args)
        (wheels args) ;;;
      record_wheels sha args manifest repo.

(** ** Notions of the further properties *)

(** an owner or a repository name in a remote: not empty, without slash *)
Definition repo_part (s : string) : Prop := s <> "" /\ all_chars not_slash s = true.

(** the two prefixes of a GitHub remote *)
Definition github_prefix (p : string) : Prop :=
  p = "git@github.com:" \/ p = "https://github.com/".

(** lines 132 to 135 of [main]: the set [existing] *)
Definition existing_keys (manifest : json) : result (list (json * json)) :=
  v <- py_get manifest "wheels" (JArr []) ;;
  entries <- py_iter v ;;
  mapM existing_key entries.

(** the world after [write_manifest] *)
Definition with_manifest (manifest : json) (w : world) : world :=
  set_manifest_file (Some (json_dumps manifest ++ String newline "")) w.

(** The runs of [main], step by step: the outcome of a run and the world it
    leaves, with the steps that were taken before.  [main_run_of] shows that
    every run of [main] is one of these. *)
Inductive run_of (sha : string -> string) (args : arguments) (w : world)
    : result unit -> world -> Prop :=
| missing_files :
    missing_paths w (wheels args) <> [] ->
    run_of sha args w (Err (MissingArtifact (missing_paths w (wheels args)))) w
| repo_conflict_early f :
    missing_paths w (wheels args) = [] ->
    ensure_repo (or_else (repo args) "") (infer_repo_from_git w) = Err f ->
    run_of sha args w (Err f) w
| repo_unresolved :
    missing_paths w (wheels args) = [] ->
    ensure_repo (or_else (repo args) "") (infer_repo_from_git w) = Ok "" ->
    run_of sha args w (Err RepoUnresolved) w
| manifest_unreadable r f :
    missing_paths w (wheels args) = [] ->
    ensure_repo (or_else (repo args) "") (infer_repo_from_git w) = Ok r ->
    r <> "" -> load_manifest w = Err f ->
    run_of sha args w (Err f) w
| repo_refused manifest f :
    missing_paths w (wheels args) = [] ->
    load_manifest w = Ok manifest -> resolved_repo args w manifest = Err f ->
    run_of sha args w (Err f) w
| release_failed manifest r :
    missing_paths w (wheels args) = [] ->
    load_manifest w = Ok manifest -> resolved_repo args w manifest = Ok r ->
    gh_succeeds w (release_call args) = false ->
    run_of sha args w (Err (Uncaught CalledProcessError))
      (add_release (release_call args) w)
| wheels_refused manifest r f :
    missing_paths w (wheels args) = [] ->
    load_manifest w = Ok manifest -> resolved_repo args w manifest = Ok r ->
    gh_succeeds w (release_call args) = true ->
    collect_wheels sha w (wheels args) (tag args) = Err f ->
    run_of sha args w (Err f) (add_release (release_call args) w)
| manifest_refused manifest r records f :
    missing_paths w (wheels args) = [] ->
    load_manifest w = Ok manifest -> resolved_repo args w manifest = Ok r ->
    gh_succeeds w (release_call args) = true ->
    collect_wheels sha w (wheels args) (tag args) = Ok records ->
    existing_keys manifest = Err f ->
    run_of sha args w (Err f) (add_release (release_call args) w)
| wheel_recorded manifest r records existing f :
    missing_paths w (wheels args) = [] ->
    load_manifest w = Ok manifest -> resolved_repo args w manifest = Ok r ->
    gh_succeeds w (release_call args) = true ->
    collect_wheels sha w (wheels args) (tag args) = Ok records ->
    existing_keys manifest = Ok existing ->
    check_new existing records = Err f ->
    run_of sha args w (Err f) (add_release (release_call args) w)
| update_refused manifest r records existing f :
    missing_paths w (wheels args) = [] ->
    load_manifest w = Ok manifest -> resolved_repo args w manifest = Ok r ->
    gh_succeeds w (release_call args) = true ->
    collect_wheels sha w (wheels args) (tag args) = Ok records ->
    existing_keys manifest = Ok existing ->
    check_new existing records = Ok tt ->
    updated_manifest manifest r records = Err f ->
    run_of sha args w (Err f) (add_release (release_call args) w)
| manifest_written manifest r records existing manifest' :
    missing_paths w (wheels args) = [] ->
    load_manifest w = Ok manifest -> resolved_repo args w manifest = Ok r ->
    gh_succeeds w (release_call args) = true ->
    collect_wheels sha w (wheels args) (tag args) = Ok records ->
    existing_keys manifest = Ok existing ->
    check_new existing records = Ok tt ->
    updated_manifest manifest r records = Ok manifest' ->
    let w1 := with_manifest manifest' (add_release (release_call args) w) in
    run_of sha args w (fst (run_generate_index w1)) (snd (run_generate_index w1)).

(** the record that [collect_wheels] makes of a path: the name of the file
    and the tag, the size and the digest of its content, and the package and
    the version of a reading of the name *)
Definition record_of_path (sha : string -> string) (w : world) (tag : string)
    (path : string) (record : WheelRecord) : Prop :=
  filename record = path_name path
  /\ release_tag record = tag
  /\ (exists content,
        fs w (path_str path) = File content
        /\ size_bytes record = Z.of_nat (String.length content)
        /\ sha256 record = sha content)
  /\ (exists name,
        wheel_name_shape (path_name path) name (version record)
        /\ package record = canonicalize_package_name name)
  /\ package record <> ""
  /\ canonicalize_package_name (package record) = package record.

(** the url of a wheel of [repo] under a release tag, line 49 of
    [generate_index.py] *)
Definition wheel_url (repo release_tag filename : string) : string :=
  if GenerateIndex.nonempty repo
  then GenerateIndex.REPO_URL_PREFIX ++ "/" ++ repo ++ "/releases/download/"
         ++ release_tag ++ "/" ++ filename
  else "".

(** an entry that the generator keeps: its text fields are not empty, its
    package is canonical, and its url is the one of [repo] *)
Definition complete_entry (repo : string) (entry : GenerateIndex.WheelEntry) : Prop :=
  GenerateIndex.filename entry <> ""
  /\ GenerateIndex.package entry <> ""
  /\ GenerateIndex.version entry <> ""
  /\ GenerateIndex.sha256 entry <> ""
  /\ canonicalize_package_name (GenerateIndex.package entry)
     = GenerateIndex.package entry
  /\ exists release_tag,
       release_tag <> ""
       /\ GenerateIndex.url entry
          = wheel_url repo release_tag (GenerateIndex.filename entry).

(** a text that [strip] leaves as it is, and that is not empty *)
Definition is_clean (s : string) : Prop := strip s = s /\ s <> "".



(** a character of the text of a manifest: printable ASCII, or a line feed *)
Definition is_plain_ascii (c : ascii) : bool :=
  in_range 32 126 c || Ascii.eqb c newline.

(** a character of a canonical name: no [_], no [.], no capital letter *)
Definition is_canonical_char (c : ascii) : bool :=
  negb (Ascii.eqb c "_") && negb (Ascii.eqb c ".") && negb (in_range 65 90 c).

(** no two dashes in a row; [after_dash] tells that a dash was just read *)
Fixpoint single_dashes (after_dash : bool) (s : string) : bool :=
  match s with
  | EmptyString => true
  | String c t =>
      if Ascii.eqb c "-" then negb after_dash && single_dashes true t
      else single_dashes false t
  end.

(** ** Sample data *)

Definition unordered_record : json :=
  JObj [ ("filename", JStr "demo_pkg-1.2.3-py3-none-any.whl");
         ("package", JStr "demo-pkg");
         ("version", JStr "1.2.3");
         ("size_bytes", JInt 1536);
         ("sha256", JStr "ab12");
         ("release_tag", JStr "v1") ].

Definition unordered_manifest : json :=
  JObj [("wheels", JArr [unordered_record]); ("repo", JStr "owner/name")].

Definition empty_world : world :=
  {| fs := fun _ => Missing; in_dist := fun _ => false; manifest_file := None;
     index_html := None;
     git_origin := None; gh_succeeds := fun _ => true; releases := [] |}.

Definition zeta_wheel : GenerateIndex.WheelEntry :=
  {| GenerateIndex.filename := "zeta-1.0-py3-none-any.whl"; GenerateIndex.package := "zeta"; GenerateIndex.version := "1.0";
     GenerateIndex.size_bytes := 1536; GenerateIndex.sha256 := "ab12";
     GenerateIndex.url := "https://github.com/owner/name/releases/download/v1/zeta-1.0-py3-none-any.whl" |}.

Definition alpha_wheel : GenerateIndex.WheelEntry :=
  {| GenerateIndex.filename := "alpha-2.0-py3-none-any.whl"; GenerateIndex.package := "alpha"; GenerateIndex.version := "2.0";
     GenerateIndex.size_bytes := 0; GenerateIndex.sha256 := "cd34";
     GenerateIndex.url := "https://github.com/owner/name/releases/download/v1/alpha-2.0-py3-none-any.whl" |}.

Definition world_with_manifest (text : string) : world :=
  {| fs := fun _ => Missing; in_dist := fun _ => false;
     manifest_file := Some text; index_html := None;
     git_origin := None; gh_succeeds := fun _ => true; releases := [] |}.

(** a manifest with a wheel entry that has a file name only, and one whose
    fields are numbers where strings are expected and a string where the
    size is expected *)
Definition malformed_value : json :=
  JObj [ ("repo", JStr "owner/name");
         ("wheels",
          JArr [ JObj [("filename", JStr "a.whl")];
                 JObj [ ("filename", JInt 1); ("package", JInt 2);
                        ("version", JInt 3); ("sha256", JInt 4);
                        ("release_tag", JInt 5); ("size_bytes", JStr "7") ] ]) ].

Definition malformed_text : string :=
  "{" ++ GenerateIndex.q ++ "repo" ++ GenerateIndex.q ++ ": "
      ++ GenerateIndex.q ++ "owner/name" ++ GenerateIndex.q ++ ", "
      ++ GenerateIndex.q ++ "wheels" ++ GenerateIndex.q ++ ": [{"
      ++ GenerateIndex.q ++ "filename" ++ GenerateIndex.q ++ ": "
      ++ GenerateIndex.q ++ "a.whl" ++ GenerateIndex.q ++ "}, {"
      ++ GenerateIndex.q ++ "filename" ++ GenerateIndex.q ++ ": 1, "
      ++ GenerateIndex.q ++ "package" ++ GenerateIndex.q ++ ": 2, "
      ++ GenerateIndex.q ++ "version" ++ GenerateIndex.q ++ ": 3, "
      ++ GenerateIndex.q ++ "sha256" ++ GenerateIndex.q ++ ": 4, "
      ++ GenerateIndex.q ++ "release_tag" ++ GenerateIndex.q ++ ": 5, "
      ++ GenerateIndex.q ++ "size_bytes" ++ GenerateIndex.q ++ ": "
      ++ GenerateIndex.q ++ "7" ++ GenerateIndex.q ++ "}]}".

Definition demo_name : string := "demo_pkg-1.2.3-py3-none-any.whl".

Definition demo_sha256 (content : string) : string :=
  "5f3c0e1d2a4b69788796a5b4c3d2e1f00112233445566778899aabbccddeeff0".

Definition demo_record : json :=
  JObj [ ("filename", JStr demo_name);
         ("package", JStr "demo-pkg");
         ("release_tag", JStr "v1");
         ("sha256", JStr (demo_sha256 ""));
         ("size_bytes", JInt 11);
         ("version", JStr "1.2.3") ].

Definition demo_manifest : json :=
  JObj [("repo", JStr "owner/name"); ("wheels", JArr [demo_record])].

Definition demo_args (paths : list string) : arguments :=
  {| wheels := paths; tag := "v1"; title := None; repo := None;
     notes := "Automated wheel release." |}.

(** a checkout with one wheel built in its [dist/], a GitHub remote and,
    possibly, a manifest; the scripts are run in the checkout *)
Definition demo_world (manifest : option string) (origin : option string) : world :=
  {| fs := fun path => if String.eqb path "dist/demo_pkg-1.2.3-py3-none-any.whl"
                       then File "wheel bytes" else Missing;
     in_dist := String.prefix "dist/";
     manifest_file := manifest; index_html := None; git_origin := origin;
     gh_succeeds := fun _ => true; releases := [] |}.

Definition github_origin : option string := Some "git@github.com:owner/name.git".

Definition demo_manifest_text : string :=
  json_dumps demo_manifest ++ String newline "".

(** the wheel built on two machines, under one file name *)
Definition two_builds_world : world :=
  {| fs := fun path =>
             if String.eqb path "linux/demo_pkg-1.2.3-py3-none-any.whl"
                || String.eqb path "macos/demo_pkg-1.2.3-py3-none-any.whl"
             then File "wheel bytes" else Missing;
     in_dist := String.prefix "dist/";
     manifest_file := None; index_html := None; git_origin := github_origin;
     gh_succeeds := fun _ => true; releases := [] |}.

Definition two_builds_args : arguments :=
  demo_args [ "linux/demo_pkg-1.2.3-py3-none-any.whl";
              "macos/demo_pkg-1.2.3-py3-none-any.whl" ].

Definition written_manifest (w : world) : json :=
  match manifest_file w with
  | Some text =>
      match json_loads text with
      | Parsed manifest => manifest
      | _ => JNull
      end
  | None => JNull
  end.

Definition repo_only_manifest_text : string :=
  json_dumps (JObj [("repo", JStr "owner/name"); ("wheels", JArr [])])
    ++ String newline "".

(** the remote of the checkout over HTTPS, as [git] prints it *)
Definition https_origin : option string :=
  Some ("https://github.com/owner/name" ++ String newline "").

Definition demo_path : string := "dist/demo_pkg-1.2.3-py3-none-any.whl".

Definition absent_path : string := "dist/absent-1.0-py3-none-any.whl".

(** the command line with a repo that is not the one of the remote *)
Definition other_repo_args : arguments :=
  {| wheels := [demo_path]; tag := "v1"; title := None; repo := Some "other/name";
     notes := "Automated wheel release." |}.

Definition demo_wheel_record : WheelRecord :=
  {| filename := demo_name; package := "demo-pkg"; version := "1.2.3";
     size_bytes := 11; sha256 := demo_sha256 "wheel bytes"; release_tag := "v1" |}.

Definition demo_entry : GenerateIndex.WheelEntry :=
  {| GenerateIndex.filename := demo_name; GenerateIndex.package := "demo-pkg";
     GenerateIndex.version := "1.2.3"; GenerateIndex.size_bytes := 11;
     GenerateIndex.sha256 := demo_sha256 "wheel bytes";
     GenerateIndex.url :=
       "https://github.com/owner/name/releases/download/v1/demo_pkg-1.2.3-py3-none-any.whl" |}.

(** an object with one key twice *)
Definition repeated_key_text : string :=
  "{" ++ GenerateIndex.q ++ "a" ++ GenerateIndex.q ++ ": 1, "
      ++ GenerateIndex.q ++ "a" ++ GenerateIndex.q ++ ": 2}".

(** a second wheel of the checkout, and the wheel of [two_builds_world]
    that was built on Linux *)
Definition alpha_path : string := "dist/alpha-2.0-py3-none-any.whl".

Definition linux_path : string := "linux/demo_pkg-1.2.3-py3-none-any.whl".

(** the entry of a wheel of an earlier release *)
Definition zeta_record : json :=
  JObj [ ("filename", JStr "zeta-1.0-py3-none-any.whl");
         ("package", JStr "zeta");
         ("release_tag", JStr "v0");
         ("sha256", JStr "ab12");
         ("size_bytes", JInt 1536);
         ("version", JStr "1.0") ].

(** a manifest with a wheel of an earlier release and a key of its own *)
Definition stocked_manifest : json :=
  JObj [ ("note", JStr "kept"); ("repo", JStr "owner/name");
         ("wheels", JArr [zeta_record]) ].

(** the demo wheel, as an earlier release recorded it *)
Definition earlier_record : json :=
  JObj [ ("filename", JStr demo_name);
         ("package", JStr "demo-pkg");
         ("release_tag", JStr "v0");
         ("sha256", JStr (demo_sha256 ""));
         ("size_bytes", JInt 11);
         ("version", JStr "1.2.3") ].

Definition earlier_manifest : json :=
  JObj [("repo", JStr "owner/name"); ("wheels", JArr [earlier_record])].

(** a checkout with two wheels built in its [dist/], and a manifest *)
Definition stocked_world (manifest : json) : world :=
  {| fs := fun path => if String.eqb path demo_path then File "wheel bytes"
                       else if String.eqb path alpha_path then File "alpha"
                       else Missing;
     in_dist := String.prefix "dist/";
     manifest_file := Some (json_dumps manifest ++ String newline "");
     index_html := None; git_origin := github_origin;
     gh_succeeds := fun _ => true; releases := [] |}.

Definition alpha_wheel_record : WheelRecord :=
  {| filename := "alpha-2.0-py3-none-any.whl"; package := "alpha"; version := "2.0";
     size_bytes := 5; sha256 := demo_sha256 "alpha"; release_tag := "v1" |}.

(** the entry of the second wheel, as [write_manifest] writes it *)
Definition alpha_record : json :=
  JObj [ ("filename", JStr "alpha-2.0-py3-none-any.whl");
         ("package", JStr "alpha");
         ("release_tag", JStr "v1");
         ("sha256", JStr (demo_sha256 ""));
         ("size_bytes", JInt 5);
         ("version", JStr "2.0") ].

(** the command line that publishes the two wheels of the checkout *)
Definition both_args : arguments := demo_args [demo_path; alpha_path].

(** * Properties *)

(** ** The package name normalizer *)

Lemma skip_seps_length s : (String.length (skip_seps s) <= String.length s)%nat.
Proof.
  induction s as [|c t IH]; simpl; [lia|].
  destruct (is_sep c); simpl; lia.
Qed.

Lemma rep_greedy_seps t :
  Re.rep_greedy is_sep 0 t (fun s' => Some s') = Some (skip_seps t).
Proof.
  induction t as [|c t IH]; simpl; [reflexivity|].
  destruct (is_sep c); [now rewrite IH | reflexivity].
Qed.

Lemma run_sep_run n0 s caps :
  Re.run SEP_RUN_RE n0 s caps (fun s' _ => Some s') =
  match s with
  | String c t => if is_sep c then Some (skip_seps t) else None
  | EmptyString => None
  end.
Proof.
  destruct s as [|c t]; simpl; [reflexivity|].
  destruct (is_sep c); [|reflexivity].
  now rewrite rep_greedy_seps.
Qed.

Lemma collapse_in_run t : collapse true t = collapse false (skip_seps t).
Proof.
  induction t as [|c t IH]; simpl; [reflexivity|].
  destruct (is_sep c) eqn:E; [exact IH|].
  simpl. now rewrite E.
Qed.

Lemma sub_from_collapse fuel : forall n0 s,
  (String.length s < fuel)%nat ->
  Re.sub_from fuel SEP_RUN_RE "-" n0 s = collapse false s.
Proof.
  induction fuel as [|fuel IH]; intros n0 s Hlen; [lia|].
  cbn [Re.sub_from]. rewrite run_sep_run.
  destruct s as [|c t]; [reflexivity|].
  cbn [collapse]. simpl in Hlen.
  destruct (is_sep c).
  - pose proof (skip_seps_length t) as Hs.
    replace (String.length (skip_seps t) <? String.length (String c t))%nat with true
      by (symmetry; apply Nat.ltb_lt; simpl; lia).
    simpl. rewrite IH by lia. now rewrite collapse_in_run.
  - rewrite IH by lia. reflexivity.
Qed.

Lemma canonicalize_refines name :
  canonicalize_package_name name = canonicalize_spec name.
Proof.
  unfold canonicalize_package_name, canonicalize_spec, Re.re_sub.
  now rewrite sub_from_collapse by lia.
Qed.

(** C6: [canonicalize_package_name] is a total function that turns every
    maximal run of [-], [_] and [.] into one [-] and lowercases the result:
    it agrees with [canonicalize_spec] on every string, and it maps
    Foo_Bar.Baz to foo-bar-baz and foo--bar to foo-bar. *)
Theorem canonicalize_collapses_runs_and_lowercases :
  (forall name, canonicalize_package_name name = canonicalize_spec name) /\
  canonicalize_package_name "Foo_Bar.Baz" = "foo-bar-baz" /\
  canonicalize_package_name "foo--bar" = "foo-bar".
Proof.
  split; [exact canonicalize_refines|]. split; reflexivity.
Qed.

Lemma lower_char_idem c : lower_char (lower_char c) = lower_char c.
Proof. destruct c as [[] [] [] [] [] [] [] []]; reflexivity. Qed.

Lemma is_sep_lower_char c : is_sep (lower_char c) = is_sep c.
Proof. destruct c as [[] [] [] [] [] [] [] []]; reflexivity. Qed.

Lemma lower_idem s : lower (lower s) = lower s.
Proof.
  induction s as [|c t IH]; simpl; [reflexivity|].
  now rewrite lower_char_idem, IH.
Qed.

Lemma collapse_lower b s : collapse b (lower s) = lower (collapse b s).
Proof.
  revert b. induction s as [|c t IH]; intros b; simpl; [reflexivity|].
  rewrite is_sep_lower_char.
  destruct (is_sep c); [destruct b|]; simpl; now rewrite IH.
Qed.

Lemma collapse_idem s : forall b, collapse b (collapse b s) = collapse b s.
Proof.
  induction s as [|c t IH]; intros b; simpl; [reflexivity|].
  destruct (is_sep c) eqn:E.
  - destruct b; [apply IH|]. simpl. now rewrite IH.
  - simpl. rewrite E. now rewrite IH.
Qed.

(** C10: [canonicalize_package_name] is idempotent: a name that is already
    canonical, such as a package name stored in the manifest, is left as it
    is when the index generator canonicalizes it again. *)
Theorem canonicalize_idempotent s :
  canonicalize_package_name (canonicalize_package_name s)
  = canonicalize_package_name s.
Proof.
  rewrite !canonicalize_refines. unfold canonicalize_spec.
  now rewrite collapse_lower, collapse_idem, lower_idem.
Qed.

(** ** JSON: the decoder undoes the encoder *)

(** ** Strings *)

Lemma append_assoc (a b c : string) : (a ++ b) ++ c = a ++ (b ++ c).
Proof. induction a as [|x a IH]; simpl; [reflexivity|now rewrite IH]. Qed.

Lemma append_nil_r (a : string) : a ++ "" = a.
Proof. induction a as [|x a IH]; simpl; [reflexivity|now rewrite IH]. Qed.

Lemma length_append (a b : string) :
  String.length (a ++ b) = (String.length a + String.length b)%nat.
Proof. induction a as [|x a IH]; simpl; [reflexivity|now rewrite IH]. Qed.

(** ** The decoder undoes the encoder *)

Lemma scanstring_plain c u :
  Ascii.eqb c dquote = false -> Ascii.eqb c "\" = false ->
  (code c <? 32)%nat = false ->
  scanstring (String c u) = and_then (scanstring u) c.
Proof.
  intros H1 H2 H3. cbn [scanstring]. rewrite H1, H2, H3.
  unfold and_then. destruct (scanstring u) as [[? ?]| | |]; reflexivity.
Qed.

Lemma scanstring_escaped e c u :
  Ascii.eqb e "u" = false -> unescape e = Some c ->
  scanstring (String "\" (String e u)) = and_then (scanstring u) c.
Proof.
  intros H1 H2. cbn [scanstring].
  change (Ascii.eqb "\" dquote) with false. change (Ascii.eqb "\" "\") with true.
  cbv iota. rewrite H1, H2.
  unfold and_then. destruct (scanstring u) as [[? ?]| | |]; reflexivity.
Qed.

Lemma scanstring_u00 h3 h4 c3 d c u :
  hex_value h3 = Some c3 -> hex_value h4 = Some d ->
  ascii_of_nat (16 * c3 + d) = c ->
  scanstring (String "\" (String "u" (String "0" (String "0" (String h3 (String h4 u))))))
  = and_then (scanstring u) c.
Proof.
  intros H3 H4 Hc. cbn [scanstring].
  change (Ascii.eqb "\" dquote) with false. change (Ascii.eqb "\" "\") with true.
  change (Ascii.eqb "u" "u") with true. cbv iota.
  change (hex_value "0") with (Some 0%nat). rewrite H3, H4, Hc.
  unfold and_then. destruct (scanstring u) as [[? ?]| | |]; reflexivity.
Qed.

Lemma scanstring_escape_char c u :
  scanstring (escape_char c ++ u) = and_then (scanstring u) c.
Proof.
  destruct c as [[] [] [] [] [] [] [] []];
    match goal with
    | |- scanstring (escape_char ?x ++ _) = _ =>
        let v := eval vm_compute in (escape_char x) in
        change (escape_char x) with v
    end;
    cbn [append];
    first
      [ apply scanstring_plain; reflexivity
      | apply scanstring_escaped; reflexivity
      | eapply scanstring_u00; vm_compute; reflexivity ].
Qed.

Lemma scanstring_escape s : forall rest,
  scanstring (escape_chars s ++ String dquote rest) = Parsed (s, rest).
Proof.
  induction s as [|c t IH]; intros rest.
  - cbn. unfold dquote. reflexivity.
  - cbn [escape_chars]. rewrite append_assoc, scanstring_escape_char, IH.
    reflexivity.
Qed.

Lemma scan_digits_string d : forall rest,
  starts_with_digit rest = false ->
  scan_digits (NilEmpty.string_of_uint d ++ rest) = (d, rest).
Proof.
  induction d; intros rest H; cbn [NilEmpty.string_of_uint append scan_digits];
    try (rewrite (IHd rest H); reflexivity).
  destruct rest as [|c t]; [reflexivity|].
  cbn in H. cbn [scan_digits]. now rewrite H.
Qed.

Lemma pos_to_uint_head p :
  exists c t, NilEmpty.string_of_uint (Pos.to_uint p) = String c t
              /\ in_range 49 57 c = true.
Proof.
  pose proof (Unsigned.to_uint_nonzero p) as Hz.
  assert (Hn : unorm (Pos.to_uint p) = Pos.to_uint p).
  { rewrite <- Unsigned.to_of. rewrite Unsigned.of_to. reflexivity. }
  destruct (Pos.to_uint p) as [|d|d|d|d|d|d|d|d|d|d] eqn:E;
    try (cbn; eexists; eexists; split; [reflexivity|reflexivity]).
  - exfalso. revert Hn. apply unorm_nonnil.
  - exfalso. rewrite unorm_D0 in Hn.
    destruct (uint_eq_dec (nzhead d) Nil) as [En|En].
    + apply unorm_0 in En. rewrite En in Hn. apply Hz. now rewrite <- Hn.
    + rewrite (unorm_nzhead d En) in Hn. now apply nzhead_nonzero in Hn.
Qed.

Lemma strip_prefix_char c d t :
  strip_prefix (String c "") (String d t) = if Ascii.eqb c d then Some t else None.
Proof. reflexivity. Qed.

Lemma match_digits_string d c t rest :
  NilEmpty.string_of_uint d = String c t -> in_range 49 57 c = true ->
  starts_with_digit rest = false ->
  match_digits (NilEmpty.string_of_uint d ++ rest) = Some (d, rest).
Proof.
  intros Hs Hc Hr. pose proof (scan_digits_string d rest Hr) as Hd.
  rewrite Hs in *. cbn [append] in *. unfold match_digits. rewrite Hd, Hc.
  replace (Ascii.eqb c "0") with false; [reflexivity|].
  destruct c as [[] [] [] [] [] [] [] []]; try discriminate Hc; reflexivity.
Qed.

Lemma match_integer_pos d c t rest :
  NilEmpty.string_of_uint d = String c t -> in_range 49 57 c = true ->
  starts_with_digit rest = false ->
  match_integer (NilEmpty.string_of_uint d ++ rest) = Some (Pos d, rest).
Proof.
  intros Hs Hc Hr. unfold match_integer.
  rewrite (match_digits_string d c t rest Hs Hc Hr).
  rewrite Hs. cbn [append]. rewrite strip_prefix_char.
  replace (Ascii.eqb "-" c) with false; [reflexivity|].
  destruct c as [[] [] [] [] [] [] [] []]; try discriminate Hc; reflexivity.
Qed.

Lemma match_integer_neg d c t rest :
  NilEmpty.string_of_uint d = String c t -> in_range 49 57 c = true ->
  starts_with_digit rest = false ->
  match_integer (String "-" (NilEmpty.string_of_uint d ++ rest)) = Some (Neg d, rest).
Proof.
  intros Hs Hc Hr. unfold match_integer. rewrite strip_prefix_char.
  change (Ascii.eqb "-" "-") with true. cbv iota.
  now rewrite (match_digits_string d c t rest Hs Hc Hr).
Qed.

Lemma scan_atom_integer s d rest c t :
  s = String c t -> (is_digit c = true \/ c = "-"%char) ->
  match_integer s = Some (d, rest) -> has_frac_or_exp rest = false ->
  scan_atom s = Parsed (JInt (Z.of_int d), rest).
Proof.
  intros -> Hc Hm Hf. unfold scan_atom.
  assert (E : strip_prefix "null" (String c t) = None
              /\ strip_prefix "true" (String c t) = None
              /\ strip_prefix "false" (String c t) = None).
  { destruct Hc as [Hc| ->]; [|repeat split; reflexivity].
    destruct c as [[] [] [] [] [] [] [] []]; try discriminate Hc;
      repeat split; reflexivity. }
  destruct E as (-> & -> & ->). rewrite Hm, Hf. reflexivity.
Qed.

Lemma scan_atom_int n rest :
  number_end rest = true ->
  scan_atom (str_of_int n ++ rest) = Parsed (JInt n, rest).
Proof.
  unfold number_end. intros H. apply andb_true_iff in H as [Hd Hf].
  apply negb_true_iff in Hd, Hf.
  rewrite <- (DecimalZ.of_to n) at 2. unfold str_of_int.
  destruct n as [|p|p]; cbn [Z.to_int NilZero.string_of_int].
  - cbn. now rewrite Hf.
  - destruct (pos_to_uint_head p) as (c & t & Hs & Hc).
    assert (Hz : NilZero.string_of_uint (Pos.to_uint p)
                 = NilEmpty.string_of_uint (Pos.to_uint p)).
    { unfold NilZero.string_of_uint. destruct (Pos.to_uint p); try reflexivity.
      discriminate Hs. }
    rewrite Hz.
    eapply scan_atom_integer; [rewrite Hs; reflexivity| | |exact Hf].
    + left. destruct c as [[] [] [] [] [] [] [] []]; try discriminate Hc; reflexivity.
    + eapply match_integer_pos; eassumption.
  - destruct (pos_to_uint_head p) as (c & t & Hs & Hc).
    assert (Hz : NilZero.string_of_uint (Pos.to_uint p)
                 = NilEmpty.string_of_uint (Pos.to_uint p)).
    { unfold NilZero.string_of_uint. destruct (Pos.to_uint p); try reflexivity.
      discriminate Hs. }
    rewrite Hz. cbn [append].
    eapply scan_atom_integer; [reflexivity| | |exact Hf].
    + now right.
    + eapply match_integer_neg; eassumption.
Qed.

Lemma json_induction (P : json -> Prop) :
  P JNull -> (forall b, P (JBool b)) -> (forall n, P (JInt n)) ->
  (forall s, P (JStr s)) ->
  (forall items, Forall P items -> P (JArr items)) ->
  (forall members, Forall (fun kv => P (snd kv)) members -> P (JObj members)) ->
  forall v, P v.
Proof.
  intros Hnull Hbool Hint Hstr Harr Hobj.
  fix IH 1. intros [| b | n | s | items | members].
  - exact Hnull.
  - apply Hbool.
  - apply Hint.
  - apply Hstr.
  - apply Harr. induction items as [|x items IHl]; constructor; [apply IH | exact IHl].
  - apply Hobj. induction members as [|[k x] members IHl]; constructor;
      [apply IH | exact IHl].
Qed.

Lemma wf_json_arr items : wf_json (JArr items) <-> Forall wf_json items.
Proof.
  cbn [wf_json]. induction items as [|x items IH]; [now split|].
  rewrite IH. split.
  - intros [? ?]. now constructor.
  - intros H. inversion H; subst. now split.
Qed.

Lemma wf_json_obj members :
  wf_json (JObj members)
  <-> NoDup (keys members) /\ Forall (fun kv => wf_json (snd kv)) members.
Proof.
  cbn [wf_json].
  assert (E : (fix all (l : list (string * json)) : Prop :=
                 match l with
                 | [] => True
                 | (_, x) :: r => wf_json x /\ all r
                 end) members
              <-> Forall (fun kv => wf_json (snd kv)) members).
  { induction members as [|[k x] members IH]; [now split|].
    rewrite IH. split.
    - intros [? ?]. now constructor.
    - intros H. inversion H; subst. now split. }
  now rewrite E.
Qed.

(** *** Sorting *)

Lemma insert_by_perm {A} (lt : A -> A -> bool) x l :
  Permutation (insert_by lt x l) (x :: l).
Proof.
  induction l as [|y l IH]; cbn; [reflexivity|].
  destruct (lt y x); [|reflexivity].
  rewrite IH. apply perm_swap.
Qed.

Lemma sort_by_perm {A} (lt : A -> A -> bool) l : Permutation (sort_by lt l) l.
Proof.
  induction l as [|x l IH]; cbn; [reflexivity|].
  rewrite insert_by_perm. now constructor.
Qed.

Lemma sort_items_map {A B} (g : A -> B) (l : list (string * A)) :
  sort_items (map (fun kv => (fst kv, g (snd kv))) l)
  = map (fun kv => (fst kv, g (snd kv))) (sort_items l).
Proof.
  unfold sort_items. induction l as [|x l IH]; [reflexivity|].
  cbn [map sort_by fold_right]. fold (sort_by (fun a b : string * B => String.ltb (fst a) (fst b))
    (map (fun kv => (fst kv, g (snd kv))) l)).
  fold (sort_by (fun a b : string * A => String.ltb (fst a) (fst b)) l).
  rewrite IH. generalize (sort_by (fun a b : string * A => (fst a <? fst b)%string) l).
  intros m. induction m as [|y m IHm]; [reflexivity|].
  cbn. destruct (String.ltb (fst y) (fst x)); cbn; [now rewrite IHm|reflexivity].
Qed.

Lemma keys_sort_items_nodup {A} (l : list (string * A)) :
  NoDup (map fst l) -> NoDup (map fst (sort_items l)).
Proof.
  intros H. eapply Permutation_NoDup; [|exact H].
  apply Permutation_map. symmetry. apply sort_by_perm.
Qed.

Lemma dict_set_fresh k v d :
  ~ In k (keys d) -> dict_set k v d = (d ++ [(k, v)])%list.
Proof.
  induction d as [|[k' w] d IH]; intros H; [reflexivity|].
  cbn in *. destruct (String.eqb_spec k' k) as [->|Hne].
  - exfalso. apply H. now left.
  - rewrite IH; [reflexivity|]. intros Hin. apply H. now right.
Qed.

Lemma dict_of_pairs_nodup l : NoDup (keys l) -> dict_of_pairs l = l.
Proof.
  unfold dict_of_pairs.
  enough (G : forall acc, NoDup (keys (acc ++ l)%list) ->
            fold_left (fun d kv => dict_set (fst kv) (snd kv) d) l acc = (acc ++ l)%list).
  { intros H. apply (G []). exact H. }
  induction l as [|[k v] l IH]; intros acc H; cbn.
  - now rewrite List.app_nil_r.
  - rewrite dict_set_fresh.
    + rewrite IH; rewrite <- List.app_assoc; [reflexivity|exact H].
    + unfold keys in H. rewrite map_app in H. cbn in H.
      apply NoDup_remove_2 in H. intros Hin. apply H.
      apply in_or_app. now left.
Qed.

Lemma skip_ws_spaces n s : skip_ws (spaces n ++ s) = skip_ws s.
Proof. induction n as [|n IH]; [reflexivity|exact IH]. Qed.

Lemma skip_ws_newline_indent L s : skip_ws (newline_indent L ++ s) = skip_ws s.
Proof. unfold newline_indent. cbn [append skip_ws]. apply skip_ws_spaces. Qed.

Lemma starts_value_app s u : starts_value s -> starts_value (s ++ u).
Proof. intros (c & t & -> & H). exists c, (t ++ u). now split. Qed.

Lemma skip_ws_value s : starts_value s -> skip_ws s = s.
Proof. intros (c & t & -> & H & _). cbn [skip_ws]. now rewrite H. Qed.

Lemma strip_bracket_value s : starts_value s -> strip_prefix "]" s = None.
Proof. intros (c & t & -> & _ & H & _). now rewrite strip_prefix_char, H. Qed.

Lemma strip_brace_value s : starts_value s -> strip_prefix "}" s = None.
Proof. intros (c & t & -> & _ & _ & H). now rewrite strip_prefix_char, H. Qed.

Lemma str_of_int_starts_value n : starts_value (str_of_int n).
Proof.
  unfold str_of_int. destruct n as [|p|p]; cbn [Z.to_int NilZero.string_of_int].
  - exists "0"%char, "". repeat split.
  - destruct (pos_to_uint_head p) as (c & t & Hs & Hc).
    unfold NilZero.string_of_uint. destruct (Pos.to_uint p) eqn:E; try discriminate Hs;
      rewrite <- E in *; rewrite Hs; exists c, t;
      (split; [reflexivity|]);
      destruct c as [[] [] [] [] [] [] [] []]; try discriminate Hc; repeat split.
  - eexists; eexists; split; [reflexivity|]. repeat split.
Qed.

Lemma dumps_starts_value L v : starts_value (dumps_at L v).
Proof.
  destruct v as [| [|] | n | s | [|x items] | [|kv members]]; cbn [dumps_at];
    try (eexists; eexists; split; [reflexivity|repeat split]).
  apply str_of_int_starts_value.
Qed.

Lemma number_end_newline_indent L s : number_end (newline_indent L ++ s) = true.
Proof. reflexivity. Qed.

Lemma join_cons2 sep a b l : join sep (a :: b :: l) = a ++ sep ++ join sep (b :: l).
Proof. reflexivity. Qed.

Lemma skip_ws_item_separator L s :
  skip_ws (item_separator L ++ s) = String "," (newline_indent L ++ s).
Proof. reflexivity. Qed.

Lemma item_separator_length L : (1 <= String.length (item_separator L))%nat.
Proof. unfold item_separator. cbn. lia. Qed.

Lemma join_starts_value sep L x xs :
  starts_value (join sep (map (dumps_at L) (x :: xs))).
Proof.
  destruct xs as [|y ys]; cbn [map].
  - apply dumps_starts_value.
  - rewrite join_cons2. apply starts_value_app, dumps_starts_value.
Qed.

Lemma scan_items_dumps xs : forall L rest f,
  xs <> [] -> Forall decodes xs ->
  (2 * String.length (join (item_separator (S L)) (map (dumps_at (S L)) xs)) + 1 < f)%nat ->
  scan_items f (join (item_separator (S L)) (map (dumps_at (S L)) xs)
                  ++ newline_indent L ++ String "]" rest)
  = Parsed (map normalize xs, rest).
Proof.
  induction xs as [|x xs IH]; intros L rest f Hne Hall Hf; [congruence|].
  inversion Hall as [|? ? Hx Hxs]; subst.
  destruct f as [|f]; [lia|].
  destruct xs as [|y ys].
  - cbn [map join String.concat] in *. cbn [scan_items].
    rewrite Hx; [|apply number_end_newline_indent|lia].
    cbn [pbind]. rewrite skip_ws_newline_indent. reflexivity.
  - assert (Hlen := Hf). cbn [map] in Hlen. rewrite join_cons2 in Hlen.
    rewrite !length_append in Hlen.
    specialize (IH L rest f ltac:(discriminate) Hxs).
    cbn [map] in *. rewrite join_cons2.
    rewrite !append_assoc. cbn [scan_items].
    rewrite Hx; [|reflexivity|lia].
    cbn [pbind]. rewrite skip_ws_item_separator, !strip_prefix_char.
    change (Ascii.eqb "]" ",") with false. change (Ascii.eqb "," ",") with true.
    cbv iota. rewrite skip_ws_newline_indent.
    rewrite skip_ws_value by (apply starts_value_app, (join_starts_value _ _ y ys)).
    rewrite IH; [reflexivity|].
    pose proof (item_separator_length (S L)). cbn [map]. lia.
Qed.

Lemma member_text_starts_value L kv : starts_value (member_text L kv).
Proof.
  unfold member_text, encode_basestring_ascii. cbn [append].
  eexists; eexists; split; [reflexivity|]. repeat split.
Qed.

Lemma join_members_starts_value sep L kv ms :
  starts_value (join sep (map (member_text L) (kv :: ms))).
Proof.
  destruct ms as [|y ys]; cbn [map].
  - apply member_text_starts_value.
  - rewrite join_cons2. apply starts_value_app, member_text_starts_value.
Qed.

Lemma scan_member_text L k v f tail :
  decodes v -> number_end tail = true ->
  (2 * String.length (member_text L (k, v)) < f)%nat ->
  exists t,
    strip_prefix (String dquote "") (member_text L (k, v) ++ tail) = Some t
    /\ scanstring t = Parsed (k, ": " ++ dumps_at L v ++ tail)
    /\ scan_once f (dumps_at L v ++ tail) = Parsed (normalize v, tail).
Proof.
  intros Hv Ht Hf. unfold member_text, encode_basestring_ascii in *.
  cbn [fst snd] in *. cbn [append]. rewrite strip_prefix_char.
  change (Ascii.eqb dquote dquote) with true. cbv iota.
  eexists. split; [reflexivity|]. split.
  - rewrite !append_assoc. cbn [append]. apply scanstring_escape.
  - apply Hv; [exact Ht|]. cbn [String.length] in Hf.
    rewrite !length_append in Hf. lia.
Qed.

Lemma scan_members_dumps ms : forall L rest f,
  ms <> [] -> Forall (fun kv => decodes (snd kv)) ms ->
  (2 * String.length (join (item_separator (S L)) (map (member_text (S L)) ms)) + 1 < f)%nat ->
  scan_members f (join (item_separator (S L)) (map (member_text (S L)) ms)
                    ++ newline_indent L ++ String "}" rest)
  = Parsed (map (fun kv => (fst kv, normalize (snd kv))) ms, rest).
Proof.
  induction ms as [|[k v] ms IH]; intros L rest f Hne Hall Hf; [congruence|].
  inversion Hall as [|? ? Hx Hxs]; subst. cbn [snd] in Hx.
  destruct f as [|f]; [lia|].
  destruct ms as [|y ys].
  - cbn [map join String.concat] in *. cbn [scan_members].
    destruct (scan_member_text (S L) k v f (newline_indent L ++ String "}" rest) Hx)
      as (t & Hs & Hk & Hv); [reflexivity|lia|].
    rewrite Hs, Hk. cbn [pbind].
    change (skip_ws (": " ++ ?u)) with (": " ++ u). cbn [append].
    rewrite strip_prefix_char. change (Ascii.eqb ":" ":") with true. cbv iota.
    change (skip_ws (String " " ?u)) with (skip_ws u).
    rewrite skip_ws_value by apply starts_value_app, dumps_starts_value.
    rewrite Hv. cbn [pbind]. rewrite skip_ws_newline_indent. reflexivity.
  - assert (Hlen := Hf). cbn [map] in Hlen. rewrite join_cons2 in Hlen.
    rewrite !length_append in Hlen.
    pose proof (item_separator_length (S L)) as Hsep.
    specialize (IH L rest f ltac:(discriminate) Hxs).
    cbn [map] in *. rewrite join_cons2.
    rewrite !append_assoc. cbn [scan_members].
    match goal with
    | |- context [member_text (S L) (k, v) ++ ?tail] =>
        destruct (scan_member_text (S L) k v f tail Hx) as (t & Hs & Hk & Hv);
          [reflexivity|lia|]
    end.
    rewrite Hs, Hk. cbn [pbind].
    change (skip_ws (": " ++ ?u)) with (": " ++ u). cbn [append].
    rewrite strip_prefix_char. change (Ascii.eqb ":" ":") with true. cbv iota.
    change (skip_ws (String " " ?u)) with (skip_ws u).
    rewrite skip_ws_value by apply starts_value_app, dumps_starts_value.
    rewrite Hv. cbn [pbind].
    rewrite skip_ws_item_separator, !strip_prefix_char.
    change (Ascii.eqb "}" ",") with false. change (Ascii.eqb "," ",") with true.
    cbv iota. rewrite skip_ws_newline_indent.
    rewrite skip_ws_value by (apply starts_value_app, (join_members_starts_value _ _ y ys)).
    rewrite IH; [reflexivity|]. lia.
Qed.

Lemma dumps_obj L kv members :
  dumps_at L (JObj (kv :: members))
  = "{" ++ newline_indent (S L)
        ++ join (item_separator (S L))
             (map (member_text (S L)) (sort_items (kv :: members)))
        ++ newline_indent L ++ "}".
Proof.
  cbn [dumps_at]. rewrite (sort_items_map (dumps_at (S L))), map_map. reflexivity.
Qed.

Lemma sort_by_nonempty {A} (lt : A -> A -> bool) x l : sort_by lt (x :: l) <> [].
Proof.
  intros H. pose proof (sort_by_perm lt (x :: l)) as P. rewrite H in P.
  now apply Permutation_nil in P.
Qed.

Lemma scan_once_atom f c t :
  is_digit c = true \/ c = "-"%char ->
  scan_once (S f) (String c t) = scan_atom (String c t).
Proof.
  intros [H| ->]; [|reflexivity].
  destruct c as [[] [] [] [] [] [] [] []]; try discriminate H; reflexivity.
Qed.

Lemma str_of_int_head n :
  exists c t, str_of_int n = String c t /\ (is_digit c = true \/ c = "-"%char).
Proof.
  unfold str_of_int. destruct n as [|p|p]; cbn [Z.to_int NilZero.string_of_int].
  - exists "0"%char, "". split; [reflexivity|now left].
  - destruct (pos_to_uint_head p) as (c & t & Hs & Hc).
    unfold NilZero.string_of_uint. destruct (Pos.to_uint p) eqn:E; try discriminate Hs;
      rewrite <- E in *; rewrite Hs; exists c, t;
      (split; [reflexivity|left]);
      destruct c as [[] [] [] [] [] [] [] []]; try discriminate Hc; reflexivity.
  - eexists; eexists; split; [reflexivity|now right].
Qed.

Lemma decodes_all v : wf_json v -> decodes v.
Proof.
  induction v as [| b | n | s | items IH | members IH] using json_induction;
    intros Hwf L rest f Hrest Hf; (destruct f as [|f]; [lia|]).
  - reflexivity.
  - destruct b; reflexivity.
  - cbn [dumps_at normalize].
    destruct (str_of_int_head n) as (c & t & Hs & Hc).
    pose proof (scan_atom_int n rest Hrest) as Ha.
    rewrite Hs in *. cbn [append] in *. rewrite scan_once_atom by exact Hc.
    exact Ha.
  - cbn [dumps_at normalize]. unfold encode_basestring_ascii.
    cbn [append scan_once]. change (Ascii.eqb dquote dquote) with true. cbv iota.
    rewrite append_assoc. cbn [append]. rewrite scanstring_escape. reflexivity.
  - apply wf_json_arr in Hwf.
    assert (Hdec : Forall decodes items).
    { rewrite Forall_forall in *. intros x Hx. apply IH; [exact Hx|]. now apply Hwf. }
    destruct items as [|x items]; [reflexivity|].
    cbn [dumps_at] in *. cbn [normalize].
    rewrite !length_append in Hf. cbn [String.length] in Hf.
    rewrite !append_assoc. cbn [append scan_once].
    change (Ascii.eqb "[" dquote) with false. change (Ascii.eqb "[" "{") with false.
    change (Ascii.eqb "[" "[") with true. cbv iota.
    rewrite skip_ws_newline_indent.
    rewrite skip_ws_value by apply starts_value_app, join_starts_value.
    rewrite strip_bracket_value by apply starts_value_app, join_starts_value.
    rewrite scan_items_dumps; [reflexivity|discriminate|exact Hdec|lia].
  - apply wf_json_obj in Hwf as [Hnd Hwf].
    assert (Hdec : Forall (fun kv => decodes (snd kv)) (sort_items members)).
    { eapply Permutation_Forall; [symmetry; apply sort_by_perm|].
      rewrite Forall_forall in *. intros x Hx. apply IH; [exact Hx|]. now apply Hwf. }
    destruct members as [|kv members]; [reflexivity|].
    rewrite dumps_obj in *. cbn [normalize].
    rewrite (sort_items_map normalize).
    rewrite !length_append in Hf. cbn [String.length] in Hf.
    rewrite !append_assoc. cbn [append scan_once].
    change (Ascii.eqb "{" dquote) with false. change (Ascii.eqb "{" "{") with true.
    cbv iota. rewrite skip_ws_newline_indent.
    assert (Hsv : starts_value
                    (join (item_separator (S L))
                       (map (member_text (S L)) (sort_items (kv :: members))))).
    { destruct (sort_items (kv :: members)) as [|y ys] eqn:E.
      - now apply sort_by_nonempty in E.
      - apply join_members_starts_value. }
    rewrite skip_ws_value by apply starts_value_app, Hsv.
    rewrite strip_brace_value by apply starts_value_app, Hsv.
    rewrite scan_members_dumps; [|apply sort_by_nonempty|exact Hdec|lia].
    cbn [pbind]. rewrite dict_of_pairs_nodup; [reflexivity|].
    unfold keys. rewrite map_map. cbn [fst].
    now apply keys_sort_items_nodup.
Qed.

Lemma json_loads_dumps v :
  wf_json v -> json_loads (json_dumps v ++ String newline "") = Parsed (normalize v).
Proof.
  intros Hwf. unfold json_loads, json_dumps.
  rewrite skip_ws_value by apply starts_value_app, dumps_starts_value.
  rewrite (decodes_all v Hwf); [reflexivity|reflexivity|].
  rewrite length_append. cbn [String.length]. lia.
Qed.

(** *** The fuel of the scanner is enough *)

Lemma bounded_weaken {A} (p : parsed (A * string)) n m :
  bounded p n -> (n <= m)%nat -> bounded p m.
Proof.
  intros [H1 H2] Hle. split; [exact H1|].
  intros a r E. specialize (H2 a r E). lia.
Qed.

Lemma bounded_invalid {A} n : bounded (@Invalid (A * string)) n.
Proof. split; [discriminate|]. intros a r E. discriminate E. Qed.

Lemma bounded_beyond {A} n : bounded (@Beyond (A * string)) n.
Proof. split; [discriminate|]. intros a r E. discriminate E. Qed.

Lemma bounded_parsed {A} (a : A) r n :
  (String.length r < n)%nat -> bounded (Parsed (a, r)) n.
Proof. intros H. split; [discriminate|]. intros a' r' E. now inversion E; subst. Qed.

Lemma bounded_bind {A B} (p : parsed (A * string)) (k : A * string -> parsed (B * string)) n m :
  bounded p n ->
  (forall a r, (String.length r < n)%nat -> bounded (k (a, r)) m) ->
  bounded (pbind p k) m.
Proof.
  intros [H1 H2] Hk. destruct p as [[a r]| | |]; cbn [pbind].
  - apply Hk. exact (H2 a r eq_refl).
  - apply bounded_invalid.
  - apply bounded_beyond.
  - congruence.
Qed.

Lemma skip_ws_length s : (String.length (skip_ws s) <= String.length s)%nat.
Proof.
  induction s as [|c t IH]; cbn [skip_ws]; [lia|].
  destruct (is_ws c); cbn [String.length]; lia.
Qed.

Lemma strip_prefix_length p : forall s r,
  strip_prefix p s = Some r ->
  String.length s = (String.length p + String.length r)%nat.
Proof.
  induction p as [|c p IH]; intros s r H; cbn in H.
  - now inversion H.
  - destruct s as [|d s]; [discriminate|].
    destruct (Ascii.eqb c d); [|discriminate].
    cbn [String.length]. now rewrite (IH s r H).
Qed.

Lemma scanstring_bounded s : bounded (scanstring s) (String.length s).
Proof.
  remember (String.length s) as n eqn:Hn.
  assert (Hle : (String.length s <= n)%nat) by lia. clear Hn.
  enough (G : bounded (scanstring s) (String.length s)).
  { eapply bounded_weaken; [exact G|exact Hle]. }
  revert s Hle. induction n as [|n IH]; intros s Hle.
  { destruct s; [apply bounded_invalid|cbn in Hle; lia]. }
  destruct s as [|c t]; [apply bounded_invalid|].
  cbn [scanstring String.length] in *.
  destruct (Ascii.eqb c dquote); [apply bounded_parsed; lia|].
  destruct (Ascii.eqb c "\").
  - destruct t as [|e t']; [apply bounded_invalid|].
    destruct (Ascii.eqb e "u").
    + destruct t' as [|h1 [|h2 [|h3 [|h4 t'']]]]; try apply bounded_invalid.
      destruct (hex_value h1) as [a|], (hex_value h2) as [b|],
        (hex_value h3) as [c3|], (hex_value h4) as [d|];
        try apply bounded_invalid.
      destruct ((a =? 0)%nat && (b =? 0)%nat); [|apply bounded_beyond].
      eapply bounded_bind; [apply (IH t''); cbn [String.length] in *; lia|].
      intros str rest Hr. apply bounded_parsed. cbn [String.length] in *. lia.
    + destruct (unescape e); [|apply bounded_invalid].
      eapply bounded_bind; [apply (IH t'); cbn [String.length] in *; lia|].
      intros str rest Hr. apply bounded_parsed. cbn [String.length] in *. lia.
  - destruct (code c <? 32)%nat; [apply bounded_invalid|].
    eapply bounded_bind; [apply (IH t); lia|].
    intros str rest Hr. apply bounded_parsed. lia.
Qed.

Lemma scan_digits_length s :
  (String.length (snd (scan_digits s)) <= String.length s)%nat.
Proof.
  induction s as [|c t IH]; cbn [scan_digits]; [cbn; lia|].
  destruct (is_digit c); [|cbn; lia].
  destruct (scan_digits t) as [d rest]. cbn [snd] in IH.
  destruct (uint_of_char c (Some d)); cbn [snd String.length]; lia.
Qed.

Lemma match_digits_length s d r :
  match_digits s = Some (d, r) -> (String.length r < String.length s)%nat.
Proof.
  unfold match_digits. destruct s as [|c t]; [discriminate|].
  destruct (Ascii.eqb c "0").
  - intros E. inversion E; subst. cbn. lia.
  - destruct (in_range 49 57 c) eqn:Hc; [|discriminate].
    intros E. pose proof (scan_digits_length t) as Ht.
    destruct c as [[] [] [] [] [] [] [] []]; try discriminate Hc;
      cbn in E; destruct (scan_digits t) as [d0 rest];
      cbn [snd String.length] in *; inversion E; subst; lia.
Qed.

Lemma match_integer_length s d r :
  match_integer s = Some (d, r) -> (String.length r < String.length s)%nat.
Proof.
  unfold match_integer. destruct (strip_prefix "-" s) as [t|] eqn:E.
  - apply strip_prefix_length in E. cbn [String.length] in E.
    destruct (match_digits t) as [[d0 r0]|] eqn:Em; [|discriminate].
    apply match_digits_length in Em. cbn. intros H. inversion H; subst. lia.
  - destruct (match_digits s) as [[d0 r0]|] eqn:Em; [|discriminate].
    apply match_digits_length in Em. cbn. intros H. inversion H; subst. lia.
Qed.

Lemma scan_atom_bounded s : bounded (scan_atom s) (String.length s).
Proof.
  unfold scan_atom.
  destruct (strip_prefix "null" s) as [r|] eqn:E1.
  { apply strip_prefix_length in E1. apply bounded_parsed. cbn in E1. lia. }
  destruct (strip_prefix "true" s) as [r|] eqn:E2.
  { apply strip_prefix_length in E2. apply bounded_parsed. cbn in E2. lia. }
  destruct (strip_prefix "false" s) as [r|] eqn:E3.
  { apply strip_prefix_length in E3. apply bounded_parsed. cbn in E3. lia. }
  destruct (match_integer s) as [[d r]|] eqn:E4.
  { apply match_integer_length in E4.
    destruct (has_frac_or_exp r); [apply bounded_beyond|now apply bounded_parsed]. }
  destruct (strip_prefix "NaN" s), (strip_prefix "Infinity" s),
    (strip_prefix "-Infinity" s); try apply bounded_beyond.
  apply bounded_invalid.
Qed.

Ltac len_facts :=
  repeat match goal with
  | H : strip_prefix _ _ = Some _ |- _ =>
      apply strip_prefix_length in H; cbn [String.length] in H
  end;
  repeat match goal with
  | |- context [skip_ws ?s] =>
      lazymatch goal with
      | _ : (String.length (skip_ws s) <= String.length s)%nat |- _ => fail
      | _ => pose proof (skip_ws_length s)
      end
  | _ : context [skip_ws ?s] |- _ =>
      lazymatch goal with
      | _ : (String.length (skip_ws s) <= String.length s)%nat |- _ => fail
      | _ => pose proof (skip_ws_length s)
      end
  end;
  cbn [String.length] in *.

Lemma scan_fuel f :
  (forall s, (2 * String.length s < f)%nat ->
             bounded (scan_once f s) (String.length s))
  /\ (forall s, (2 * String.length s + 1 < f)%nat ->
                bounded (scan_items f s) (String.length s))
  /\ (forall s, (2 * String.length s + 1 < f)%nat ->
                bounded (scan_members f s) (String.length s)).
Proof.
  induction f as [|f (IHonce & IHitems & IHmembers)];
    [split; [|split]; intros; lia|].
  split; [|split]; intros s Hf.
  - cbn [scan_once]. destruct s as [|c t]; [apply bounded_invalid|].
    destruct (Ascii.eqb c dquote).
    { eapply bounded_bind; [apply scanstring_bounded|].
      intros str rest Hr. apply bounded_parsed. cbn [String.length]. lia. }
    destruct (Ascii.eqb c "{").
    { destruct (strip_prefix "}" (skip_ws t)) as [rest|] eqn:E.
      - apply bounded_parsed. len_facts. lia.
      - eapply bounded_bind; [apply IHmembers; len_facts; lia|].
        intros pairs rest Hr. apply bounded_parsed. len_facts. lia. }
    destruct (Ascii.eqb c "[").
    { destruct (strip_prefix "]" (skip_ws t)) as [rest|] eqn:E.
      - apply bounded_parsed. len_facts. lia.
      - eapply bounded_bind; [apply IHitems; len_facts; lia|].
        intros items rest Hr. apply bounded_parsed. len_facts. lia. }
    apply scan_atom_bounded.
  - cbn [scan_items].
    eapply bounded_bind; [apply IHonce; lia|].
    intros v s1 Hs1.
    destruct (strip_prefix "]" (skip_ws s1)) as [rest|] eqn:E1.
    { apply bounded_parsed. len_facts. lia. }
    destruct (strip_prefix "," (skip_ws s1)) as [s2|] eqn:E2;
      [|apply bounded_invalid].
    eapply bounded_bind; [apply IHitems; len_facts; lia|].
    intros vs rest Hr. apply bounded_parsed. len_facts. lia.
  - cbn [scan_members].
    destruct (strip_prefix (String dquote "") s) as [t|] eqn:E0;
      [|apply bounded_invalid].
    eapply bounded_bind; [apply scanstring_bounded|].
    intros key s1 Hs1.
    destruct (strip_prefix ":" (skip_ws s1)) as [s2|] eqn:E1;
      [|apply bounded_invalid].
    eapply bounded_bind; [apply IHonce; len_facts; lia|].
    intros v s3 Hs3.
    destruct (strip_prefix "}" (skip_ws s3)) as [rest|] eqn:E2.
    { apply bounded_parsed. len_facts. lia. }
    destruct (strip_prefix "," (skip_ws s3)) as [s4|] eqn:E3;
      [|apply bounded_invalid].
    eapply bounded_bind; [apply IHmembers; len_facts; lia|].
    intros kvs rest Hr. apply bounded_parsed. len_facts. lia.
Qed.

Lemma json_loads_fuel text : json_loads text <> NoFuel.
Proof.
  unfold json_loads.
  destruct (scan_fuel (S (2 * String.length text))) as (H & _ & _).
  specialize (H (skip_ws text)). pose proof (skip_ws_length text) as Hl.
  destruct H as [H _]; [lia|].
  destruct (scan_once _ _) as [[v rest]| | |]; cbn [pbind]; try congruence.
  destruct (skip_ws rest); discriminate.
Qed.

(** *** Sorted lists *)

Section SortBy.

Context {A : Type} (lt : A -> A -> bool).
Hypothesis lt_asym : forall a b, lt a b = true -> lt b a = false.

Lemma insert_by_sorted x l :
  Sorted (not_after lt) l -> Sorted (not_after lt) (insert_by lt x l).
Proof.
  induction l as [|y r IH]; intros Hs; cbn [insert_by].
  - repeat constructor.
  - destruct (lt y x) eqn:E.
    + inversion Hs as [|? ? Hr Hhd]; subst. constructor; [now apply IH|].
      destruct r as [|z r']; cbn [insert_by].
      * constructor. now apply lt_asym.
      * destruct (lt z x); constructor.
        -- now inversion Hhd.
        -- now apply lt_asym.
    + constructor; [exact Hs|]. constructor. exact E.
Qed.

Lemma sort_by_sorted l : Sorted (not_after lt) (sort_by lt l).
Proof.
  induction l as [|x l IH]; cbn; [constructor|]. now apply insert_by_sorted.
Qed.

Lemma sort_by_of_sorted l : Sorted (not_after lt) l -> sort_by lt l = l.
Proof.
  induction l as [|x l IH]; intros Hs; [reflexivity|].
  inversion Hs as [|? ? Hl Hhd]; subst. cbn [sort_by fold_right].
  fold (sort_by lt l). rewrite (IH Hl).
  destruct l as [|y r]; [reflexivity|]. cbn [insert_by].
  inversion Hhd as [|? ? Hxy]; subst. unfold not_after in Hxy. now rewrite Hxy.
Qed.

Lemma sort_by_idem l : sort_by lt (sort_by lt l) = sort_by lt l.
Proof. apply sort_by_of_sorted, sort_by_sorted. Qed.

End SortBy.

Lemma ltb_asym a b : String.ltb a b = true -> String.ltb b a = false.
Proof.
  unfold String.ltb. rewrite (String.compare_antisym a b).
  destruct (String.compare b a); cbn; congruence.
Qed.

Lemma sort_items_idem {A} (l : list (string * A)) :
  sort_items (sort_items l) = sort_items l.
Proof. apply sort_by_idem. intros a b. apply ltb_asym. Qed.

(** *** The logical content *)

Lemma dumps_obj_members L members :
  dumps_at L (JObj members)
  = match members with
    | [] => "{}"
    | _ => "{" ++ newline_indent (S L)
             ++ join (item_separator (S L))
                  (map (member_text (S L)) (sort_items members))
             ++ newline_indent L ++ "}"
    end.
Proof. destruct members; [reflexivity|apply dumps_obj]. Qed.

Lemma in_sort_items {A} (l : list (string * A)) kv :
  In kv (sort_items l) -> In kv l.
Proof. apply Permutation_in, sort_by_perm. Qed.

Lemma sort_items_nil {A} (l : list (string * A)) : sort_items l = [] -> l = [].
Proof.
  destruct l; [reflexivity|]. intros H. now apply sort_by_nonempty in H.
Qed.

Lemma dumps_normalize v : forall L, dumps_at L (normalize v) = dumps_at L v.
Proof.
  induction v as [| b | n | s | items IH | members IH] using json_induction;
    intros L; try reflexivity.
  - cbn [normalize]. destruct items as [|x items]; [reflexivity|].
    assert (E : map (dumps_at (S L)) (map normalize (x :: items))
                = map (dumps_at (S L)) (x :: items)).
    { rewrite map_map. apply map_ext_in. intros y Hy.
      rewrite Forall_forall in IH. now apply IH. }
    cbn [map dumps_at] in *. now rewrite E.
  - cbn [normalize]. rewrite !dumps_obj_members.
    rewrite sort_items_idem, (sort_items_map normalize).
    destruct members as [|kv members]; [reflexivity|].
    destruct (map _ (sort_items (kv :: members))) eqn:E.
    { apply map_eq_nil in E. now apply sort_by_nonempty in E. }
    rewrite <- E. f_equal. f_equal. f_equal. f_equal.
    rewrite map_map. apply map_ext_in. intros y Hy.
    apply in_sort_items in Hy. rewrite Forall_forall in IH.
    unfold member_text. cbn [fst snd]. now rewrite (IH y Hy).
Qed.

Lemma normalize_idem v : normalize (normalize v) = normalize v.
Proof.
  induction v as [| b | n | s | items IH | members IH] using json_induction;
    try reflexivity.
  - cbn [normalize]. f_equal. rewrite map_map. apply map_ext_in.
    intros y Hy. rewrite Forall_forall in IH. now apply IH.
  - cbn [normalize]. f_equal.
    rewrite (sort_items_map normalize (sort_items _)), sort_items_idem.
    rewrite (sort_items_map normalize members), map_map. cbn [fst snd].
    apply map_ext_in. intros y Hy. apply in_sort_items in Hy.
    rewrite Forall_forall in IH. now rewrite (IH y Hy).
Qed.

Lemma same_content_dumps a b : same_content a b -> json_dumps a = json_dumps b.
Proof.
  unfold same_content, json_dumps. intros H.
  now rewrite <- (dumps_normalize a), <- (dumps_normalize b), H.
Qed.

Lemma dict_get_some_in k v d : dict_get k d = Some v -> In (k, v) d.
Proof.
  induction d as [|[k' w] d IH]; cbn; [discriminate|].
  destruct (String.eqb_spec k' k) as [->|Hne].
  - intros E. inversion E; subst. now left.
  - intros E. right. now apply IH.
Qed.

Lemma dict_get_in k v d : NoDup (keys d) -> In (k, v) d -> dict_get k d = Some v.
Proof.
  induction d as [|[k' w] d IH]; cbn; [intros _ []|].
  intros Hnd [E|Hin].
  - inversion E; subst. now rewrite String.eqb_refl.
  - inversion Hnd as [|? ? Hnotin Hnd']; subst.
    destruct (String.eqb_spec k' k) as [->|Hne].
    + exfalso. apply Hnotin. change k with (fst (k, v)). now apply in_map.
    + now apply IH.
Qed.

Lemma dict_get_perm k d d' :
  NoDup (keys d) -> Permutation d d' -> dict_get k d = dict_get k d'.
Proof.
  intros Hnd Hp.
  assert (Hnd' : NoDup (keys d')).
  { eapply Permutation_NoDup; [|exact Hnd]. now apply Permutation_map. }
  destruct (dict_get k d) as [v|] eqn:E.
  - symmetry. apply dict_get_in; [exact Hnd'|].
    eapply Permutation_in; [exact Hp|]. now apply dict_get_some_in.
  - destruct (dict_get k d') as [v|] eqn:E'; [|reflexivity].
    apply dict_get_some_in in E'.
    apply (Permutation_in _ (Permutation_sym Hp)) in E'.
    apply (dict_get_in _ _ _ Hnd) in E'. congruence.
Qed.

Lemma dict_get_map (g : json -> json) k d :
  dict_get k (map (fun kv => (fst kv, g (snd kv))) d) = option_map g (dict_get k d).
Proof.
  induction d as [|[k' w] d IH]; [reflexivity|].
  cbn. destruct (String.eqb k' k); [reflexivity|exact IH].
Qed.

Lemma dict_get_normalize k members :
  NoDup (keys members) ->
  dict_get k (sort_items (map (fun kv => (fst kv, normalize (snd kv))) members))
  = option_map normalize (dict_get k members).
Proof.
  intros Hnd. rewrite (sort_items_map normalize), dict_get_map. f_equal.
  symmetry. apply dict_get_perm; [exact Hnd|]. symmetry. apply sort_by_perm.
Qed.

(** ** The manifest store *)

Lemma decode_manifest_dumps manifest :
  wf_json manifest ->
  decode_manifest (json_dumps manifest ++ String newline "") = Ok (normalize manifest).
Proof. intros H. unfold decode_manifest. now rewrite json_loads_dumps. Qed.

Lemma py_get_normalize manifest key :
  wf_json manifest ->
  py_get (normalize manifest) key JNull
  = (v <- py_get manifest key JNull ;; Ok (normalize v)).
Proof.
  intros Hwf. destruct manifest as [| b | n | s | items | members]; try reflexivity.
  apply wf_json_obj in Hwf as [Hnd _]. cbn [normalize py_get].
  rewrite (dict_get_normalize key members Hnd).
  destruct (dict_get key members); reflexivity.
Qed.

(** C9: a manifest that is saved and loaded again has the same logical
    content, whatever the order of the keys: the loaded value is the saved
    one with its keys in order, and every key leads to the same value, so
    the repo and the wheel records are the same.  Two manifests with the same
    logical content are saved as the same text. *)
Theorem manifest_round_trip (w : world) (manifest : json) :
  wf_json manifest ->
  let saved := snd (PublishRelease.write_manifest manifest w) in
  PublishRelease.load_manifest saved = Ok (normalize manifest)
  /\ same_content (normalize manifest) manifest
  /\ (forall key,
        py_get (normalize manifest) key JNull
        = (v <- py_get manifest key JNull ;; Ok (normalize v)))
  /\ (forall w2 other,
        same_content manifest other ->
        manifest_file (snd (PublishRelease.write_manifest other w2))
        = manifest_file saved).
Proof.
  intros Hwf saved. repeat split.
  - unfold saved, PublishRelease.load_manifest. cbn.
    now apply decode_manifest_dumps.
  - apply normalize_idem.
  - intros key. now apply py_get_normalize.
  - intros w2 other Hsame. cbn. now rewrite (same_content_dumps _ _ Hsame).
Qed.

Ltac distinct_keys :=
  repeat (constructor; [cbn; intuition discriminate|]); constructor.

Lemma unordered_manifest_wf : wf_json unordered_manifest.
Proof.
  cbn. repeat split; distinct_keys.
Qed.

Lemma manifest_round_trip_witness :
  PublishRelease.load_manifest
    (snd (PublishRelease.write_manifest unordered_manifest empty_world))
  = Ok (JObj [("repo", JStr "owner/name");
              ("wheels",
               JArr [JObj [ ("filename", JStr "demo_pkg-1.2.3-py3-none-any.whl");
                            ("package", JStr "demo-pkg");
                            ("release_tag", JStr "v1");
                            ("sha256", JStr "ab12");
                            ("size_bytes", JInt 1536);
                            ("version", JStr "1.2.3") ]])]).
Proof.
  exact (proj1 (manifest_round_trip empty_world unordered_manifest unordered_manifest_wf)).
Defined.

(** ** The index renderer *)

Import GenerateIndex.

(** *** The order of strings *)

Lemma str_lt_compare a b : str_lt a b <-> String.compare a b = Lt.
Proof.
  unfold str_lt, String.ltb. destruct (String.compare a b); split; congruence.
Qed.

Lemma str_lt_trans a b c : str_lt a b -> str_lt b c -> str_lt a c.
Proof.
  rewrite !str_lt_compare.
  change String.compare with OrderedTypeEx.String_as_OT.cmp.
  rewrite !OrderedTypeEx.String_as_OT.cmp_lt.
  apply OrderedTypeEx.String_as_OT.lt_trans.
Qed.

Lemma str_lt_irrefl a : ~ str_lt a a.
Proof.
  rewrite str_lt_compare. intros H.
  assert (E : String.compare a a = Eq)
    by now apply OrderedTypeEx.String_as_OT.cmp_eq.
  congruence.
Qed.


Lemma not_after_str_lt a b : not_after String.ltb a b -> a <> b -> str_lt a b.
Proof.
  unfold not_after. intros H Hne. apply str_lt_compare.
  unfold String.ltb in H. rewrite (String.compare_antisym b a) in H.
  destruct (String.compare a b) eqn:E; cbn in H; try congruence.
  apply String.compare_eq_iff in E. contradiction.
Qed.

(** a sorted list without repetition is strictly increasing *)
Lemma sorted_nodup_strict l :
  Sorted (not_after String.ltb) l -> NoDup l -> StronglySorted str_lt l.
Proof.
  intros Hs Hnd. apply Sorted_StronglySorted; [exact str_lt_trans|].
  induction Hs as [|a l Hl IH Hhd]; [constructor|].
  inversion Hnd as [|? ? Hnotin Hnd']; subst.
  constructor; [now apply IH|].
  destruct Hhd as [|b l Hab]; constructor.
  apply not_after_str_lt; [exact Hab|]. intros ->. apply Hnotin. now left.
Qed.


(** *** Grouping *)

Lemma group_append_keys k w g :
  map fst (group_append k w g)
  = if existsb (String.eqb k) (map fst g) then map fst g
    else (map fst g ++ [k])%list.
Proof.
  induction g as [|[k' ws] g IH]; [reflexivity|].
  cbn [group_append map fst existsb].
  rewrite (String.eqb_sym k k').
  destruct (String.eqb k' k); cbn [orb map fst]; [reflexivity|].
  rewrite IH. destruct (existsb _ _); reflexivity.
Qed.

Lemma group_get_append p k w g :
  group_get p (group_append k w g)
  = if String.eqb k p then (group_get p g ++ [w])%list else group_get p g.
Proof.
  induction g as [|[k' ws] g IH]; cbn [group_append group_get].
  - destruct (String.eqb k p); reflexivity.
  - destruct (String.eqb_spec k' k) as [->|Hne]; cbn [group_get].
    + destruct (String.eqb k p); reflexivity.
    + destruct (String.eqb_spec k' p) as [->|Hne'].
      * destruct (String.eqb_spec k p) as [->|]; [contradiction|reflexivity].
      * exact IH.
Qed.

Lemma existsb_eqb_in k l : existsb (String.eqb k) l = true <-> In k l.
Proof.
  rewrite existsb_exists. split.
  - intros (x & Hin & E). apply String.eqb_eq in E. now subst.
  - intros H. exists k. split; [exact H|apply String.eqb_refl].
Qed.

Lemma groups_of_append g seen w :
  groups_of g seen ->
  groups_of (group_append (package w) w g) (seen ++ [w])%list.
Proof.
  intros (Hnd & Hkeys & Hget). unfold groups_of.
  rewrite group_append_keys.
  destruct (existsb (String.eqb (package w)) (map fst g)) eqn:E.
  - apply existsb_eqb_in in E. repeat split.
    + exact Hnd.
    + intros H. rewrite map_app. apply in_or_app. left. now apply Hkeys.
    + rewrite map_app. intros H. apply in_app_or in H as [H|[<-|[]]];
        [now apply Hkeys|exact E].
    + intros p. rewrite group_get_append, Hget. unfold wheels_of.
      rewrite filter_app. cbn [filter]. rewrite (String.eqb_sym (package w) p).
      destruct (String.eqb p (package w)); [reflexivity|now rewrite List.app_nil_r].
  - assert (Hnotin : ~ In (package w) (map fst g)).
    { intros H. apply existsb_eqb_in in H. congruence. }
    repeat split.
    + apply NoDup_app; [exact Hnd|repeat constructor; intros []|].
      intros x Hx [<-|[]]. contradiction.
    + rewrite map_app. intros H. apply in_or_app.
      apply in_app_or in H as [H|H]; [left; now apply Hkeys|now right].
    + rewrite map_app. intros H. apply in_or_app.
      apply in_app_or in H as [H|H]; [left; now apply Hkeys|now right].
    + intros p. rewrite group_get_append, Hget. unfold wheels_of.
      rewrite filter_app. cbn [filter]. rewrite (String.eqb_sym (package w) p).
      destruct (String.eqb p (package w)); [reflexivity|now rewrite List.app_nil_r].
Qed.

Lemma group_wheels_groups wheels : groups_of (group_wheels wheels) wheels.
Proof.
  unfold group_wheels.
  enough (G : forall g seen, groups_of g seen ->
            groups_of (fold_left (fun g wheel => group_append (package wheel) wheel g)
                         wheels g) (seen ++ wheels)%list).
  { apply (G [] []). repeat split; try constructor; try tauto. }
  induction wheels as [|w wheels IH]; intros g seen H; cbn [fold_left].
  - now rewrite List.app_nil_r.
  - replace (seen ++ w :: wheels)%list with ((seen ++ [w]) ++ wheels)%list
      by now rewrite <- List.app_assoc.
    apply IH. now apply groups_of_append.
Qed.

(** *** The sections *)

Lemma sections_keys wheels :
  map fst (sections wheels) = sort_by String.ltb (map fst (group_wheels wheels)).
Proof. unfold sections. rewrite map_map. cbn [fst]. apply map_id. Qed.

Lemma sections_sorted wheels : StronglySorted str_lt (map fst (sections wheels)).
Proof.
  rewrite sections_keys. apply sorted_nodup_strict.
  - apply sort_by_sorted. intros a b. apply ltb_asym.
  - eapply Permutation_NoDup; [symmetry; apply sort_by_perm|].
    apply (group_wheels_groups wheels).
Qed.

Lemma sections_packages wheels p :
  In p (map fst (sections wheels)) <-> exists w, In w wheels /\ package w = p.
Proof.
  rewrite sections_keys.
  destruct (group_wheels_groups wheels) as (_ & Hkeys & _).
  assert (E : In p (map package wheels) <-> exists w, In w wheels /\ package w = p).
  { rewrite in_map_iff. split; intros (w & H1 & H2); exists w; tauto. }
  rewrite <- E, <- Hkeys. split.
  - apply Permutation_in, sort_by_perm.
  - apply Permutation_in. symmetry. apply sort_by_perm.
Qed.

Lemma sections_wheels wheels p ws :
  In (p, ws) (sections wheels) -> ws = wheels_of p wheels.
Proof.
  unfold sections. rewrite in_map_iff. intros (k & E & _). inversion E; subst.
  apply (group_wheels_groups wheels).
Qed.

(** *** Rendering *)

Lemma mapM_cons_ok {A B} (f : A -> result B) x l r :
  mapM f (x :: l) = Ok r ->
  exists y ys, f x = Ok y /\ mapM f l = Ok ys /\ r = y :: ys.
Proof.
  cbn [mapM]. destruct (f x) as [e|y]; [discriminate|]. cbn [bind].
  destruct (mapM f l) as [e|ys]; [discriminate|]. cbn [bind].
  intros E. inversion E; subst. now exists y, ys.
Qed.



Lemma round_half_even_le num den :
  (0 <= num)%Z -> (0 < den)%Z -> (round_half_even num den * den <= num + den)%Z.
Proof.
  intros Hn Hd. unfold round_half_even.
  pose proof (Z.div_mod num den ltac:(lia)) as E.
  pose proof (Z.mod_pos_bound num den Hd) as Hm.
  destruct (2 * (num mod den) <? den)%Z; [nia|].
  destruct (den <? 2 * (num mod den))%Z; [nia|].
  destruct (Z.even (num / den)); nia.
Qed.

Lemma float_of_nat_int_total n :
  (0 <= n < 2 ^ 1023)%Z -> exists v, float_of_nat_int n = Some v.
Proof.
  intros [H0 Hn]. unfold float_of_nat_int.
  destruct (Z.log2 n + 1 <=? 53)%Z eqn:E; [now eexists|].
  apply Z.leb_gt in E.
  assert (Hpos : (0 < n)%Z).
  { destruct (Z.eq_dec n 0) as [->|]; [cbn in E; lia|lia]. }
  assert (Hlog : (Z.log2 n < 1023)%Z) by (apply Z.log2_lt_pow2; lia).
  set (u := (2 ^ (Z.log2 n + 1 - 53))%Z).
  assert (Hu : (0 < u <= 2 ^ 970)%Z).
  { unfold u. split; [apply Z.pow_pos_nonneg; lia|].
    apply Z.pow_le_mono_r; lia. }
  pose proof (round_half_even_le n u H0 (proj1 Hu)) as Hr.
  assert (Hlt : (round_half_even n u * u < 2 ^ 1024)%Z).
  { assert (2 ^ 1023 + 2 ^ 970 < 2 ^ 1024)%Z by reflexivity. lia. }
  apply Z.ltb_lt in Hlt. rewrite Hlt. now eexists.
Qed.




Lemma render_lines_sections wheels :
  wheels <> [] ->
  render_lines wheels
  = (parts <- mapM (fun s => section_lines (fst s) (snd s)) (sections wheels) ;;
     Ok (head_lines ++ List.concat parts ++ foot_lines)%list).
Proof.
  intros H. unfold render_lines. destruct wheels as [|w wheels]; [congruence|].
  destruct (mapM _ _); reflexivity.
Qed.

#[local] Opaque head_lines foot_lines.


#[local] Transparent head_lines foot_lines.


(** *** The text of the page *)





Lemma join_cons sep y l : l <> [] -> join sep (y :: l) = y ++ sep ++ join sep l.
Proof. destruct l; [contradiction|reflexivity]. Qed.

Lemma join_in sep l1 x l2 : text_in x (join sep (l1 ++ x :: l2)).
Proof.
  induction l1 as [|y l1 IH].
  - change ([] ++ x :: l2)%list with (x :: l2). destruct l2 as [|z l2].
    + exists "", "". cbn. now rewrite append_nil_r.
    + exists "", (sep ++ join sep (z :: l2)). now rewrite join_cons.
  - change ((y :: l1) ++ x :: l2)%list with (y :: (l1 ++ x :: l2))%list.
    destruct IH as (a & c & E). exists (y ++ sep ++ a), c.
    rewrite join_cons by now destruct l1.
    rewrite E. now rewrite !append_assoc.
Qed.


Lemma in_text sep x lines : In x lines -> text_in x (join sep lines).
Proof.
  intros H. apply in_split in H as (l1 & l2 & ->). apply join_in.
Qed.



#[local] Opaque head_lines foot_lines.


#[local] Transparent head_lines foot_lines.


Lemma render_index_sections wheels :
  wheels <> [] ->
  render_index wheels
  = (parts <- mapM (fun s => section_lines (fst s) (snd s)) (sections wheels) ;;
     Ok (join (String newline "")
           (head_lines ++ List.concat parts ++ foot_lines)%list)).
Proof.
  intros H. unfold render_index. rewrite (render_lines_sections _ H).
  destruct (mapM _ _); reflexivity.
Qed.






(** ** Regular expressions: the matcher finds the matches of a pattern *)

Lemma lit_sound {A} l : forall s (k : string -> option A) x,
  Re.lit l s k = Some x -> exists s', s = l ++ s' /\ k s' = Some x.
Proof.
  induction l as [|c l IH]; intros s k x H; cbn [Re.lit] in H.
  - now exists s.
  - destruct s as [|d s]; [discriminate|].
    destruct (Ascii.eqb_spec c d) as [->|]; [|discriminate].
    destruct (IH _ _ _ H) as (s' & -> & Hk). now exists s'.
Qed.

Lemma lit_complete {A} l s' (k : string -> option A) :
  Re.lit l (l ++ s') k = k s'.
Proof.
  induction l as [|c l IH]; [reflexivity|].
  cbn [Re.lit append]. now rewrite Ascii.eqb_refl.
Qed.

Lemma rep_greedy_sound {A} p s : forall least (k : string -> option A) x,
  Re.rep_greedy p least s k = Some x ->
  exists run s', s = run ++ s' /\ all_chars p run = true
                 /\ (least <= String.length run)%nat /\ k s' = Some x.
Proof.
  induction s as [|c t IH]; intros least k x H; cbn [Re.rep_greedy] in H.
  - destruct least; [|discriminate]. exists "", "". repeat split; auto.
  - assert (Hstop : match least with O => k (String c t) | S _ => None end = Some x ->
                    exists run s', String c t = run ++ s' /\ all_chars p run = true
                                   /\ (least <= String.length run)%nat /\ k s' = Some x).
    { destruct least; [|discriminate]. intros Hk. exists "", (String c t).
      repeat split; auto. }
    destruct (p c) eqn:Hp; [|now apply Hstop].
    destruct (Re.rep_greedy p (pred least) t k) as [y|] eqn:E; [|now apply Hstop].
    inversion H; subst y.
    destruct (IH _ _ _ E) as (run & s' & -> & Hall & Hlen & Hk).
    exists (String c run), s'. cbn [append all_chars String.length].
    rewrite Hp, Hall. repeat split; auto. lia.
Qed.

Lemma rep_lazy_sound {A} p s : forall least (k : string -> option A) x,
  Re.rep_lazy p least s k = Some x ->
  exists run s', s = run ++ s' /\ all_chars p run = true
                 /\ (least <= String.length run)%nat /\ k s' = Some x.
Proof.
  induction s as [|c t IH]; intros least k x H; cbn [Re.rep_lazy] in H.
  - destruct least; [|discriminate].
    destruct (k "") eqn:E; [|discriminate]. inversion H; subst.
    exists "", "". repeat split; auto.
  - assert (Hmore : (if p c then Re.rep_lazy p (pred least) t k else None) = Some x ->
                    exists run s', String c t = run ++ s' /\ all_chars p run = true
                                   /\ (least <= String.length run)%nat /\ k s' = Some x).
    { destruct (p c) eqn:Hp; [|discriminate]. intros E.
      destruct (IH _ _ _ E) as (run & s' & -> & Hall & Hlen & Hk).
      exists (String c run), s'. cbn [append all_chars String.length].
      rewrite Hp, Hall. repeat split; auto. lia. }
    destruct least; [|now apply Hmore].
    destruct (k (String c t)) eqn:E; [|now apply Hmore].
    inversion H; subst. exists "", (String c t). repeat split; auto.
Qed.

Lemma rep_greedy_complete {A} p run : forall least s' (k : string -> option A),
  all_chars p run = true -> (least <= String.length run)%nat ->
  k s' <> None -> Re.rep_greedy p least (run ++ s') k <> None.
Proof.
  induction run as [|c run IH]; intros least s' k Hall Hlen Hk.
  - cbn in Hlen. assert (least = 0%nat) by lia. subst. cbn [append].
    destruct s' as [|d t]; cbn [Re.rep_greedy]; [exact Hk|].
    destruct (p d); [|exact Hk].
    destruct (Re.rep_greedy p (pred 0) t k); [discriminate|exact Hk].
  - cbn [all_chars] in Hall. apply andb_true_iff in Hall as [Hp Hall].
    cbn [append Re.rep_greedy]. rewrite Hp.
    specialize (IH (pred least) s' k Hall ltac:(cbn in Hlen; lia) Hk).
    destruct (Re.rep_greedy p (pred least) (run ++ s') k); [discriminate|congruence].
Qed.

Lemma rep_lazy_complete {A} p run : forall least s' (k : string -> option A),
  all_chars p run = true -> (least <= String.length run)%nat ->
  k s' <> None -> Re.rep_lazy p least (run ++ s') k <> None.
Proof.
  induction run as [|c run IH]; intros least s' k Hall Hlen Hk.
  - cbn in Hlen. assert (least = 0%nat) by lia. subst. cbn [append].
    destruct s' as [|d t]; cbn [Re.rep_lazy];
      (destruct (k _); [discriminate|congruence]).
  - cbn [all_chars] in Hall. apply andb_true_iff in Hall as [Hp Hall].
    cbn [append Re.rep_lazy]. rewrite Hp.
    specialize (IH (pred least) s' k Hall ltac:(cbn in Hlen; lia) Hk).
    destruct least; [|exact IH].
    destruct (k (String c (run ++ s'))); [discriminate|exact IH].
Qed.

Lemma run_sound {A} r : forall n0 s caps (k : string -> Re.captures -> option A) x,
  Re.run r n0 s caps k = Some x ->
  exists s' caps', matches r n0 s caps s' caps' /\ k s' caps' = Some x.
Proof.
  induction r as [| p | l | r1 IH1 r2 IH2 | r1 IH1 r2 IH2 | r1 IH1
                  | greedy least p | name r1 IH1 | |];
    intros n0 s caps k x H; cbn [Re.run] in H; cbn [matches].
  - exists s, caps. auto.
  - destruct s as [|c t]; [discriminate|]. destruct (p c) eqn:Hp; [|discriminate].
    exists t, caps. split; [exists c; auto|exact H].
  - apply lit_sound in H as (s' & -> & Hk). exists s', caps. auto.
  - apply IH1 in H as (m & cm & H1 & H).
    apply IH2 in H as (s' & caps' & H2 & Hk).
    exists s', caps'. split; [exists m, cm; auto|exact Hk].
  - destruct (Re.run r1 n0 s caps k) as [y|] eqn:E.
    + inversion H; subst y. apply IH1 in E as (s' & caps' & H1 & Hk).
      exists s', caps'. auto.
    + apply IH2 in H as (s' & caps' & H2 & Hk). exists s', caps'. auto.
  - destruct (Re.run r1 n0 s caps k) as [y|] eqn:E.
    + inversion H; subst y. apply IH1 in E as (s' & caps' & H1 & Hk).
      exists s', caps'. auto.
    + exists s, caps. auto.
  - destruct greedy.
    + apply rep_greedy_sound in H as (run & s' & -> & Hall & Hlen & Hk).
      exists s', caps. split; [exists run; auto|exact Hk].
    + apply rep_lazy_sound in H as (run & s' & -> & Hall & Hlen & Hk).
      exists s', caps. split; [exists run; auto|exact Hk].
  - apply IH1 in H as (s' & c1 & H1 & Hk).
    eexists s', _. split; [exists c1; split; [exact H1|reflexivity]|exact Hk].
  - destruct (String.length s =? n0)%nat eqn:E; [|discriminate].
    apply Nat.eqb_eq in E. exists s, caps. auto.
  - destruct s as [|c [|d t]]; try discriminate.
    + exists "", caps. auto.
    + destruct (Ascii.eqb_spec c newline) as [->|]; [|discriminate].
      exists (String newline ""), caps. auto.
Qed.

Lemma run_complete {A} r : forall n0 s s',
  (exists caps caps', matches r n0 s caps s' caps') ->
  forall caps (k : string -> Re.captures -> option A),
    (forall c, k s' c <> None) -> Re.run r n0 s caps k <> None.
Proof.
  induction r as [| p | l | r1 IH1 r2 IH2 | r1 IH1 r2 IH2 | r1 IH1
                  | greedy least p | name r1 IH1 | |];
    intros n0 s s' (c0 & c0' & H) caps k Hk; cbn [Re.run]; cbn [matches] in H.
  - destruct H as [-> _]. apply Hk.
  - destruct H as (c & -> & Hp & _). rewrite Hp. apply Hk.
  - destruct H as [-> _]. rewrite lit_complete. apply Hk.
  - destruct H as (m & cm & H1 & H2).
    apply (IH1 n0 s m); [eauto|]. intros c. apply (IH2 n0 m s'); eauto.
  - destruct (Re.run r1 n0 s caps k) eqn:E; [discriminate|].
    destruct H as [H|H].
    + exfalso. revert E. apply (IH1 n0 s s'); eauto.
    + apply (IH2 n0 s s'); eauto.
  - destruct (Re.run r1 n0 s caps k) eqn:E; [discriminate|].
    destruct H as [H|[-> _]].
    + exfalso. revert E. apply (IH1 n0 s s'); eauto.
    + apply Hk.
  - destruct H as (run & -> & Hall & Hlen & _). destruct greedy.
    + now apply rep_greedy_complete.
    + now apply rep_lazy_complete.
  - destruct H as (c1 & H1 & _). apply (IH1 n0 s s'); [eauto|].
    intros c. apply Hk.
  - destruct H as (-> & _ & Hn). apply Nat.eqb_eq in Hn. rewrite Hn. apply Hk.
  - destruct H as (-> & _ & [->| ->]); [apply Hk|].
    rewrite Ascii.eqb_refl. apply Hk.
Qed.

(** *** The pattern of wheel names *)

Lemma take_append run rest :
  take (String.length (run ++ rest) - String.length rest) (run ++ rest) = run.
Proof.
  rewrite length_append.
  replace (String.length run + String.length rest - String.length rest)%nat
    with (String.length run) by lia.
  induction run as [|c run IH]; cbn [String.length take append].
  - destruct rest; reflexivity.
  - now rewrite IH.
Qed.

Lemma nonempty_length s : (1 <= String.length s)%nat <-> s <> "".
Proof.
  destruct s; cbn; split; intros H; try lia; try congruence.
Qed.

Lemma wheel_name_match_shape s caps :
  Re.re_match WHEEL_NAME_RE s = Some caps ->
  exists name version,
    wheel_name_shape s name version
    /\ Re.group "name" caps = Some name
    /\ Re.group "version" caps = Some version.
Proof.
  unfold Re.re_match. intros H.
  apply run_sound in H as (s' & caps' & H & E). inversion E; subst caps'. clear E.
  unfold WHEEL_NAME_RE in H. cbn [seq_all matches] in H.
  destruct H as (m1 & c1 & (-> & -> & _) & H).
  destruct H as (m2 & c2 & (c & (name & -> & Hname & Hn1 & ->) & ->) & H).
  rewrite take_append in H.
  destruct H as (m3 & c3 & (-> & ->) & H).
  destruct H as (m4 & c4 & (c & (version & -> & Hver & Hv1 & ->) & ->) & H).
  rewrite take_append in H.
  destruct H as (m5 & c5 & Hbuild & H).
  destruct H as (m6 & c6 & (Hm5 & ->) & H).
  destruct H as (m7 & c7 & (c & (py & -> & Hpy & Hp1 & ->) & ->) & H).
  rewrite take_append in H.
  destruct H as (m8 & c8 & (-> & ->) & H).
  destruct H as (m9 & c9 & (c & (abi & -> & Habi & Ha1 & ->) & ->) & H).
  rewrite take_append in H.
  destruct H as (m10 & c10 & (-> & ->) & H).
  destruct H as (m11 & c11 & (c & (plat & -> & Hplat & Hl1 & ->) & ->) & H).
  rewrite take_append in H.
  destruct H as (m12 & c12 & (-> & ->) & (-> & -> & Htail)).
  apply nonempty_length in Hn1, Hv1, Hp1, Ha1, Hl1.
  exists name, version.
  destruct Hbuild as [(m & cm & (-> & ->) & (c & (mb & cb & (d & -> & Hd & ->)
                         & (b & -> & Hb & _ & ->)) & ->))|(Hskip & ->)];
    subst.
  - split; [|split; reflexivity].
    exists (String "-" (String d b)), py, abi, plat, m12.
    cbn [append]. rewrite ?append_assoc. cbn [append].
    repeat split; auto. right. now exists d, b.
  - split; [|split; reflexivity].
    exists "", py, abi, plat, m12. cbn [append].
    repeat split; auto.
Qed.

Ltac group_step text :=
  eexists _, _; split;
    [eexists; split; [exists text; repeat split; eauto|reflexivity]|].

Ltac lit_step := eexists _, _; split; [split; reflexivity|].

Lemma wheel_name_shape_match s name version :
  wheel_name_shape s name version -> Re.re_match WHEEL_NAME_RE s <> None.
Proof.
  intros (build & py & abi & plat & tail & -> & Hn & Hname & (Hv & Hver) & Hbuild
          & (Hp & Hpy) & (Ha & Habi) & (Hl & Hplat) & Htail).
  apply nonempty_length in Hn, Hv, Hp, Ha, Hl.
  unfold Re.re_match. eapply run_complete; [|discriminate].
  unfold WHEEL_NAME_RE. cbn [seq_all matches].
  destruct Hbuild as [->|(d & b & -> & Hd & Hb)]; eexists [], _.
  - eexists _, _. split; [repeat split|].
    group_step name. lit_step. group_step version.
    eexists _, _. split; [right; split; reflexivity|].
    cbn [append].
    lit_step. group_step py. lit_step. group_step abi. lit_step. group_step plat.
    lit_step. repeat split. exact Htail.
  - eexists _, _. split; [repeat split|].
    group_step name. lit_step. group_step version.
    eexists _, _. split.
    { left. cbn [append]. eexists _, _. split; [split; reflexivity|].
      eexists. split; [|reflexivity].
      eexists _, _. split; [exists d; repeat split; eauto|].
      exists b. repeat split; eauto. lia. }
    lit_step. group_step py. lit_step. group_step abi. lit_step. group_step plat.
    lit_step. repeat split. exact Htail.
Qed.

(** the groups of the sample wheel name *)
Lemma demo_name_groups :
  exists caps,
    Re.re_match WHEEL_NAME_RE "demo_pkg-1.2.3-py3-none-any.whl" = Some caps
    /\ Re.group "name" caps = Some "demo_pkg"
    /\ Re.group "version" caps = Some "1.2.3"
    /\ Re.group "build" caps = None.
Proof. eexists. repeat split. Qed.

(** ** The artifact inspector *)

Import PublishRelease.

Lemma collect_wheels_invalid sha w tag paths path :
  In path paths -> Re.re_match WHEEL_NAME_RE (path_name path) = None ->
  exists f, collect_wheels sha w paths tag = Err f.
Proof.
  unfold collect_wheels. induction paths as [|p paths IH]; intros Hin Hno; [contradiction|].
  cbn [mapM]. destruct (collect_wheel sha w tag p) as [f|record] eqn:E; [now exists f|].
  cbn [bind]. destruct Hin as [->|Hin].
  - unfold collect_wheel in E. rewrite Hno in E. discriminate.
  - destruct (IH Hin Hno) as (f & ->). now exists f.
Qed.

Lemma collect_wheels_invalid_name sha w tag paths path :
  In path paths -> Re.re_match WHEEL_NAME_RE (path_name path) = None ->
  Forall (fun p => exists content, fs w (path_str p) = File content) paths ->
  exists bad, In bad paths
              /\ Re.re_match WHEEL_NAME_RE (path_name bad) = None
              /\ collect_wheels sha w paths tag = Err (InvalidArtifactName (path_name bad)).
Proof.
  unfold collect_wheels. induction paths as [|p paths IH]; intros Hin Hno Hfiles;
    [contradiction|].
  inversion Hfiles as [|? ? (content & Hp) Hrest]; subst.
  cbn [mapM]. unfold collect_wheel at 1, st_size, sha256_file. rewrite Hp.
  destruct (Re.re_match WHEEL_NAME_RE (path_name p)) as [caps|] eqn:E.
  - cbn [bind]. destruct Hin as [->|Hin]; [congruence|].
    destruct (IH Hin Hno Hrest) as (bad & Hbad & Hnone & ->).
    exists bad. repeat split; [now right|exact Hnone].
  - exists p. repeat split; [now left|exact E].
Qed.

Lemma or_else_some s : or_else (Some s) "" = s.
Proof. destruct s; reflexivity. Qed.

Lemma collect_wheel_matching sha w tag path content caps :
  Re.re_match WHEEL_NAME_RE (path_name path) = Some caps ->
  fs w (path_str path) = File content ->
  exists name version,
    wheel_name_shape (path_name path) name version
    /\ collect_wheel sha w tag path
       = Ok {| filename := path_name path;
               package := canonicalize_package_name name; version := version;
               size_bytes := Z.of_nat (String.length content);
               sha256 := sha content; release_tag := tag |}.
Proof.
  intros Hm Hfile.
  destruct (wheel_name_match_shape _ _ Hm) as (name & version & Hshape & Hn & Hv).
  exists name, version. split; [exact Hshape|].
  unfold collect_wheel, st_size, sha256_file.
  now rewrite Hm, Hfile, Hn, Hv, !or_else_some.
Qed.

Lemma wheel_name_pattern s :
  (exists name version, wheel_name_shape s name version)
  <-> Re.re_match WHEEL_NAME_RE s <> None.
Proof.
  split.
  - intros (name & version & H). exact (wheel_name_shape_match s name version H).
  - destruct (Re.re_match WHEEL_NAME_RE s) as [caps|] eqn:E; [|congruence].
    intros _. destruct (wheel_name_match_shape s caps E) as (name & version & H & _).
    now exists name, version.
Qed.

(** C5: a wheel file name is parsed with the fixed pattern of wheel names,
    name-version[-build]-tag1-tag2-tag3.whl: the names that [WHEEL_NAME_RE]
    matches are the names of that shape, and the record of a matching name
    has the name of such a reading, canonicalized, as its package and the
    version as it stands.  The name demo_pkg-1.2.3-py3-none-any.whl gives the
    package demo-pkg and the version 1.2.3.  A batch with a file name that
    the pattern does not match gives no records, and when the files of the
    batch can be read its failure is [InvalidArtifactName] for such a
    name. *)
Theorem parse_filename_pattern :
  (forall s,
     (exists name version, wheel_name_shape s name version)
     <-> Re.re_match WHEEL_NAME_RE s <> None)
  /\ (forall sha w tag path content caps,
        Re.re_match WHEEL_NAME_RE (path_name path) = Some caps ->
        fs w (path_str path) = File content ->
        exists name version,
          wheel_name_shape (path_name path) name version
          /\ collect_wheel sha w tag path
             = Ok {| filename := path_name path;
                     package := canonicalize_package_name name; version := version;
                     size_bytes := Z.of_nat (String.length content);
                     sha256 := sha content; release_tag := tag |})
  /\ (forall sha w tag path content,
        path_name path = demo_name -> fs w (path_str path) = File content ->
        collect_wheel sha w tag path
        = Ok {| filename := demo_name; package := "demo-pkg"; version := "1.2.3";
                size_bytes := Z.of_nat (String.length content);
                sha256 := sha content; release_tag := tag |})
  /\ (forall sha w tag paths path,
        In path paths -> Re.re_match WHEEL_NAME_RE (path_name path) = None ->
        (exists f, collect_wheels sha w paths tag = Err f)
        /\ (Forall (fun p => exists content, fs w (path_str p) = File content) paths ->
            exists bad,
              In bad paths
              /\ Re.re_match WHEEL_NAME_RE (path_name bad) = None
              /\ collect_wheels sha w paths tag
                 = Err (InvalidArtifactName (path_name bad)))).
Proof.
  split; [exact wheel_name_pattern|].
  split; [exact collect_wheel_matching|].
  split.
  - intros sha w tag path content Hname Hfile.
    unfold collect_wheel, st_size, sha256_file. rewrite Hname, Hfile. reflexivity.
  - intros sha w tag paths path Hin Hno. split.
    + exact (collect_wheels_invalid sha w tag paths path Hin Hno).
    + exact (collect_wheels_invalid_name sha w tag paths path Hin Hno).
Qed.

Lemma parse_filename_pattern_witness :
  collect_wheel demo_sha256 (demo_world None github_origin) "v1"
    "dist/demo_pkg-1.2.3-py3-none-any.whl"
  = Ok {| filename := demo_name; package := "demo-pkg"; version := "1.2.3";
          size_bytes := 11; sha256 := demo_sha256 "wheel bytes"; release_tag := "v1" |}
  /\ (exists f,
        collect_wheels demo_sha256 (demo_world None github_origin)
          ["dist/demo_pkg-1.2.3-py3-none-any.whl"; "dist/notes.txt"] "v1" = Err f).
Proof.
  split.
  - exact (proj1 (proj2 (proj2 parse_filename_pattern)) demo_sha256
             (demo_world None github_origin) "v1"
             "dist/demo_pkg-1.2.3-py3-none-any.whl" "wheel bytes" eq_refl eq_refl).
  - exact (proj1 (proj2 (proj2 (proj2 parse_filename_pattern)) demo_sha256
             (demo_world None github_origin) "v1"
             ["dist/demo_pkg-1.2.3-py3-none-any.whl"; "dist/notes.txt"]
             "dist/notes.txt" (or_intror (or_introl eq_refl)) eq_refl)).
Defined.

(** ** Loading the manifest *)

Lemma strip_empty : strip "" = "".
Proof. reflexivity. Qed.

Lemma py_get_obj members key default :
  py_get (JObj members) key default
  = Ok match dict_get key members with
       | Some x => x
       | None => default
       end.
Proof. cbn [py_get]. destruct (dict_get key members); reflexivity. Qed.

Lemma bind_ok {A B} (a : A) (k : A -> result B) : bind (Ok a) k = k a.
Proof. reflexivity. Qed.

Lemma py_int_cases v :
  (exists n, py_int v = Ok n) \/ (exists e, py_int v = Err (Uncaught e)).
Proof.
  destruct v as [| b | n | s | l | m]; cbn [py_int];
    try (left; eexists; reflexivity); try (right; eexists; reflexivity).
  destruct (int_of_str s); [left|right]; eexists; reflexivity.
Qed.

Lemma load_item_missing_field repo members key :
  In key required_fields -> dict_get key members = None ->
  GenerateIndex.load_item repo (JObj members) = Ok None
  \/ exists e, GenerateIndex.load_item repo (JObj members) = Err (Uncaught e).
Proof.
  intros Hkey Hnone. unfold GenerateIndex.load_item.
  rewrite !py_get_obj, !bind_ok.
  match goal with
  | |- context [py_int ?v] => destruct (py_int_cases v) as [(n & ->)|(e & ->)]
  end; [|right; now exists e].
  left. rewrite !bind_ok.
  cbn in Hkey. destruct Hkey as [<-|[<-|[<-|[<-|[<-|[]]]]]]; rewrite Hnone;
    cbn [py_str]; rewrite strip_empty;
    change (canonicalize_package_name "") with "";
    change (GenerateIndex.nonempty "") with false;
    rewrite ?andb_false_r; reflexivity.
Qed.

(** C8, as stated, fails on a file whose JSON does not have the structure
    of a manifest: both loaders return, the publisher's with the value as it
    is, the generator's without the first entry and with the second one
    converted. *)
Lemma load_accepts_malformed_manifest :
  json_loads malformed_text = Parsed malformed_value
  /\ manifest_schema malformed_value = false
  /\ PublishRelease.load_manifest (world_with_manifest malformed_text)
     = Ok malformed_value
  /\ GenerateIndex.load_manifest (world_with_manifest malformed_text)
     = Ok ("owner/name",
           [ {| GenerateIndex.filename := "1"; GenerateIndex.package := "2";
                GenerateIndex.version := "3"; GenerateIndex.size_bytes := 7;
                GenerateIndex.sha256 := "4";
                GenerateIndex.url :=
                  "https://github.com/owner/name/releases/download/5/1" |} ]).
Proof. repeat split; vm_compute; reflexivity. Qed.

(** C8, amended: without a file both loaders return the empty manifest; a
    file that is not valid JSON makes both fail with [ManifestCorrupt]; valid
    JSON is not checked against the structure of a manifest: the publisher's
    loader returns the decoded value as it is, and the generator's loader
    leaves out a wheel entry that lacks one of its text fields, unless the
    conversion of its size raises. *)
Theorem load_manifest_behaviour :
  (forall w, manifest_file w = None ->
     GenerateIndex.load_manifest w = Ok ("", [])
     /\ PublishRelease.load_manifest w = Ok (JObj [("repo", JStr ""); ("wheels", JArr [])]))
  /\ (forall w text, manifest_file w = Some text -> json_loads text = Invalid ->
        GenerateIndex.load_manifest w = Err ManifestCorrupt
        /\ PublishRelease.load_manifest w = Err ManifestCorrupt)
  /\ (forall w text v, manifest_file w = Some text -> json_loads text = Parsed v ->
        PublishRelease.load_manifest w = Ok v)
  /\ (forall repo members key,
        In key required_fields -> dict_get key members = None ->
        GenerateIndex.load_item repo (JObj members) = Ok None
        \/ exists e, GenerateIndex.load_item repo (JObj members) = Err (Uncaught e)).
Proof.
  split; [|split; [|split]].
  - intros w Hfile.
    unfold GenerateIndex.load_manifest, PublishRelease.load_manifest.
    now rewrite Hfile.
  - intros w text Hfile Hjson.
    unfold GenerateIndex.load_manifest, PublishRelease.load_manifest, decode_manifest.
    now rewrite Hfile, Hjson.
  - intros w text v Hfile Hjson.
    unfold PublishRelease.load_manifest, decode_manifest. now rewrite Hfile, Hjson.
  - apply load_item_missing_field.
Qed.

Lemma load_manifest_behaviour_witness :
  GenerateIndex.load_manifest empty_world = Ok ("", [])
  /\ PublishRelease.load_manifest (world_with_manifest "{")
     = Err ManifestCorrupt
  /\ GenerateIndex.load_item "owner/name" (JObj [("filename", JStr "a.whl")])
     = Ok None.
Proof.
  split; [|split].
  - exact (proj1 (proj1 load_manifest_behaviour empty_world eq_refl)).
  - exact (proj2 (proj1 (proj2 load_manifest_behaviour)
                    (world_with_manifest "{") "{" eq_refl eq_refl)).
  - destruct (proj2 (proj2 (proj2 load_manifest_behaviour)) "owner/name"
                [("filename", JStr "a.whl")] "package"
                (or_intror (or_introl eq_refl)) eq_refl) as [H|(e & H)].
    + exact H.
    + discriminate H.
Defined.

(** ** Commands *)

Lemma cbind_ask {A B} (f : world -> A) (k : A -> cmd B) w :
  cbind (ask f) k w = k (f w) w.
Proof. reflexivity. Qed.

Lemma cbind_lift {A B} (r : result A) (k : A -> cmd B) w :
  cbind (lift r) k w
  = match r with
    | inl f => (inl f, w)
    | inr a => k a w
    end.
Proof. reflexivity. Qed.

Lemma cbind_read {A B} (g : world -> result A) (k : A -> cmd B) w :
  cbind (fun w' => (g w', w')) k w
  = match g w with
    | inl f => (inl f, w)
    | inr a => k a w
    end.
Proof. reflexivity. Qed.

Lemma cbind_change {B} (f : world -> world) (k : unit -> cmd B) w :
  cbind (change f) k w = k tt (f w).
Proof. reflexivity. Qed.

Lemma cbind_assoc {A B C} (c : cmd A) (k : A -> cmd B) (h : B -> cmd C) w :
  cbind (cbind c k) h w = cbind c (fun a => cbind (k a) h) w.
Proof.
  unfold cbind. destruct (c w) as [[f|a] w']; reflexivity.
Qed.

(** ** The publisher *)

Import PublishRelease.

(** *** The repo of a run *)

Lemma nonempty_false s : nonempty s = false <-> s = "".
Proof.
  unfold nonempty. destruct (String.eqb_spec s ""); cbn; split; congruence.
Qed.

Lemma nonempty_true s : nonempty s = true <-> s <> "".
Proof.
  unfold nonempty. destruct (String.eqb_spec s ""); cbn; split; congruence.
Qed.

(** [ensure_repo] fails when both values are given and differ *)
Lemma ensure_repo_conflict a b :
  a <> "" -> b <> "" -> a <> b -> ensure_repo a b = Err (RepoConflict a b).
Proof.
  intros Ha Hb Hab. unfold ensure_repo.
  apply nonempty_true in Ha, Hb. rewrite Ha, Hb.
  destruct (String.eqb_spec a b); [contradiction | reflexivity].
Qed.

(** and returns the second value, or the first one when the second is empty *)
Lemma ensure_repo_ok a b r :
  ensure_repo a b = Ok r ->
  (b <> "" /\ r = b /\ (a = "" \/ a = b)) \/ (b = "" /\ r = a).
Proof.
  unfold ensure_repo. intros H.
  destruct (nonempty b) eqn:Hb.
  - apply nonempty_true in Hb. left. rewrite andb_true_r in H.
    destruct (nonempty a) eqn:Ha; cbn [andb] in H.
    + destruct (String.eqb_spec a b); cbn in H; [|discriminate].
      injection H as <-. auto.
    + apply nonempty_false in Ha. injection H as <-. auto.
  - apply nonempty_false in Hb. right. rewrite andb_false_r in H.
    cbn in H. injection H as <-. auto.
Qed.

(** Two sources that give different repos stop the run with [RepoConflict],
    when the flag or the remote is one of them. *)
Lemma resolved_repo_conflict args w manifest v :
  py_get manifest "repo" (JStr "") = Ok v ->
  let flag := or_else (repo args) "" in
  let inferred := infer_repo_from_git w in
  let stored := strip (py_str v) in
  (flag <> "" /\ inferred <> "" /\ flag <> inferred)
  \/ (flag <> "" /\ stored <> "" /\ flag <> stored)
  \/ (inferred <> "" /\ stored <> "" /\ inferred <> stored) ->
  exists a b, resolved_repo args w manifest = Err (RepoConflict a b).
Proof.
  intros Hv flag inferred stored H. unfold resolved_repo. fold flag inferred.
  destruct (ensure_repo flag inferred) as [f|r] eqn:E.
  - unfold ensure_repo in E.
    destruct (nonempty flag && nonempty inferred && negb (flag =? inferred)); [|discriminate].
    injection E as <-. cbn. eauto.
  - apply ensure_repo_ok in E. cbn [bind].
    assert (Hs : r <> "" /\ stored <> "" /\ stored <> r).
    { destruct E as [(E1 & -> & E3)|(E1 & ->)];
        destruct H as [(H1 & H2 & H3)|[(H1 & H2 & H3)|(H1 & H2 & H3)]];
        try contradiction; try (destruct E3; [contradiction|]);
        repeat split; congruence. }
    destruct Hs as (Hr & Hs1 & Hs2).
    apply nonempty_true in Hr as Hn. rewrite Hn. cbn [negb].
    rewrite Hv. subst stored. cbv beta iota delta [bind Ok].
    rewrite (ensure_repo_conflict _ r Hs1 Hr Hs2). cbn. eauto.
Qed.

(** A repo is resolved only when the flag or the remote gives it: the repo
    of the manifest may agree with it, and does not stand in for it. *)
Lemma resolved_repo_ok args w manifest r :
  resolved_repo args w manifest = Ok r ->
  let flag := or_else (repo args) "" in
  let inferred := infer_repo_from_git w in
  r <> "" /\ (flag = r \/ inferred = r)
  /\ (flag = "" \/ flag = r) /\ (inferred = "" \/ inferred = r)
  /\ exists v, py_get manifest "repo" (JStr "") = Ok v
       /\ (strip (py_str v) = "" \/ strip (py_str v) = r).
Proof.
  intros H flag inferred. unfold resolved_repo in H. fold flag inferred in H.
  destruct (ensure_repo flag inferred) as [f|r1] eqn:E; [discriminate|].
  cbn [bind] in H. destruct (nonempty r1) eqn:Hn; [|discriminate]. cbn [negb] in H.
  destruct (py_get manifest "repo" (JStr "")) as [f|v]; [discriminate|]. cbn [bind] in H.
  destruct (ensure_repo (strip (py_str v)) r1) as [f|r2] eqn:E2; [discriminate|].
  cbn [bind] in H. destruct (nonempty r2) eqn:Hn2; [|discriminate]. cbn [negb] in H.
  injection H as <-.
  apply nonempty_true in Hn, Hn2.
  apply ensure_repo_ok in E, E2.
  destruct E2 as [(_ & Hr2 & E2)|(E2 & _)]; [subst r2|contradiction].
  assert (Hv : exists v0, Ok (A:=json) v = Ok v0
                 /\ (strip (py_str v0) = "" \/ strip (py_str v0) = r1))
    by (exists v; auto).
  destruct E as [(E1 & Hr1 & E3)|(E1 & Hr1)]; subst r1; repeat split; auto.
Qed.

(** *** Runs of [main] *)

Section PublisherFacts.

Variable sha : string -> string.

Lemma main_unfold args w :
  main sha args w
  = match missing_paths w (wheels args) with
    | _ :: _ => (Err (MissingArtifact (missing_paths w (wheels args))), w)
    | [] => publish_existing sha args w
    end.
Proof.
  unfold main. rewrite cbind_ask. fold (missing_paths w (wheels args)).
  destruct (missing_paths w (wheels args)); reflexivity.
Qed.

Lemma missing_paths_none w paths :
  Forall (fun path => path_exists w path = true) paths -> missing_paths w paths = [].
Proof.
  unfold missing_paths. induction 1 as [|p paths Hp _ IH]; [reflexivity|].
  cbn [filter]. rewrite Hp. exact IH.
Qed.

(** C4: when neither the [--repo] flag nor the git remote gives a repo,
    [main] fails before it creates a release, whatever the manifest holds,
    and so also when the manifest gives none: no call of the release command
    is made, nothing is written, and when the wheel files exist the failure
    is [RepoUnresolved]. *)
Theorem publish_without_repo_fails (args : arguments) (w : world) :
  or_else (repo args) "" = "" ->
  infer_repo_from_git w = "" ->
  snd (main sha args w) = w
  /\ (exists f, fst (main sha args w) = Err f)
  /\ (Forall (fun path => path_exists w path = true) (wheels args) ->
      fst (main sha args w) = Err RepoUnresolved).
Proof.
  intros Hflag Hgit. rewrite main_unfold.
  assert (E : publish_existing sha args w = (Err RepoUnresolved, w)).
  { unfold publish_existing. rewrite cbind_ask, Hflag, Hgit. reflexivity. }
  destruct (missing_paths w (wheels args)) as [|m ms] eqn:Hm.
  - rewrite E. cbn [fst snd]. split; [reflexivity|]. split; [now eexists|reflexivity].
  - cbn [fst snd]. split; [reflexivity|]. split; [eexists; reflexivity|].
    intros H. apply missing_paths_none in H. congruence.
Qed.

Lemma publish_existing_unfold args w :
  publish_existing sha args w
  = match load_manifest w with
    | inl f =>
        match ensure_repo (or_else (repo args) "") (infer_repo_from_git w) with
        | inl f' => (inl f', w)
        | inr repo => if negb (nonempty repo) then (Err RepoUnresolved, w) else (inl f, w)
        end
    | inr manifest =>
        match resolved_repo args w manifest with
        | inl f => (inl f, w)
        | inr repo =>
            if gh_succeeds w (release_call args)
            then record_wheels sha args manifest repo (add_release (release_call args) w)
            else (Err (Uncaught CalledProcessError), add_release (release_call args) w)
        end
    end.
Proof.
  unfold publish_existing, resolved_repo. rewrite cbind_ask, cbind_lift.
  destruct (ensure_repo (or_else (repo args) "") (infer_repo_from_git w)) as [f|repo1].
  { destruct (load_manifest w); reflexivity. }
  cbn [bind]. destruct (negb (nonempty repo1)).
  { destruct (load_manifest w); reflexivity. }
  rewrite cbind_read. destruct (load_manifest w) as [f|manifest]; [reflexivity|].
  rewrite cbind_lift. destruct (py_get manifest "repo" (JStr "")) as [f|v]; [reflexivity|].
  cbn [bind]. rewrite cbind_lift.
  destruct (ensure_repo (strip (py_str v)) repo1) as [f|repo2]; [reflexivity|].
  cbn [bind]. destruct (negb (nonempty repo2)); [reflexivity|].
  unfold create_release. rewrite cbind_assoc, cbind_change, cbind_assoc, cbind_ask.
  fold (release_call args). cbn [gh_succeeds add_release].
  destruct (gh_succeeds w (release_call args)); reflexivity.
Qed.

Lemma in_existing_in t n existing :
  In (JStr t, JStr n) existing -> in_existing t n existing = true.
Proof.
  intros H. unfold in_existing. apply existsb_exists.
  exists (JStr t, JStr n). split; [exact H|]. now rewrite !String.eqb_refl.
Qed.

Lemma existing_key_in entries existing entry t n :
  mapM existing_key entries = Ok existing -> In entry entries ->
  py_get entry "release_tag" JNull = Ok (JStr t) ->
  py_get entry "filename" JNull = Ok (JStr n) ->
  In (JStr t, JStr n) existing.
Proof.
  revert existing. induction entries as [|e entries IH]; intros existing Hm Hin Ht Hn;
    [contradiction|].
  cbn [mapM] in Hm. destruct (existing_key e) as [f|k] eqn:Ek; [discriminate|].
  cbn [bind] in Hm. destruct (mapM existing_key entries) as [f|ks]; [discriminate|].
  cbn [bind] in Hm. unfold Ok in Hm. injection Hm as <-.
  destruct Hin as [->|Hin].
  - left. unfold existing_key in Ek. rewrite Ht, Hn in Ek. cbn in Ek.
    unfold Ok in Ek. now injection Ek as <-.
  - right. now apply IH.
Qed.

Lemma collect_wheels_records w paths tag records :
  collect_wheels sha w paths tag = Ok records ->
  map filename records = map path_name paths
  /\ Forall (fun record => release_tag record = tag) records.
Proof.
  unfold collect_wheels. revert records.
  induction paths as [|p paths IH]; intros records H; cbn [mapM] in H.
  - unfold Ok in H. injection H as <-. now split.
  - destruct (collect_wheel sha w tag p) as [f|record] eqn:E; [discriminate|].
    cbn [bind] in H. destruct (mapM _ paths) as [f|rest]; [discriminate|].
    cbn [bind] in H. unfold Ok in H. injection H as <-.
    destruct (IH rest eq_refl) as [IH1 IH2].
    unfold collect_wheel in E.
    destruct (Re.re_match WHEEL_NAME_RE (path_name p)); [|discriminate].
    destruct (st_size w p); [discriminate|]. cbn [bind] in E.
    destruct (sha256_file sha w p); [discriminate|]. cbn [bind] in E.
    unfold Ok in E. injection E as <-. cbn [map]. split.
    + cbn [filename]. now rewrite IH1.
    + constructor; [reflexivity|exact IH2].
Qed.

Lemma check_new_duplicate existing records tag name :
  Forall (fun record => release_tag record = tag) records ->
  In name (map filename records) ->
  in_existing tag name existing = true ->
  exists name',
    check_new existing records = Err (DuplicateArtifact name' tag)
    /\ In name' (map filename records)
    /\ in_existing tag name' existing = true.
Proof.
  induction records as [|r records IH]; intros Htag Hin Hex; [contradiction|].
  inversion Htag as [|? ? Hr Hrest]; subst. cbn [check_new].
  destruct (in_existing (release_tag r) (filename r) existing) eqn:E.
  - exists (filename r). repeat split; [now left|exact E].
  - destruct Hin as [<-|Hin]; [congruence|].
    destruct (IH Hrest Hin Hex) as (name' & H1 & H2 & H3).
    exists name'. repeat split; [exact H1|now right|exact H3].
Qed.

Section Duplicate.

Variables (args : arguments) (manifest : json) (entries : list json).
Variables (entry : json) (path : string).
Hypothesis Hwheels : py_get manifest "wheels" (JArr []) = Ok (JArr entries).
Hypothesis Hentry : In entry entries.
Hypothesis Htag : py_get entry "release_tag" JNull = Ok (JStr (tag args)).
Hypothesis Hname : py_get entry "filename" JNull = Ok (JStr (path_name path)).
Hypothesis Hpath : In path (wheels args).

Lemma record_wheels_unfold repo w :
  record_wheels sha args manifest repo w
  = match collect_wheels sha w (wheels args) (tag args) with
    | inl f => (inl f, w)
    | inr records =>
        match mapM existing_key entries with
        | inl f => (inl f, w)
        | inr existing =>
            match check_new existing records with
            | inl f => (inl f, w)
            | inr _ =>
                match updated_manifest manifest repo records with
                | inl f => (inl f, w)
                | inr manifest' =>
                    run_generate_index
                      (set_manifest_file
                         (Some (json_dumps manifest' ++ String newline "")) w)
                end
            end
        end
    end.
Proof.
  unfold record_wheels. rewrite cbind_read.
  destruct (collect_wheels sha w (wheels args) (tag args)) as [f|records];
    [reflexivity|].
  rewrite cbind_lift, Hwheels. cbv beta iota delta [Ok].
  rewrite cbind_lift. cbn [py_iter]. cbv beta iota delta [Ok].
  rewrite cbind_lift.
  destruct (mapM existing_key entries) as [f|existing]; [reflexivity|].
  rewrite cbind_lift.
  destruct (check_new existing records) as [f|u]; [reflexivity|].
  rewrite cbind_lift.
  destruct (updated_manifest manifest repo records) as [f|manifest'];
    reflexivity.
Qed.

Lemma record_wheels_duplicate repo w :
  snd (record_wheels sha args manifest repo w) = w
  /\ (exists f, fst (record_wheels sha args manifest repo w) = Err f)
  /\ (forall records existing,
        collect_wheels sha w (wheels args) (tag args) = Ok records ->
        mapM existing_key entries = Ok existing ->
        exists name,
          fst (record_wheels sha args manifest repo w)
          = Err (DuplicateArtifact name (tag args))
          /\ In name (map path_name (wheels args))
          /\ in_existing (tag args) name existing = true).
Proof.
  rewrite record_wheels_unfold.
  destruct (collect_wheels sha w (wheels args) (tag args)) as [f|records] eqn:Ec.
  { split; [reflexivity|]. split; [eexists; reflexivity|discriminate]. }
  destruct (mapM existing_key entries) as [f|existing] eqn:Ee.
  { split; [reflexivity|]. split; [eexists; reflexivity|discriminate]. }
  destruct (collect_wheels_records _ _ _ _ Ec) as [Hnames Htags].
  destruct (check_new_duplicate existing records (tag args) (path_name path) Htags)
    as (name & Hc & Hin & Hex).
  { rewrite Hnames. now apply in_map. }
  { apply in_existing_in. eapply existing_key_in; eassumption. }
  rewrite Hc. split; [reflexivity|]. split; [eexists; reflexivity|].
  intros records' existing' E1 E2. unfold Ok in E1, E2.
  injection E1 as <-. injection E2 as <-.
  exists name. repeat split; [now rewrite <- Hnames|exact Hex].
Qed.

(** C1: when the manifest records a wheel under a release tag and a file
    name, publishing a batch that holds a file of that name under that tag
    fails and writes nothing to the manifest file; when the steps before the
    check succeed (the files exist and can be read, their names parse, the
    repo is resolved, the release is created, the entries of the manifest
    can be compared), the failure is [DuplicateArtifact]. *)
Theorem publish_duplicate_fails (w : world) (text : string) :
  manifest_file w = Some text -> json_loads text = Parsed manifest ->
  manifest_file (snd (main sha args w)) = manifest_file w
  /\ (exists f, fst (main sha args w) = Err f)
  /\ (forall repo records existing,
        Forall (fun p => path_exists w p = true) (wheels args) ->
        resolved_repo args w manifest = Ok repo ->
        gh_succeeds w (release_call args) = true ->
        collect_wheels sha w (wheels args) (tag args) = Ok records ->
        mapM existing_key entries = Ok existing ->
        exists name,
          fst (main sha args w) = Err (DuplicateArtifact name (tag args))
          /\ In name (map path_name (wheels args))
          /\ in_existing (tag args) name existing = true).
Proof.
  intros Hfile Hjson. rewrite main_unfold.
  destruct (missing_paths w (wheels args)) as [|m ms] eqn:Hm.
  2:{ split; [reflexivity|]. split; [eexists; reflexivity|].
      intros ? ? ? H. apply missing_paths_none in H. congruence. }
  rewrite publish_existing_unfold.
  assert (Hload : load_manifest w = Ok manifest).
  { unfold load_manifest, decode_manifest. now rewrite Hfile, Hjson. }
  rewrite Hload. cbv beta iota delta [Ok].
  destruct (resolved_repo args w manifest) as [f|repo] eqn:Er.
  { split; [reflexivity|]. split; [eexists; reflexivity|]. discriminate. }
  destruct (gh_succeeds w (release_call args)) eqn:Eg.
  2:{ split; [reflexivity|]. split; [eexists; reflexivity|]. discriminate. }
  destruct (record_wheels_duplicate repo (add_release (release_call args) w))
    as (Hw & Hf & Hd).
  rewrite Hw. split; [reflexivity|]. split; [exact Hf|].
  intros repo' records existing _ Hrepo _ Hc He.
  unfold Ok in Hrepo. injection Hrepo as <-.
  exact (Hd records existing Hc He).
Qed.

End Duplicate.

End PublisherFacts.

(** *** What the check against the manifest keeps

    The pairs of the manifest stay distinct when the names of the batch
    are. *)

Lemma generate_index_keeps_manifest w :
  manifest_file (snd (GenerateIndex.main w)) = manifest_file w.
Proof.
  unfold GenerateIndex.main, GenerateIndex.build_dist.
  rewrite cbind_assoc, cbind_read.
  destruct (GenerateIndex.load_manifest w) as [f|[repo wheels]]; [reflexivity|].
  assert (G : manifest_file
                (snd ((wheel_count <~
                         (change clear_dist ;;;
                          index_html <~ lift (GenerateIndex.render_index wheels) ;;
                          change (set_index_html (Some index_html)) ;;;
                          ret (Z.of_nat (List.length wheels))) ;;
                       ret tt) w))
              = manifest_file w).
  { rewrite cbind_assoc, cbind_change, cbind_assoc, cbind_lift.
    destruct (GenerateIndex.render_index wheels) as [f|html]; reflexivity. }
  destruct wheels as [|wheel wheels]; [exact G|].
  destruct (GenerateIndex.nonempty repo); [exact G|reflexivity].
Qed.

Lemma run_generate_index_keeps_manifest w :
  manifest_file (snd (run_generate_index w)) = manifest_file w.
Proof.
  unfold run_generate_index.
  pose proof (generate_index_keeps_manifest w) as H.
  destruct (GenerateIndex.main w) as [[[]|u] w']; exact H.
Qed.

Lemma dict_get_set_same k v d : dict_get k (dict_set k v d) = Some v.
Proof.
  induction d as [|[k' w] d IH]; cbn.
  - now rewrite String.eqb_refl.
  - destruct (String.eqb k' k) eqn:E; cbn; now rewrite E.
Qed.

Lemma dict_get_set_other k k' v d :
  k <> k' -> dict_get k' (dict_set k v d) = dict_get k' d.
Proof.
  intros Hne. induction d as [|[k0 w] d IH]; cbn.
  - destruct (String.eqb_spec k k'); [contradiction|reflexivity].
  - destruct (String.eqb_spec k0 k) as [->|Hk]; cbn.
    + destruct (String.eqb_spec k k'); [contradiction|reflexivity].
    + now rewrite IH.
Qed.

Lemma sort_wheels_perm entries sorted :
  sort_wheels entries = Ok sorted -> Permutation sorted entries.
Proof.
  unfold sort_wheels.
  destruct (mapM (fun entry => k <- entry_key entry ;; Ok (k, entry)) entries)
    as [f|keyed] eqn:E; [discriminate|].
  cbn [bind]. unfold Ok. intros H. injection H as <-.
  assert (Hk : map snd keyed = entries).
  { revert keyed E. induction entries as [|e entries IH]; intros keyed E.
    - cbn in E. unfold Ok in E. now injection E as <-.
    - apply mapM_cons_ok in E as (y & ys & Hy & Hys & ->).
      destruct (entry_key e) as [f|k]; [discriminate|].
      cbn [bind] in Hy. unfold Ok in Hy. injection Hy as <-.
      cbn [map snd]. f_equal. now apply IH. }
  rewrite <- Hk. apply Permutation_map, sort_by_perm.
Qed.

Lemma check_new_ok existing records :
  check_new existing records = Ok tt ->
  Forall (fun r => in_existing (release_tag r) (filename r) existing = false) records.
Proof.
  induction records as [|r records IH]; intros H; [constructor|].
  cbn [check_new] in H.
  destruct (in_existing (release_tag r) (filename r) existing) eqn:E; [discriminate|].
  constructor; [exact E|now apply IH].
Qed.

Lemma entry_pair_record r : entry_pair (record_json r) = record_pair r.
Proof. reflexivity. Qed.

Lemma updated_manifest_ok manifest repo records manifest' :
  updated_manifest manifest repo records = Ok manifest' ->
  exists entries,
    py_get manifest "wheels" (JArr []) = Ok (JArr entries)
    /\ Permutation (manifest_pairs manifest')
         (map entry_pair entries ++ map record_pair records)%list.
Proof.
  unfold updated_manifest. destruct manifest as [| | | | |members]; try discriminate.
  set (members1 := dict_set "repo" (JStr repo) members).
  assert (H1 : dict_get "wheels" members1 = dict_get "wheels" members).
  { apply dict_get_set_other. discriminate. }
  rewrite py_get_obj.
  destruct (dict_get "wheels" members) as [v|] eqn:Ew; rewrite H1.
  - rewrite H1. destruct v as [| | | |entries|]; try discriminate.
    destruct (sort_wheels (entries ++ map record_json records)) as [f|sorted] eqn:Es;
      [discriminate|].
    cbn [bind]. unfold Ok at 1 2. intros H. injection H as <-.
    exists entries. split; [reflexivity|].
    cbn [manifest_pairs]. rewrite dict_get_set_same.
    apply sort_wheels_perm in Es.
    rewrite (Permutation_map entry_pair Es), map_app, map_map.
    apply Permutation_app_head. erewrite map_ext; [reflexivity|].
    intros r. apply entry_pair_record.
  - rewrite dict_get_set_same.
    destruct (sort_wheels ([] ++ map record_json records)) as [f|sorted] eqn:Es;
      [discriminate|].
    cbn [bind]. unfold Ok at 1 2. intros H. injection H as <-.
    exists []. split; [reflexivity|].
    cbn [manifest_pairs]. rewrite dict_get_set_same.
    apply sort_wheels_perm in Es.
    rewrite (Permutation_map entry_pair Es), map_app, map_map.
    apply Permutation_app_head. erewrite map_ext; [reflexivity|].
    intros r. apply entry_pair_record.
Qed.

Lemma existing_key_pair entries existing entry t n :
  mapM existing_key entries = Ok existing -> In entry entries ->
  entry_pair entry = (Some (JStr t), Some (JStr n)) ->
  in_existing t n existing = true.
Proof.
  intros Hm Hin Hp. apply in_existing_in.
  destruct entry as [| | | | |members]; try discriminate.
  cbn [entry_pair] in Hp. injection Hp as Ht Hn.
  eapply existing_key_in; [exact Hm|exact Hin| |]; rewrite py_get_obj.
  - now rewrite Ht.
  - now rewrite Hn.
Qed.

(** With names that are distinct in the batch, the entries that
    [updated_manifest] returns have distinct pairs. *)
Lemma updated_manifest_distinct manifest repo records entries existing manifest' :
  py_get manifest "wheels" (JArr []) = Ok (JArr entries) ->
  mapM existing_key entries = Ok existing ->
  check_new existing records = Ok tt ->
  NoDup (map entry_pair entries) ->
  NoDup (map record_pair records) ->
  updated_manifest manifest repo records = Ok manifest' ->
  NoDup (manifest_pairs manifest').
Proof.
  intros Hw He Hc Hold Hnew Hu.
  apply updated_manifest_ok in Hu as (entries' & Hw' & Hp).
  rewrite Hw in Hw'. unfold Ok in Hw'. injection Hw' as <-.
  apply (Permutation_NoDup (Permutation_sym Hp)).
  apply NoDup_app; [exact Hold|exact Hnew|].
  intros p Hin1 Hin2.
  apply in_map_iff in Hin1 as (entry & E1 & Hentry).
  apply in_map_iff in Hin2 as (r & E2 & Hr).
  apply check_new_ok in Hc. rewrite Forall_forall in Hc. specialize (Hc r Hr).
  rewrite (existing_key_pair entries existing entry (release_tag r) (filename r)) in Hc;
    [discriminate|exact He|exact Hentry|].
  rewrite E1, <- E2. reflexivity.
Qed.

Lemma record_wheels_ok sha args manifest repo w :
  fst (record_wheels sha args manifest repo w) = Ok tt ->
  exists records manifest',
    collect_wheels sha w (wheels args) (tag args) = Ok records
    /\ updated_manifest manifest repo records = Ok manifest'.
Proof.
  unfold record_wheels. rewrite cbind_read.
  destruct (collect_wheels sha w (wheels args) (tag args)) as [f|records];
    [discriminate|].
  rewrite cbind_lift.
  destruct (py_get manifest "wheels" (JArr [])) as [f|v]; [discriminate|].
  rewrite cbind_lift. destruct (py_iter v) as [f|entries]; [discriminate|].
  rewrite cbind_lift.
  destruct (mapM existing_key entries) as [f|existing]; [discriminate|].
  rewrite cbind_lift.
  destruct (check_new existing records) as [f|u]; [discriminate|].
  rewrite cbind_lift.
  destruct (updated_manifest manifest repo records) as [f|manifest'] eqn:Hu;
    [discriminate|].
  intros _. exists records, manifest'. split; [reflexivity|exact Hu].
Qed.

Lemma manifest_pairs_entries manifest entries :
  py_get manifest "wheels" (JArr []) = Ok (JArr entries) ->
  manifest_pairs manifest = map entry_pair entries.
Proof.
  destruct manifest as [| | | | |members]; try discriminate.
  rewrite py_get_obj. unfold Ok. intros H. injection H as H.
  cbn [manifest_pairs]. destruct (dict_get "wheels" members) as [v|].
  - now subst v.
  - now injection H as <-.
Qed.

Lemma record_pairs_distinct records tag :
  Forall (fun record => release_tag record = tag) records ->
  NoDup (map filename records) -> NoDup (map record_pair records).
Proof.
  induction records as [|r records IH]; intros Ht Hn; [constructor|].
  inversion Ht as [|? ? Hr Hrest]; subst.
  cbn [map] in *. inversion Hn as [|? ? Hnotin Hn']; subst.
  constructor; [|now apply IH].
  intros Hin. apply Hnotin.
  apply in_map_iff in Hin as (r' & E & Hr'). unfold record_pair in E.
  injection E as _ E. rewrite <- E. now apply in_map.
Qed.

(** X23: a run of [main] that succeeds on a batch of distinct file names
    leaves a manifest whose pairs of release tag and file name are distinct,
    when those of the manifest it read were. *)
Lemma publish_distinct_names sha args w manifest :
  load_manifest w = Ok manifest ->
  NoDup (manifest_pairs manifest) ->
  NoDup (map path_name (wheels args)) ->
  fst (main sha args w) = Ok tt ->
  exists manifest',
    manifest_file (snd (main sha args w))
    = Some (json_dumps manifest' ++ String newline "")
    /\ NoDup (manifest_pairs manifest').
Proof.
  intros Hload Hold Hnames. rewrite main_unfold.
  destruct (missing_paths w (wheels args)); [|discriminate].
  rewrite publish_existing_unfold, Hload. cbv beta iota delta [Ok].
  destruct (resolved_repo args w manifest) as [f|repo]; [discriminate|].
  destruct (gh_succeeds w (release_call args)); [|discriminate].
  set (w1 := add_release (release_call args) w). intros Hok.
  destruct (record_wheels_ok _ _ _ _ _ Hok) as (records & manifest' & Hc & Hu).
  destruct (updated_manifest_ok _ _ _ _ Hu) as (entries & Hw & _).
  rewrite (record_wheels_unfold sha args manifest entries Hw) in Hok |- *.
  rewrite Hc in Hok |- *. cbv beta iota delta [Ok] in Hok |- *.
  destruct (mapM existing_key entries) as [f|existing] eqn:He; [discriminate|].
  destruct (check_new existing records) as [f|[]] eqn:Hn; [discriminate|].
  rewrite Hu. cbv beta iota delta [Ok].
  exists manifest'. split.
  - now rewrite run_generate_index_keeps_manifest.
  - destruct (collect_wheels_records sha _ _ _ _ Hc) as [Hf Ht].
    eapply updated_manifest_distinct; try eassumption.
    + now rewrite <- (manifest_pairs_entries manifest).
    + apply (record_pairs_distinct records (tag args) Ht). now rewrite Hf.
Qed.

(** ** Runs of the publisher *)

Lemma publish_duplicate_fails_witness :
  let w := demo_world (Some demo_manifest_text) github_origin in
  let args := demo_args ["dist/demo_pkg-1.2.3-py3-none-any.whl"] in
  manifest_file (snd (main demo_sha256 args w)) = manifest_file w
  /\ fst (main demo_sha256 args w) = Err (DuplicateArtifact demo_name "v1").
Proof.
  intros w args.
  destruct (publish_duplicate_fails demo_sha256 args demo_manifest [demo_record]
              demo_record "dist/demo_pkg-1.2.3-py3-none-any.whl"
              eq_refl (or_introl eq_refl) eq_refl eq_refl (or_introl eq_refl)
              w demo_manifest_text eq_refl)
    as (Hfile & _ & Hdup).
  { vm_compute. reflexivity. }
  split; [exact Hfile|].
  destruct (Hdup "owner/name"
              [ {| filename := demo_name; package := "demo-pkg"; version := "1.2.3";
                   size_bytes := 11; sha256 := demo_sha256 "wheel bytes";
                   release_tag := "v1" |} ]
              [(JStr "v1", JStr demo_name)])
    as (name & Hmain & [Hin|[]] & _).
  - repeat constructor.
  - vm_compute. reflexivity.
  - reflexivity.
  - vm_compute. reflexivity.
  - reflexivity.
  - rewrite Hmain. now rewrite <- Hin.
Defined.

Lemma publish_without_repo_fails_witness :
  let w := demo_world None None in
  let args := demo_args ["dist/demo_pkg-1.2.3-py3-none-any.whl"] in
  snd (main demo_sha256 args w) = w
  /\ fst (main demo_sha256 args w) = Err RepoUnresolved.
Proof.
  intros w args.
  destruct (publish_without_repo_fails demo_sha256 args w eq_refl eq_refl)
    as (Hw & _ & Hf).
  split; [exact Hw|]. apply Hf. repeat constructor.
Defined.

Lemma publish_distinct_names_witness :
  let w := stocked_world earlier_manifest in
  manifest_pairs earlier_manifest = [(Some (JStr "v0"), Some (JStr demo_name))]
  /\ map path_name (wheels both_args) = [demo_name; "alpha-2.0-py3-none-any.whl"]
  /\ manifest_pairs (written_manifest (snd (main demo_sha256 both_args w)))
     = [ (Some (JStr "v1"), Some (JStr "alpha-2.0-py3-none-any.whl"));
         (Some (JStr "v0"), Some (JStr demo_name));
         (Some (JStr "v1"), Some (JStr demo_name)) ]
  /\ exists manifest',
       manifest_file (snd (main demo_sha256 both_args w))
       = Some (json_dumps manifest' ++ String newline "")
       /\ NoDup (manifest_pairs manifest').
Proof.
  intros w. split; [reflexivity|]. split; [vm_compute; reflexivity|].
  split; [vm_compute; reflexivity|].
  apply (publish_distinct_names demo_sha256 both_args w earlier_manifest).
  - vm_compute. reflexivity.
  - repeat constructor. intros [].
  - change (NoDup (map path_name [demo_path; alpha_path])).
    repeat constructor; vm_compute; intuition discriminate.
  - vm_compute. reflexivity.
Defined.

(** C2: the pairs of release tag and file name are not kept distinct by a
    batch that holds one file name twice.  Such a batch is published, and
    the manifest, empty before, then holds the pair (v1, file name) twice. *)
Lemma publish_same_name_twice :
  let before := JObj [("repo", JStr ""); ("wheels", JArr [])] in
  let done := main demo_sha256 two_builds_args two_builds_world in
  load_manifest two_builds_world = Ok before
  /\ NoDup (manifest_pairs before)
  /\ fst done = Ok tt
  /\ manifest_pairs (written_manifest (snd done))
     = [ (Some (JStr "v1"), Some (JStr demo_name));
         (Some (JStr "v1"), Some (JStr demo_name)) ]
  /\ ~ NoDup (manifest_pairs (written_manifest (snd done))).
Proof.
  assert (E : manifest_pairs
                (written_manifest
                   (snd (main demo_sha256 two_builds_args two_builds_world)))
              = [ (Some (JStr "v1"), Some (JStr demo_name));
                  (Some (JStr "v1"), Some (JStr demo_name)) ])
    by (vm_compute; reflexivity).
  cbv zeta. split; [reflexivity|]. split; [constructor|].
  split; [vm_compute; reflexivity|].
  split; [exact E|]. rewrite E. intros H. inversion H as [|? ? Hnotin _]; subst.
  apply Hnotin. now left.
Qed.

(** C3: the repo of the manifest is not used when the flag and the remote
    give none.  Here the manifest is the only source of the repo, no source
    contradicts it, and [main] fails with [RepoUnresolved] before it reads
    the manifest. *)
Lemma publish_ignores_manifest_repo :
  let w := demo_world (Some repo_only_manifest_text) None in
  let args := demo_args ["dist/demo_pkg-1.2.3-py3-none-any.whl"] in
  or_else (repo args) "" = ""
  /\ infer_repo_from_git w = ""
  /\ load_manifest w = Ok (JObj [("repo", JStr "owner/name"); ("wheels", JArr [])])
  /\ main demo_sha256 args w = (Err RepoUnresolved, w).
Proof. repeat split; vm_compute; reflexivity. Qed.

(** * Further properties *)

(** ** The remote of the checkout *)

Lemma all_chars_app p a b : all_chars p (a ++ b) = all_chars p a && all_chars p b.
Proof.
  induction a as [|c a IH]; cbn; [reflexivity|]. now rewrite IH, andb_assoc.
Qed.

(** a greedy run stops at the first character out of its class *)
Lemma rep_greedy_stop {A} p run : forall least c rest (k : string -> option A) x,
  all_chars p run = true -> (least <= String.length run)%nat -> p c = false ->
  k (String c rest) = Some x ->
  Re.rep_greedy p least (run ++ String c rest) k = Some x.
Proof.
  induction run as [|d run IH]; intros least c rest k x Hall Hlen Hc Hk.
  - cbn in Hlen. assert (least = 0%nat) by lia. subst.
    cbn [append Re.rep_greedy]. now rewrite Hc.
  - cbn [all_chars] in Hall. apply andb_true_iff in Hall as [Hd Hall].
    cbn [append Re.rep_greedy]. rewrite Hd.
    rewrite (IH (pred least) c rest k x Hall ltac:(cbn in Hlen; lia) Hc Hk).
    reflexivity.
Qed.

(** a lazy run stops at the first place where the rest of the pattern
    matches *)
Lemma rep_lazy_first {A} p run : forall least rest (k : string -> option A) x,
  all_chars p run = true -> (least <= String.length run)%nat ->
  (forall a b, run = a ++ b -> b <> "" -> (least <= String.length a)%nat ->
               k (b ++ rest) = None) ->
  k rest = Some x ->
  Re.rep_lazy p least (run ++ rest) k = Some x.
Proof.
  induction run as [|d run IH]; intros least rest k x Hall Hlen Hfirst Hk.
  - cbn in Hlen. assert (least = 0%nat) by lia. subst. cbn [append].
    destruct rest; cbn [Re.rep_lazy]; now rewrite Hk.
  - cbn [all_chars] in Hall. apply andb_true_iff in Hall as [Hd Hall].
    cbn [append Re.rep_lazy]. rewrite Hd.
    assert (Hmore : Re.rep_lazy p (pred least) (run ++ rest) k = Some x).
    { apply IH; [exact Hall|cbn in Hlen; lia| |exact Hk].
      intros a b -> Hb Ha. apply (Hfirst (String d a) b eq_refl Hb).
      cbn [String.length]. lia. }
    destruct least as [|least]; [|exact Hmore].
    specialize (Hfirst "" (String d run) eq_refl ltac:(discriminate) (Nat.le_refl _)).
    cbn [append] in Hfirst. rewrite Hfirst. exact Hmore.
Qed.

Lemma rstrip_last s : forall a c, rstrip s = a ++ String c "" -> is_space c = false.
Proof.
  induction s as [|d t IH]; intros a c H; cbn [rstrip] in H.
  - destruct a; discriminate.
  - destruct (rstrip t) as [|e t'] eqn:E.
    + destruct (is_space d) eqn:Hd; [destruct a; discriminate|].
      destruct a as [|x a]; cbn in H.
      * now injection H as <-.
      * injection H as _ H. destruct a; discriminate.
    + destruct a as [|x a]; cbn in H; [discriminate|].
      injection H as _ H. exact (IH a c H).
Qed.

(** the tail of [GITHUB_REPO_RE]: an optional [.git] and the end *)
Lemma git_suffix_end {A} n0 t caps (k : string -> Re.captures -> option A) x :
  Re.run (Re.Seq (Re.Opt (Re.Lit ".git")) Re.Eol) n0 t caps k = Some x ->
  t = "" \/ t = String newline "" \/ t = ".git" \/ t = ".git" ++ String newline "".
Proof.
  intros H. apply run_sound in H as (s' & caps' & H & Hk).
  cbn [matches] in H.
  destruct H as (m & cm & [(-> & ->)|(-> & ->)] & (-> & -> & He)).
  - destruct He as [->| ->]; cbn [append]; auto.
  - destruct He as [->| ->]; auto.
Qed.

Lemma github_repo_match prefix owner name suffix :
  github_prefix prefix -> repo_part owner -> repo_part name ->
  (suffix = ".git" \/ suffix = "") ->
  (forall a b, name = a ++ b -> a <> "" -> b <> "" ->
     b ++ suffix <> String newline "" /\ b ++ suffix <> ".git"
     /\ b ++ suffix <> ".git" ++ String newline "") ->
  exists caps,
    Re.re_match GITHUB_REPO_RE (prefix ++ owner ++ "/" ++ name ++ suffix) = Some caps
    /\ Re.group "1" caps = Some (owner ++ "/" ++ name).
Proof.
  intros Hprefix [Ho Hoc] [Hn Hnc] Hsuffix Hfirst.
  unfold Re.re_match, GITHUB_REPO_RE. cbn [seq_all].
  set (tail := Re.Seq (Re.Opt (Re.Lit ".git")) Re.Eol).
  set (text := owner ++ "/" ++ name ++ suffix).
  cbn [Re.run]. rewrite Nat.eqb_refl.
  set (k := fun s' : string => Re.rep_greedy _ _ _ _).
  assert (Hk : k text = Some (Re.set_group "1" (owner ++ "/" ++ name) [])).
  { unfold k, text.
    apply rep_greedy_stop; [exact Hoc|now apply nonempty_length|reflexivity|].
    cbn [Re.lit append]. change (Ascii.eqb "/" "/") with true. cbv iota.
    apply rep_lazy_first; [exact Hnc|now apply nonempty_length| |].
    - intros a b Hab Hb Ha. apply nonempty_length in Ha.
      destruct (Re.run tail _ (b ++ suffix) _ _) as [x|] eqn:E; [|reflexivity].
      exfalso. apply git_suffix_end in E.
      destruct (Hfirst a b Hab Ha Hb) as (H1 & H2 & H3).
      destruct E as [E|[E|[E|E]]]; try contradiction.
      destruct b; [now apply Hb|discriminate].
    - replace (owner ++ String "/" (name ++ suffix))
        with ((owner ++ "/" ++ name) ++ suffix)
        by (now rewrite !append_assoc).
      rewrite take_append.
      destruct Hsuffix as [->| ->]; reflexivity. }
  exists (Re.set_group "1" (owner ++ "/" ++ name) []).
  split; [|reflexivity].
  destruct Hprefix as [->| ->].
  - now rewrite lit_complete, Hk.
  - destruct (Re.lit "git@github.com:" ("https://github.com/" ++ text) k) as [x|] eqn:E.
    + apply lit_sound in E as (s' & E & _). discriminate E.
    + now rewrite lit_complete.
Qed.

(** X1: for a GitHub remote, over SSH or over HTTPS, [infer_repo_from_git]
    returns the owner and the name of the remote, whatever white space [git]
    prints around it: the [.git] at its end is left out, and a remote without
    it is read whole (unless the name itself ends with [.git], which is then
    taken for the suffix). *)
Theorem infer_repo_github w out prefix owner name suffix :
  git_origin w = Some out ->
  strip out = prefix ++ owner ++ "/" ++ name ++ suffix ->
  github_prefix prefix -> repo_part owner -> repo_part name ->
  suffix = ".git" \/ (suffix = "" /\ forall a, a <> "" -> name <> a ++ ".git") ->
  infer_repo_from_git w = owner ++ "/" ++ name.
Proof.
  intros Hgit Hstrip Hprefix Ho Hn Hsuffix.
  unfold infer_repo_from_git. rewrite Hgit, Hstrip.
  destruct (github_repo_match prefix owner name suffix Hprefix Ho Hn) as (caps & -> & Hg).
  - destruct Hsuffix as [->|[-> _]]; auto.
  - intros a b Hab Ha Hb. destruct Hsuffix as [->|[-> Hgit']].
    + destruct b as [|c [|d b]]; [now destruct Hb| |].
      * repeat split; discriminate.
      * repeat split; intros E; apply (f_equal String.length) in E;
          cbn [append String.length] in E; rewrite length_append in E;
          cbn [String.length] in E; lia.
    + rewrite append_nil_r.
      assert (Hend : forall pre, b <> pre ++ String newline "").
      { intros pre ->.
        assert (Hs : is_space newline = false); [|discriminate Hs].
        apply (rstrip_last (lstrip out) (prefix ++ owner ++ "/" ++ a ++ pre)).
        fold (strip out). rewrite Hstrip, Hab. now rewrite !append_assoc. }
      split; [exact (Hend "")|]. split.
      * intros ->. exact (Hgit' a Ha Hab).
      * exact (Hend ".git").
  - rewrite Hg. destruct Ho as [Ho _]. destruct owner; [now destruct Ho|reflexivity].
Qed.

Lemma github_repo_match_shape s caps :
  Re.re_match GITHUB_REPO_RE s = Some caps ->
  exists prefix owner name suffix,
    s = prefix ++ owner ++ "/" ++ name ++ suffix
    /\ github_prefix prefix /\ repo_part owner /\ repo_part name
    /\ (suffix = "" \/ suffix = String newline "" \/ suffix = ".git"
        \/ suffix = ".git" ++ String newline "")
    /\ Re.group "1" caps = Some (owner ++ "/" ++ name).
Proof.
  unfold Re.re_match. intros H.
  apply run_sound in H as (s' & caps' & H & E). inversion E; subst caps'. clear E.
  unfold GITHUB_REPO_RE in H. cbn [seq_all matches] in H.
  destruct H as (m1 & c1 & (-> & -> & _) & H).
  destruct H as (m2 & c2 & Hprefix & H).
  destruct H as (m3 & c3 & (c & Hgroup & ->) & H).
  destruct Hgroup as (m4 & c4 & (owner & -> & Ho & Ho1 & ->) & Hgroup).
  destruct Hgroup as (m5 & c5 & (-> & ->) & (name & -> & Hn & Hn1 & ->)).
  destruct H as (m6 & c6 & Hgit & (-> & -> & Hend)).
  apply nonempty_length in Ho1, Hn1.
  assert (Htake : take (String.length (owner ++ "/" ++ name ++ m3) - String.length m3)
                    (owner ++ "/" ++ name ++ m3) = owner ++ "/" ++ name).
  { replace (owner ++ "/" ++ name ++ m3) with ((owner ++ "/" ++ name) ++ m3)
      by (now rewrite !append_assoc).
    apply take_append. }
  assert (Hsuffix : m3 = "" \/ m3 = String newline "" \/ m3 = ".git"
                    \/ m3 = ".git" ++ String newline "").
  { destruct Hgit as [(-> & _)|(-> & _)]; destruct Hend as [->| ->]; cbn [append]; auto. }
  destruct Hprefix as [(-> & _)|(-> & _)].
  - exists "git@github.com:", owner, name, m3.
    split; [reflexivity|]. split; [now left|]. split; [now split|].
    split; [now split|]. split; [exact Hsuffix|].
    destruct Hgit as [(_ & ->)|(_ & ->)]; cbn [Re.group Re.set_group];
      change ("1" =? "1") with true; cbv iota; now rewrite Htake.
  - exists "https://github.com/", owner, name, m3.
    split; [reflexivity|]. split; [now right|]. split; [now split|].
    split; [now split|]. split; [exact Hsuffix|].
    destruct Hgit as [(_ & ->)|(_ & ->)]; cbn [Re.group Re.set_group];
      change ("1" =? "1") with true; cbv iota; now rewrite Htake.
Qed.

(** X2: an inferred repo is empty, or it is the owner and the name of a
    GitHub remote that [git] printed: two parts that are not empty and hold
    no slash, with one slash between them.  A remote of another host, or
    with more path components, gives the empty repo. *)
Theorem infer_repo_shape w :
  infer_repo_from_git w = ""
  \/ exists out prefix owner name suffix,
       git_origin w = Some out
       /\ strip out = prefix ++ owner ++ "/" ++ name ++ suffix
       /\ github_prefix prefix /\ repo_part owner /\ repo_part name
       /\ (suffix = "" \/ suffix = ".git")
       /\ infer_repo_from_git w = owner ++ "/" ++ name.
Proof.
  unfold infer_repo_from_git.
  destruct (git_origin w) as [out|]; [|now left].
  destruct (Re.re_match GITHUB_REPO_RE (strip out)) as [caps|] eqn:E; [|now left].
  right.
  destruct (github_repo_match_shape _ _ E)
    as (prefix & owner & name & suffix & Hs & Hp & Ho & Hn & Hsuffix & Hg).
  assert (Hlast : forall pre, strip out <> pre ++ String newline "").
  { intros pre Hpre. apply rstrip_last in Hpre. discriminate Hpre. }
  exists out, prefix, owner, name, suffix.
  repeat split; try assumption; try (now destruct Ho); try (now destruct Hn).
  - destruct Hsuffix as [->|[->|[->| ->]]]; auto; exfalso.
    + apply (Hlast (prefix ++ owner ++ "/" ++ name)). rewrite Hs.
      now rewrite !append_assoc.
    + apply (Hlast (prefix ++ owner ++ "/" ++ name ++ ".git")). rewrite Hs.
      now rewrite !append_assoc.
  - rewrite Hg. destruct Ho as [Ho _]. destruct owner; [now destruct Ho|reflexivity].
Qed.

Lemma record_wheels_steps sha args manifest repo w :
  record_wheels sha args manifest repo w
  = match collect_wheels sha w (wheels args) (tag args) with
    | inl f => (inl f, w)
    | inr records =>
        match existing_keys manifest with
        | inl f => (inl f, w)
        | inr existing =>
            match check_new existing records with
            | inl f => (inl f, w)
            | inr _ =>
                match updated_manifest manifest repo records with
                | inl f => (inl f, w)
                | inr manifest' => run_generate_index (with_manifest manifest' w)
                end
            end
        end
    end.
Proof.
  unfold record_wheels, existing_keys. rewrite cbind_read.
  destruct (collect_wheels sha w (wheels args) (tag args)) as [f|records];
    [reflexivity|].
  rewrite cbind_lift.
  destruct (py_get manifest "wheels" (JArr [])) as [f|v]; [reflexivity|].
  rewrite cbind_lift. cbn [bind].
  destruct (py_iter v) as [f|entries]; [reflexivity|].
  rewrite cbind_lift. cbn [bind].
  destruct (mapM existing_key entries) as [f|existing]; [reflexivity|].
  rewrite cbind_lift.
  destruct (check_new existing records) as [f|u]; [reflexivity|].
  rewrite cbind_lift.
  destruct (updated_manifest manifest repo records) as [f|manifest'];
    reflexivity.
Qed.

Lemma main_run_of sha args w :
  run_of sha args w (fst (main sha args w)) (snd (main sha args w)).
Proof.
  rewrite main_unfold.
  destruct (missing_paths w (wheels args)) as [|m ms] eqn:Hm.
  2:{ rewrite <- Hm. cbn [fst snd]. apply missing_files. rewrite Hm. discriminate. }
  rewrite publish_existing_unfold.
  destruct (load_manifest w) as [f|manifest] eqn:Hload.
  - destruct (ensure_repo (or_else (repo args) "") (infer_repo_from_git w))
      as [f'|repo] eqn:He.
    + now apply repo_conflict_early.
    + destruct (nonempty repo) eqn:Hn; cbn [negb fst snd].
      * apply nonempty_true in Hn. now apply (manifest_unreadable sha args w repo).
      * apply nonempty_false in Hn. subst repo. now apply repo_unresolved.
  - destruct (resolved_repo args w manifest) as [f|repo] eqn:Hr.
    + now apply (repo_refused sha args w manifest).
    + destruct (gh_succeeds w (release_call args)) eqn:Hg.
      2:{ now apply (release_failed sha args w manifest repo). }
      rewrite record_wheels_steps.
      set (w1 := add_release (release_call args) w).
      assert (Hc1 : collect_wheels sha w1 (wheels args) (tag args)
                    = collect_wheels sha w (wheels args) (tag args)) by reflexivity.
      rewrite Hc1.
      destruct (collect_wheels sha w (wheels args) (tag args)) as [f|records] eqn:Hc.
      { now apply (wheels_refused sha args w manifest repo). }
      destruct (existing_keys manifest) as [f|existing] eqn:He.
      { now apply (manifest_refused sha args w manifest repo records). }
      destruct (check_new existing records) as [f|[]] eqn:Hn.
      { now apply (wheel_recorded sha args w manifest repo records existing). }
      destruct (updated_manifest manifest repo records) as [f|manifest'] eqn:Hu.
      { now apply (update_refused sha args w manifest repo records existing). }
      now apply (manifest_written sha args w manifest repo records existing manifest').
Qed.

(** ** Runs of the publisher, step by step *)

(** *** The failures of each step *)

Lemma ensure_repo_err a b f : ensure_repo a b = Err f -> f = RepoConflict a b.
Proof.
  unfold ensure_repo.
  destruct (nonempty a && nonempty b && negb (a =? b)); [|discriminate].
  unfold Err. now intros [= <-].
Qed.

Lemma py_get_err v key default f :
  py_get v key default = Err f -> f = Uncaught AttributeError.
Proof.
  destruct v; cbn [py_get]; try (unfold Err; now intros [= <-]).
  destruct (dict_get key members); discriminate.
Qed.

Lemma resolved_repo_err args w manifest f :
  resolved_repo args w manifest = Err f ->
  (exists a b, f = RepoConflict a b) \/ f = RepoUnresolved
  \/ f = Uncaught AttributeError.
Proof.
  unfold resolved_repo.
  destruct (ensure_repo (or_else (repo args) "") (infer_repo_from_git w))
    as [f1|r1] eqn:E1; cbn [bind].
  { apply ensure_repo_err in E1. unfold Err. intros [= <-]. left. eauto. }
  destruct (nonempty r1) eqn:Hn; cbn [negb].
  2:{ unfold Err. intros [= <-]. auto. }
  destruct (py_get manifest "repo" (JStr "")) as [f0|v] eqn:Ev; cbn [bind].
  { apply py_get_err in Ev. unfold Err. intros [= <-]. auto. }
  destruct (ensure_repo _ r1) as [f2|r2] eqn:E2; cbn [bind].
  { apply ensure_repo_err in E2. unfold Err. intros [= <-]. left. eauto. }
  apply ensure_repo_ok in E2.
  assert (Hr2 : nonempty r2 = true).
  { apply nonempty_true in Hn.
    destruct E2 as [(_ & -> & _)|(E2 & _)]; [now apply nonempty_true|contradiction]. }
  rewrite Hr2. discriminate.
Qed.

Lemma load_manifest_err w f :
  load_manifest w = Err f -> f = ManifestCorrupt \/ f = Unmodelled.
Proof.
  unfold load_manifest, decode_manifest.
  destruct (manifest_file w) as [text|]; [|discriminate].
  destruct (json_loads text); unfold Err; intros [= <-]; auto.
Qed.

Lemma collect_wheel_err sha w tag path f :
  collect_wheel sha w tag path = Err f ->
  (Re.re_match WHEEL_NAME_RE (path_name path) = None
   /\ f = InvalidArtifactName (path_name path))
  \/ f = Uncaught OSError.
Proof.
  unfold collect_wheel, st_size, sha256_file.
  destruct (Re.re_match WHEEL_NAME_RE (path_name path)).
  - destruct (fs w (path_str path)); cbn [bind]; unfold Err; intros [= <-]; auto.
  - unfold Err. intros [= <-]. auto.
Qed.

Lemma collect_wheels_err sha w paths tag f :
  collect_wheels sha w paths tag = Err f ->
  (exists path, In path paths
                /\ Re.re_match WHEEL_NAME_RE (path_name path) = None
                /\ f = InvalidArtifactName (path_name path))
  \/ f = Uncaught OSError.
Proof.
  unfold collect_wheels. induction paths as [|p paths IH]; [discriminate|].
  cbn [mapM]. destruct (collect_wheel sha w tag p) as [f1|record] eqn:E; cbn [bind].
  - unfold Err. intros [= <-]. apply collect_wheel_err in E as [[E1 E2]|E]; [|now right].
    left. exists p. repeat split; [now left|exact E1|exact E2].
  - destruct (mapM (collect_wheel sha w tag) paths) as [f2|rest]; [|discriminate].
    cbn [bind]. intros H. destruct (IH H) as [(path & Hin & H1 & H2)|H']; [|now right].
    left. exists path. repeat split; [now right|exact H1|exact H2].
Qed.

Lemma existing_key_err entry f :
  existing_key entry = Err f -> exists e, f = Uncaught e.
Proof.
  unfold existing_key.
  destruct (py_get entry "release_tag" JNull) as [f1|rt] eqn:E1; cbn [bind].
  { apply py_get_err in E1. unfold Err. intros [= <-]. eauto. }
  destruct (py_get entry "filename" JNull) as [f2|fn] eqn:E2; cbn [bind].
  { apply py_get_err in E2. unfold Err. intros [= <-]. eauto. }
  destruct rt, fn; unfold Err, Ok; intros [= <-]; eauto.
Qed.

Lemma mapM_err {A B} (f : A -> result B) l e :
  mapM f l = Err e -> exists x, In x l /\ f x = Err e.
Proof.
  induction l as [|x l IH]; [discriminate|].
  cbn [mapM]. destruct (f x) as [e1|y] eqn:E; cbn [bind].
  - unfold Err. intros [= <-]. exists x. split; [now left|exact E].
  - destruct (mapM f l) as [e2|ys]; [|discriminate]. cbn [bind].
    intros H. destruct (IH H) as (z & Hz & Hfz). exists z. split; [now right|exact Hfz].
Qed.

Lemma existing_keys_err manifest f :
  existing_keys manifest = Err f -> exists e, f = Uncaught e.
Proof.
  unfold existing_keys.
  destruct (py_get manifest "wheels" (JArr [])) as [f1|v] eqn:E1; cbn [bind].
  { apply py_get_err in E1. unfold Err. intros [= <-]. eauto. }
  destruct (py_iter v) as [f2|entries] eqn:E2; cbn [bind].
  { destruct v; cbn in E2; try discriminate;
      unfold Err in *; injection E2 as <-; intros [= <-]; eauto. }
  intros H. apply mapM_err in H as (x & _ & H). now apply existing_key_err in H.
Qed.

Lemma check_new_err existing records f :
  check_new existing records = Err f ->
  exists record,
    In record records
    /\ in_existing (release_tag record) (filename record) existing = true
    /\ f = DuplicateArtifact (filename record) (release_tag record).
Proof.
  induction records as [|r records IH]; [discriminate|].
  cbn [check_new].
  destruct (in_existing (release_tag r) (filename r) existing) eqn:E.
  - unfold Err. intros [= <-]. exists r. repeat split; [now left|exact E].
  - intros H. destruct (IH H) as (r' & Hin & H1 & H2).
    exists r'. repeat split; [now right|exact H1|exact H2].
Qed.

Lemma entry_key_err entry f :
  entry_key entry = Err f -> (exists e, f = Uncaught e) \/ f = Unmodelled.
Proof.
  unfold entry_key, subscript.
  destruct entry as [| | | | |members]; cbn [bind];
    try (unfold Err; intros [= <-]; now eauto).
  destruct (dict_get "package" members) as [p|]; cbn [bind];
    [|unfold Err; intros [= <-]; now eauto].
  destruct (dict_get "version" members) as [v|]; cbn [bind];
    [|unfold Err; intros [= <-]; now eauto].
  destruct (dict_get "filename" members) as [n|]; cbn [bind];
    [|unfold Err; intros [= <-]; now eauto].
  destruct p, v, n; unfold Err, Ok; intros [= <-]; auto.
Qed.

Lemma sort_wheels_err entries f :
  sort_wheels entries = Err f -> (exists e, f = Uncaught e) \/ f = Unmodelled.
Proof.
  unfold sort_wheels.
  destruct (mapM _ entries) as [f1|keyed] eqn:E; cbn [bind]; [|discriminate].
  unfold Err. intros [= <-]. apply mapM_err in E as (x & _ & E).
  destruct (entry_key x) as [f2|k] eqn:Ek; cbn [bind] in E; [|discriminate].
  unfold Err in E. injection E as <-. now apply entry_key_err in Ek.
Qed.

Lemma updated_manifest_err manifest repo records f :
  updated_manifest manifest repo records = Err f ->
  (exists e, f = Uncaught e) \/ f = Unmodelled.
Proof.
  unfold updated_manifest.
  destruct manifest as [| | | | |members];
    try (unfold Err; intros [= <-]; now eauto).
  set (members1 := dict_set "repo" (JStr repo) members).
  set (members2 := match dict_get "wheels" members1 with
                   | Some _ => members1
                   | None => dict_set "wheels" (JArr []) members1
                   end).
  destruct (dict_get "wheels" members2) as [[| | | |entries|]|];
    try (unfold Err; intros [= <-]; now eauto).
  destruct (sort_wheels _) as [f1|sorted] eqn:E; cbn [bind]; [|discriminate].
  unfold Err. intros [= <-]. now apply sort_wheels_err in E.
Qed.

Lemma run_generate_index_err w f :
  fst (run_generate_index w) = Err f ->
  f = Uncaught CalledProcessError \/ f = Unmodelled.
Proof.
  unfold run_generate_index.
  destruct (GenerateIndex.main w) as [[[]|u] w']; cbn [fst]; unfold Err;
    intros [= <-]; auto; discriminate.
Qed.

Ltac run_cases sha args w H :=
  let r := fresh "r" in
  let w' := fresh "w'" in
  let Er := fresh "Er" in
  let Ew := fresh "Ew" in
  pose proof (main_run_of sha args w) as H;
  remember (fst (main sha args w)) as r eqn:Er;
  remember (snd (main sha args w)) as w' eqn:Ew;
  destruct H.

(** X3: when a path of the batch does not exist, [main] stops with the
    message that lists the paths that do not exist, in the order of the
    command line, and leaves everything as it was: no release, no write. *)
Theorem publish_missing_files sha args w path :
  In path (wheels args) -> path_exists w path = false ->
  main sha args w = (Err (MissingArtifact (missing_paths w (wheels args))), w)
  /\ In (path_str path) (missing_paths w (wheels args)).
Proof.
  intros Hin Hex.
  assert (Hm : In (path_str path) (missing_paths w (wheels args))).
  { unfold missing_paths. apply in_map, filter_In. split; [exact Hin|].
    now rewrite Hex. }
  split; [|exact Hm]. rewrite main_unfold.
  destruct (missing_paths w (wheels args)); [contradiction|reflexivity].
Qed.

Lemma run_generate_index_frame w :
  let w' := snd (run_generate_index w) in
  manifest_file w' = manifest_file w /\ releases w' = releases w.
Proof.
  cbv zeta. split; [apply run_generate_index_keeps_manifest|].
  unfold run_generate_index, GenerateIndex.main, GenerateIndex.build_dist.
  rewrite cbind_assoc, cbind_read.
  destruct (GenerateIndex.load_manifest w) as [f|[repo wheels]].
  { destruct f; reflexivity. }
  assert (G : forall c : cmd Z,
            c = (change clear_dist ;;;
                 index_html <~ lift (GenerateIndex.render_index wheels) ;;
                 change (set_index_html (Some index_html)) ;;;
                 ret (Z.of_nat (List.length wheels))) ->
            releases (snd (let (r, w') := (wheel_count <~ c ;; ret tt) w in
                           match r with
                           | inl Unmodelled => (Err Unmodelled, w')
                           | inl _ => (Err (Uncaught CalledProcessError), w')
                           | inr _ => (Ok tt, w')
                           end)) = releases w).
  { intros c ->. rewrite cbind_assoc, cbind_change, cbind_assoc, cbind_lift.
    destruct (GenerateIndex.render_index wheels) as [f|html]; [destruct f|];
      reflexivity. }
  destruct wheels as [|wheel wheels]; [now apply G|].
  destruct (GenerateIndex.nonempty repo); [now apply G|reflexivity].
Qed.

(** X4: whenever [main] exits with one of its messages (a [SystemExit]),
    [wheels.json] and the index are as they were before the run. *)
Theorem publish_exit_keeps_manifest sha args w message :
  fst (main sha args w) = Err (SystemExit message) ->
  manifest_file (snd (main sha args w)) = manifest_file w
  /\ index_html (snd (main sha args w)) = index_html w.
Proof.
  intros Hexit. run_cases sha args w H; try (split; reflexivity).
  exfalso. apply run_generate_index_err in Hexit as [E|E]; discriminate E.
Qed.

Lemma append_inj_r c : forall a b, a ++ c = b ++ c -> a = b.
Proof.
  intros a b H.
  assert (Hlen : String.length a = String.length b).
  { apply (f_equal String.length) in H. rewrite !length_append in H. lia. }
  revert b H Hlen. induction a as [|x a IH]; intros [|y b] H Hlen;
    try discriminate Hlen; [reflexivity|].
  cbn [append] in H. injection H as -> H. f_equal. apply IH; [exact H|].
  now injection Hlen.
Qed.

(** X5: the file names and the duplicates are checked after the release is
    created.  When [main] stops on a file name that the pattern does not
    match, or on a wheel that the manifest already records, the release
    command has been run with success, the release is the only change, and
    the name in the message is the name of a file of the batch. *)
Theorem publish_checks_after_release sha args w name :
  fst (main sha args w) = Err (InvalidArtifactName name)
  \/ fst (main sha args w) = Err (DuplicateArtifact name (tag args)) ->
  snd (main sha args w) = add_release (release_call args) w
  /\ gh_succeeds w (release_call args) = true
  /\ In name (map path_name (wheels args)).
Proof.
  intros Hexit. run_cases sha args w H.
  - exfalso. destruct Hexit as [E|E]; discriminate E.
  - exfalso. apply ensure_repo_err in H0. subst f.
    destruct Hexit as [E|E]; discriminate E.
  - exfalso. destruct Hexit as [E|E]; discriminate E.
  - exfalso. apply load_manifest_err in H2 as [->| ->];
      destruct Hexit as [E|E]; discriminate E.
  - exfalso. apply resolved_repo_err in H1 as [(a & b & ->)|[->| ->]];
      destruct Hexit as [E|E]; discriminate E.
  - exfalso. destruct Hexit as [E|E]; discriminate E.
  - split; [reflexivity|]. split; [assumption|].
    apply collect_wheels_err in H3 as [(path & Hin & _ & ->)| ->].
    + destruct Hexit as [E|E]; [|discriminate E].
      unfold InvalidArtifactName, Err in E. injection E as E.
      rewrite <- E. now apply in_map.
    + destruct Hexit as [E|E]; discriminate E.
  - exfalso. apply existing_keys_err in H4 as (e & ->).
    destruct Hexit as [E|E]; discriminate E.
  - split; [reflexivity|]. split; [assumption|].
    apply check_new_err in H5 as (record & Hin & _ & ->).
    destruct Hexit as [E|E]; [discriminate E|].
    destruct (collect_wheels_records sha _ _ _ _ H3) as [Hnames Htags].
    rewrite Forall_forall in Htags. rewrite (Htags record Hin) in E.
    unfold DuplicateArtifact, Err in E. injection E as E.
    apply (append_inj_r (" (" ++ tag args ++ ")")) in E.
    rewrite <- E, <- Hnames. now apply in_map.
  - exfalso. apply updated_manifest_err in H6 as [(e & ->)| ->];
      destruct Hexit as [E|E]; discriminate E.
  - exfalso. destruct Hexit as [E|E];
      apply run_generate_index_err in E as [E|E]; discriminate E.
Qed.

(** X6: [main] never exits with the message of its second check of the
    repo, "Repo must be set in wheels.json or provided via --repo.": a run
    that reaches that check has a repo. *)
Theorem publish_never_repo_unset sha args w :
  fst (main sha args w) <> Err RepoUnset.
Proof.
  intros Hexit. run_cases sha args w H.
  - discriminate Hexit.
  - apply ensure_repo_err in H0. subst f. discriminate Hexit.
  - discriminate Hexit.
  - apply load_manifest_err in H2 as [->| ->]; discriminate Hexit.
  - apply resolved_repo_err in H1 as [(a & b & ->)|[->| ->]]; discriminate Hexit.
  - discriminate Hexit.
  - apply collect_wheels_err in H3 as [(path & _ & _ & ->)| ->]; discriminate Hexit.
  - apply existing_keys_err in H4 as (e & ->). discriminate Hexit.
  - apply check_new_err in H5 as (record & _ & _ & ->). discriminate Hexit.
  - apply updated_manifest_err in H6 as [(e & ->)| ->]; discriminate Hexit.
  - apply run_generate_index_err in Hexit as [E|E]; discriminate E.
Qed.

(** X7: a run of [main] creates at most one release, with the tag, the
    paths, the title (the tag when none is given) and the notes of the
    command line.  A run that succeeds has created it; the manifest or the
    index change only when the release command has succeeded; and when the
    release command fails the run stops with [CalledProcessError] and
    nothing else is done. *)
Theorem publish_release_call sha args w :
  let done := main sha args w in
  (releases (snd done) = releases w
   \/ releases (snd done) = release_call args :: releases w)
  /\ (fst done = Ok tt -> releases (snd done) = release_call args :: releases w)
  /\ (manifest_file (snd done) <> manifest_file w
      \/ index_html (snd done) <> index_html w ->
      releases (snd done) = release_call args :: releases w
      /\ gh_succeeds w (release_call args) = true)
  /\ (releases (snd done) <> releases w ->
      gh_succeeds w (release_call args) = false ->
      done = (Err (Uncaught CalledProcessError), add_release (release_call args) w)).
Proof.
  cbv zeta. run_cases sha args w H;
    try (split; [now left|]; split; [discriminate|]; split;
         [intros [E|E]; now destruct E|intros E; now destruct E]);
    try (split; [now right|]; split; [reflexivity|]; split;
         [split; [reflexivity|assumption]|intros _ E; congruence]).
  - split; [now right|]. split; [reflexivity|]. split; [intros [E|E]; now destruct E|].
    intros _ _. rewrite (surjective_pairing (main sha args w)), <- Er, <- Ew.
    reflexivity.
  - destruct (run_generate_index_frame w1) as [_ Hr]. cbv zeta in Hr.
    rewrite Hr. split; [now right|]. split; [reflexivity|].
    split; [split; [reflexivity|assumption]|intros _ E; congruence].
Qed.

(** X8: two sources of the repo that differ stop the run before a release
    is created.  When the flag and the remote differ, the exit is the
    conflict of these two (its message calls the flag the manifest repo and
    the remote the CLI repo); when the manifest holds a repo that differs
    from the flag or from the remote, the exit is a conflict of two repos
    that differ, and the world is as it was. *)
Theorem publish_conflicting_repos sha args w :
  let flag := or_else (repo args) "" in
  let inferred := infer_repo_from_git w in
  Forall (fun path => path_exists w path = true) (wheels args) ->
  (flag <> "" /\ inferred <> "" /\ flag <> inferred
   -> main sha args w = (Err (RepoConflict flag inferred), w))
  /\ (forall manifest v,
        load_manifest w = Ok manifest ->
        py_get manifest "repo" (JStr "") = Ok v ->
        let stored := strip (py_str v) in
        stored <> "" ->
        (flag <> "" /\ flag <> stored) \/ (inferred <> "" /\ inferred <> stored) ->
        snd (main sha args w) = w
        /\ exists a b, a <> "" /\ b <> "" /\ a <> b
                       /\ fst (main sha args w) = Err (RepoConflict a b)).
Proof.
  intros flag inferred Hfiles.
  apply missing_paths_none in Hfiles.
  split.
  - intros (Hf & Hi & Hne). rewrite main_unfold, Hfiles, publish_existing_unfold.
    fold flag inferred. rewrite (ensure_repo_conflict flag inferred Hf Hi Hne).
    destruct (load_manifest w) as [f|manifest]; [reflexivity|].
    unfold resolved_repo. fold flag inferred.
    now rewrite (ensure_repo_conflict flag inferred Hf Hi Hne).
  - intros manifest v Hload Hv stored Hs Hdiff.
    rewrite main_unfold, Hfiles, publish_existing_unfold, Hload.
    cbv beta iota delta [Ok].
    unfold resolved_repo. fold flag inferred.
    destruct (ensure_repo flag inferred) as [f|r1] eqn:E1; cbn [bind].
    { split; [reflexivity|]. unfold ensure_repo in E1.
      destruct (nonempty flag) eqn:Hf; [|discriminate].
      destruct (nonempty inferred) eqn:Hi; [|discriminate].
      destruct (String.eqb_spec flag inferred) as [|Hne]; [discriminate|].
      cbn in E1. unfold Err in E1. injection E1 as <-.
      apply nonempty_true in Hf, Hi. exists flag, inferred. auto. }
    apply ensure_repo_ok in E1.
    assert (Hr : r1 <> "" /\ stored <> r1).
    { destruct E1 as [(E1 & -> & E3)|(E1 & ->)];
        destruct Hdiff as [(H1 & H2)|(H1 & H2)];
        try contradiction; try (destruct E3; [contradiction|]);
        split; congruence. }
    destruct Hr as [Hr Hsr]. apply nonempty_true in Hr as Hn. rewrite Hn.
    cbn [negb]. rewrite Hv. cbv beta iota delta [bind Ok]. fold stored.
    rewrite (ensure_repo_conflict stored r1 Hs Hr Hsr).
    split; [reflexivity|]. exists stored, r1. auto.
Qed.

(** ** Decoded values have distinct keys *)

Lemma dict_set_keys k v d :
  keys (dict_set k v d) = if existsb (String.eqb k) (keys d) then keys d
                          else (keys d ++ [k])%list.
Proof.
  induction d as [|[k' w] d IH]; [reflexivity|].
  cbn [dict_set keys map fst existsb].
  destruct (String.eqb_spec k' k) as [->|Hne].
  - now rewrite String.eqb_refl.
  - destruct (String.eqb_spec k k') as [->|_]; [contradiction|].
    cbn [orb map fst]. fold (keys d). fold (keys (dict_set k v d)). rewrite IH.
    now destruct (existsb (String.eqb k) (keys d)).
Qed.

Lemma dict_set_nodup k v d : NoDup (keys d) -> NoDup (keys (dict_set k v d)).
Proof.
  intros H. rewrite dict_set_keys.
  destruct (existsb (String.eqb k) (keys d)) eqn:E; [exact H|].
  apply NoDup_app; [exact H|repeat constructor; intros []|].
  intros x Hx [Ek|[]]. subst x.
  assert (Ex : existsb (String.eqb k) (keys d) = true); [|congruence].
  apply existsb_exists. exists k. split; [exact Hx|apply String.eqb_refl].
Qed.

Lemma dict_set_forall (P : json -> Prop) k v d :
  P v -> Forall (fun kv => P (snd kv)) d ->
  Forall (fun kv => P (snd kv)) (dict_set k v d).
Proof.
  intros Hv. induction d as [|[k' w] d IH]; intros Hd; cbn [dict_set].
  - now repeat constructor.
  - inversion Hd as [|? ? Hw Hd']; subst.
    destruct (String.eqb k' k); constructor; auto.
Qed.

Lemma dict_of_pairs_wf pairs :
  Forall (fun kv => wf_json (snd kv)) pairs -> wf_json (JObj (dict_of_pairs pairs)).
Proof.
  intros H. apply wf_json_obj. unfold dict_of_pairs.
  enough (G : forall acc,
            NoDup (keys acc) /\ Forall (fun kv => wf_json (snd kv)) acc ->
            NoDup (keys (fold_left (fun d kv => dict_set (fst kv) (snd kv) d) pairs acc))
            /\ Forall (fun kv => wf_json (snd kv))
                 (fold_left (fun d kv => dict_set (fst kv) (snd kv) d) pairs acc)).
  { apply G. split; constructor. }
  induction H as [|[k v] pairs Hv Hpairs IH]; intros acc [Hn Hf]; [now split|].
  cbn [fold_left fst snd]. apply IH. split.
  - now apply dict_set_nodup.
  - now apply dict_set_forall.
Qed.

Lemma scan_atom_wf s v rest : scan_atom s = Parsed (v, rest) -> wf_json v.
Proof.
  unfold scan_atom.
  destruct (strip_prefix "null" s); [intros [= <- _]; exact I|].
  destruct (strip_prefix "true" s); [intros [= <- _]; exact I|].
  destruct (strip_prefix "false" s); [intros [= <- _]; exact I|].
  destruct (match_integer s) as [[d r]|].
  - destruct (has_frac_or_exp r); [discriminate|]. intros [= <- _]. exact I.
  - destruct (strip_prefix "NaN" s), (strip_prefix "Infinity" s),
      (strip_prefix "-Infinity" s); discriminate.
Qed.

Lemma scan_wf fuel :
  (forall s v rest, scan_once fuel s = Parsed (v, rest) -> wf_json v)
  /\ (forall s vs rest, scan_items fuel s = Parsed (vs, rest) -> Forall wf_json vs)
  /\ (forall s kvs rest, scan_members fuel s = Parsed (kvs, rest) ->
        Forall (fun kv => wf_json (snd kv)) kvs).
Proof.
  induction fuel as [|fuel (IHonce & IHitems & IHmembers)];
    [repeat split; discriminate|].
  split; [|split].
  - intros s v rest. cbn [scan_once]. destruct s as [|c t]; [discriminate|].
    destruct (Ascii.eqb c dquote).
    { destruct (scanstring t) as [[str r]| | |]; try discriminate.
      cbn [pbind]. intros [= <- _]. exact I. }
    destruct (Ascii.eqb c "{").
    { destruct (strip_prefix "}" (skip_ws t)); [intros [= <- _]; cbn; split; constructor|].
      destruct (scan_members fuel (skip_ws t)) as [[pairs r]| | |] eqn:E; try discriminate.
      cbn [pbind]. intros [= <- _]. apply dict_of_pairs_wf. exact (IHmembers _ _ _ E). }
    destruct (Ascii.eqb c "[").
    { destruct (strip_prefix "]" (skip_ws t)); [intros [= <- _]; exact I|].
      destruct (scan_items fuel (skip_ws t)) as [[items r]| | |] eqn:E; try discriminate.
      cbn [pbind]. intros [= <- _]. apply wf_json_arr. exact (IHitems _ _ _ E). }
    apply scan_atom_wf.
  - intros s vs rest. cbn [scan_items].
    destruct (scan_once fuel s) as [[v s1]| | |] eqn:E; try discriminate. cbn [pbind].
    destruct (strip_prefix "]" (skip_ws s1)).
    { intros [= <- _]. constructor; [exact (IHonce _ _ _ E)|constructor]. }
    destruct (strip_prefix "," (skip_ws s1)) as [s2|]; [|discriminate].
    destruct (scan_items fuel (skip_ws s2)) as [[vs' r]| | |] eqn:E2; try discriminate.
    cbn [pbind]. intros [= <- _].
    constructor; [exact (IHonce _ _ _ E)|exact (IHitems _ _ _ E2)].
  - intros s kvs rest. cbn [scan_members].
    destruct (strip_prefix (String dquote "") s) as [t|]; [|discriminate].
    destruct (scanstring t) as [[key s1]| | |]; try discriminate. cbn [pbind].
    destruct (strip_prefix ":" (skip_ws s1)) as [s2|]; [|discriminate].
    destruct (scan_once fuel (skip_ws s2)) as [[v s3]| | |] eqn:E; try discriminate.
    cbn [pbind].
    destruct (strip_prefix "}" (skip_ws s3)).
    { intros [= <- _]. constructor; [exact (IHonce _ _ _ E)|constructor]. }
    destruct (strip_prefix "," (skip_ws s3)) as [s4|]; [|discriminate].
    destruct (scan_members fuel (skip_ws s4)) as [[kvs' r]| | |] eqn:E2; try discriminate.
    cbn [pbind]. intros [= <- _].
    constructor; [exact (IHonce _ _ _ E)|exact (IHmembers _ _ _ E2)].
Qed.

(** X9: a value that [json.loads] returns has distinct keys in every
    object, also when the text repeats a key. *)
Theorem json_loads_distinct_keys text v :
  json_loads text = Parsed v -> wf_json v.
Proof.
  unfold json_loads.
  destruct (scan_once _ (skip_ws text)) as [[v' rest]| | |] eqn:E; try discriminate.
  cbn [pbind]. destruct (skip_ws rest); [|discriminate].
  intros [= <-]. exact (proj1 (scan_wf _) _ _ _ E).
Qed.

(** ** Runs of the publisher that succeed *)

Lemma main_ok sha args w :
  fst (main sha args w) = Ok tt ->
  exists manifest r records existing manifest',
    missing_paths w (wheels args) = []
    /\ load_manifest w = Ok manifest
    /\ resolved_repo args w manifest = Ok r
    /\ gh_succeeds w (release_call args) = true
    /\ collect_wheels sha w (wheels args) (tag args) = Ok records
    /\ existing_keys manifest = Ok existing
    /\ check_new existing records = Ok tt
    /\ updated_manifest manifest r records = Ok manifest'
    /\ main sha args w
       = run_generate_index (with_manifest manifest' (add_release (release_call args) w)).
Proof.
  intros Hok. run_cases sha args w H; try discriminate Hok.
  exists manifest, r, records, existing, manifest'.
  repeat (split; [assumption|]).
  rewrite (surjective_pairing (main sha args w)), <- Er, <- Ew.
  now rewrite <- surjective_pairing.
Qed.

Lemma record_json_wf record : wf_json (record_json record).
Proof.
  apply wf_json_obj. split.
  - cbn. repeat constructor; cbn; intuition discriminate.
  - repeat constructor.
Qed.

Lemma dict_get_forall (P : json -> Prop) k v d :
  Forall (fun kv => P (snd kv)) d -> dict_get k d = Some v -> P v.
Proof.
  intros Hd Hk. apply dict_get_some_in in Hk.
  rewrite Forall_forall in Hd. exact (Hd _ Hk).
Qed.

Lemma updated_manifest_wf manifest repo records manifest' :
  wf_json manifest -> updated_manifest manifest repo records = Ok manifest' ->
  wf_json manifest'.
Proof.
  unfold updated_manifest. intros Hwf.
  destruct manifest as [| | | | |members]; try discriminate.
  apply wf_json_obj in Hwf as [Hn Hf].
  set (members1 := dict_set "repo" (JStr repo) members).
  assert (H1 : NoDup (keys members1) /\ Forall (fun kv => wf_json (snd kv)) members1).
  { split; [now apply dict_set_nodup|now apply dict_set_forall]. }
  set (members2 := match dict_get "wheels" members1 with
                   | Some _ => members1
                   | None => dict_set "wheels" (JArr []) members1
                   end).
  assert (H2 : NoDup (keys members2) /\ Forall (fun kv => wf_json (snd kv)) members2).
  { unfold members2. destruct (dict_get "wheels" members1); [exact H1|].
    destruct H1. split; [now apply dict_set_nodup|now apply dict_set_forall]. }
  destruct (dict_get "wheels" members2) as [[| | | |entries|]|] eqn:Ew; try discriminate.
  destruct (sort_wheels _) as [f|sorted] eqn:Es; [discriminate|].
  cbn [bind]. unfold Ok. intros [= <-].
  destruct H2 as [H2n H2f].
  apply wf_json_obj. split; [now apply dict_set_nodup|].
  apply dict_set_forall; [|exact H2f].
  apply wf_json_arr. apply sort_wheels_perm in Es.
  apply (Permutation_Forall (Permutation_sym Es)).
  apply Forall_app. split.
  - apply wf_json_arr. exact (dict_get_forall wf_json _ _ _ H2f Ew).
  - apply Forall_forall. intros x Hx. apply in_map_iff in Hx as (r & <- & _).
    apply record_json_wf.
Qed.

Lemma load_manifest_wf w manifest : load_manifest w = Ok manifest -> wf_json manifest.
Proof.
  unfold load_manifest, decode_manifest.
  destruct (manifest_file w) as [text|].
  - unfold json_loads.
    destruct (scan_once _ (skip_ws text)) as [[v rest]| | |] eqn:E; try discriminate.
    cbn [pbind]. destruct (skip_ws rest); [|discriminate].
    unfold Ok. intros [= <-]. exact (proj1 (scan_wf _) _ _ _ E).
  - unfold Ok. intros [= <-]. apply wf_json_obj. split.
    + cbn. repeat constructor; cbn; intuition discriminate.
    + repeat constructor.
Qed.

Lemma load_with_manifest manifest w :
  wf_json manifest ->
  load_manifest (snd (run_generate_index (with_manifest manifest w)))
  = Ok (normalize manifest).
Proof.
  intros Hwf. unfold load_manifest.
  rewrite run_generate_index_keeps_manifest. cbn [with_manifest manifest_file set_manifest_file].
  now apply decode_manifest_dumps.
Qed.

Lemma updated_manifest_members manifest repo records manifest' :
  updated_manifest manifest repo records = Ok manifest' ->
  exists members entries sorted,
    manifest = JObj members
    /\ py_get manifest "wheels" (JArr []) = Ok (JArr entries)
    /\ sort_wheels (entries ++ map record_json records) = Ok sorted
    /\ manifest'
       = JObj (dict_set "wheels" (JArr sorted)
                 (match dict_get "wheels" (dict_set "repo" (JStr repo) members) with
                  | Some _ => dict_set "repo" (JStr repo) members
                  | None => dict_set "wheels" (JArr []) (dict_set "repo" (JStr repo) members)
                  end)).
Proof.
  unfold updated_manifest. destruct manifest as [| | | | |members]; try discriminate.
  set (members1 := dict_set "repo" (JStr repo) members).
  assert (H1 : dict_get "wheels" members1 = dict_get "wheels" members).
  { apply dict_get_set_other. discriminate. }
  rewrite py_get_obj.
  destruct (dict_get "wheels" members) as [v|] eqn:Ew; rewrite H1.
  - rewrite H1. destruct v as [| | | |entries|]; try discriminate.
    destruct (sort_wheels (entries ++ map record_json records)) as [f|sorted] eqn:Es;
      [discriminate|].
    cbn [bind]. unfold Ok at 1 2. intros [= <-].
    exists members, entries, sorted.
    split; [reflexivity|]. split; [reflexivity|]. split; [exact Es|]. fold members1. now rewrite H1.
  - rewrite dict_get_set_same.
    destruct (sort_wheels ([] ++ map record_json records)) as [f|sorted] eqn:Es;
      [discriminate|].
    cbn [bind]. unfold Ok at 1 2. intros [= <-].
    exists members, [], sorted.
    split; [reflexivity|]. split; [reflexivity|]. split; [exact Es|]. fold members1. now rewrite H1.
Qed.

Lemma updated_manifest_get manifest repo records manifest' key :
  updated_manifest manifest repo records = Ok manifest' ->
  py_get manifest' "repo" JNull = Ok (JStr repo)
  /\ (key <> "repo" -> key <> "wheels" ->
      forall default, py_get manifest' key default = py_get manifest key default).
Proof.
  intros H. apply updated_manifest_members in H
    as (members & entries & sorted & -> & _ & _ & ->).
  set (members1 := dict_set "repo" (JStr repo) members).
  assert (Hrepo : dict_get "repo" members1 = Some (JStr repo))
    by apply dict_get_set_same.
  split.
  - rewrite py_get_obj, dict_get_set_other by discriminate.
    destruct (dict_get "wheels" members1).
    + now rewrite Hrepo.
    + rewrite dict_get_set_other by discriminate. now rewrite Hrepo.
  - intros H1 H2 default. rewrite !py_get_obj.
    rewrite dict_get_set_other by congruence.
    destruct (dict_get "wheels" members1).
    + unfold members1. now rewrite dict_get_set_other by congruence.
    + rewrite dict_get_set_other by congruence.
      unfold members1. now rewrite dict_get_set_other by congruence.
Qed.

(** X10: a run of [main] that succeeds writes a manifest whose repo is the
    repo of the run: it is not empty, it is the flag or the remote, it is
    equal to each of the flag, the remote and the repo of the manifest that
    was read, unless that one is empty.  The manifest file holds the text of
    that manifest, and is loaded as it, with its keys in order. *)
Theorem publish_sets_repo sha args w :
  fst (main sha args w) = Ok tt ->
  exists manifest manifest' r v,
    load_manifest w = Ok manifest
    /\ py_get manifest "repo" (JStr "") = Ok v
    /\ manifest_file (snd (main sha args w))
       = Some (json_dumps manifest' ++ String newline "")
    /\ load_manifest (snd (main sha args w)) = Ok (normalize manifest')
    /\ py_get manifest' "repo" JNull = Ok (JStr r)
    /\ r <> ""
    /\ (or_else (repo args) "" = r \/ infer_repo_from_git w = r)
    /\ (or_else (repo args) "" = "" \/ or_else (repo args) "" = r)
    /\ (infer_repo_from_git w = "" \/ infer_repo_from_git w = r)
    /\ (strip (py_str v) = "" \/ strip (py_str v) = r).
Proof.
  intros Hok. apply main_ok in Hok
    as (manifest & r & records & existing & manifest'
        & _ & Hload & Hr & _ & _ & _ & _ & Hu & ->).
  destruct (resolved_repo_ok _ _ _ _ Hr) as (H1 & H2 & H3 & H4 & v & Hv & H5).
  exists manifest, manifest', r, v.
  split; [exact Hload|]. split; [exact Hv|].
  split; [apply run_generate_index_keeps_manifest|].
  split.
  { apply load_with_manifest. eapply updated_manifest_wf; [|exact Hu].
    now apply load_manifest_wf in Hload. }
  split; [exact (proj1 (updated_manifest_get _ _ _ _ "repo" Hu))|].
  auto.
Qed.

Lemma mapM_ok_forall2 {A B} (f : A -> result B) l r :
  mapM f l = Ok r -> Forall2 (fun x y => f x = Ok y) l r.
Proof.
  revert r. induction l as [|x l IH]; intros r H.
  - cbn in H. unfold Ok in H. injection H as <-. constructor.
  - apply mapM_cons_ok in H as (y & ys & Hy & Hys & ->). constructor; auto.
Qed.

Lemma mapM_of_forall {A B} (f : A -> result B) (g : A -> B) l :
  Forall (fun x => f x = Ok (g x)) l -> mapM f l = Ok (map g l).
Proof.
  induction 1 as [|x l Hx Hl IH]; [reflexivity|].
  cbn [mapM map]. now rewrite Hx, IH.
Qed.

Lemma sorted_map {A B} (R : A -> A -> Prop) (S : B -> B -> Prop) (g : A -> B) l :
  (forall a b, R a b -> S (g a) (g b)) -> Sorted R l -> Sorted S (map g l).
Proof.
  intros HRS. induction 1 as [|a l Hl IH Ha]; [constructor|].
  cbn [map]. constructor; [exact IH|].
  destruct Ha as [|b l Hab]; constructor. now apply HRS.
Qed.

Lemma key3_lt_asym a b : key3_lt a b = true -> key3_lt b a = false.
Proof.
  destruct a as [[a1 a2] a3], b as [[b1 b2] b3]. cbn [key3_lt].
  rewrite (String.compare_antisym a1 b1), (String.compare_antisym a2 b2).
  destruct (String.compare b1 a1); cbn [CompOpp]; try discriminate; [|reflexivity].
  destruct (String.compare b2 a2); cbn [CompOpp]; try discriminate; [|reflexivity].
  apply ltb_asym.
Qed.

(** the keys of the entries that [sort_wheels] returns do not go down *)
Lemma sort_wheels_sorted entries sorted :
  sort_wheels entries = Ok sorted ->
  exists keys, mapM entry_key sorted = Ok keys /\ Sorted (not_after key3_lt) keys.
Proof.
  unfold sort_wheels.
  destruct (mapM (fun entry => k <- entry_key entry ;; Ok (k, entry)) entries)
    as [f|keyed] eqn:E; [discriminate|].
  cbn [bind]. unfold Ok at 1. intros [= <-].
  set (lt := fun a b : key3 * json => key3_lt (fst a) (fst b)).
  assert (Hk : Forall (fun x => entry_key (snd x) = Ok (fst x)) keyed).
  { apply mapM_ok_forall2 in E. clear -E. induction E as [|e x l l' He Hl IH]; constructor; auto.
    destruct (entry_key e) as [f|k] eqn:Ek; [discriminate|].
    cbn [bind] in He. unfold Ok in He. injection He as <-. exact Ek. }
  exists (map fst (sort_by lt keyed)). split.
  - assert (Hs : Forall (fun x => entry_key (snd x) = Ok (fst x)) (sort_by lt keyed)).
    { apply (Permutation_Forall (Permutation_sym (sort_by_perm lt keyed))). exact Hk. }
    clear -Hs. induction Hs as [|x l Hx Hl IH]; [reflexivity|].
    cbn [map mapM]. rewrite Hx. cbn [bind]. now rewrite IH.
  - apply (sorted_map (not_after lt)); [intros a b H; exact H|].
    apply sort_by_sorted. intros a b. apply key3_lt_asym.
Qed.

(** X11: a run of [main] that succeeds writes a manifest whose wheels are
    the entries of the manifest that was read and the records of the batch,
    each one once, in the order of their keys (package, version, file name);
    the other keys of the manifest are kept as they were. *)
Theorem publish_records_wheels sha args w :
  fst (main sha args w) = Ok tt ->
  exists manifest manifest' entries records sorted keys,
    load_manifest w = Ok manifest
    /\ py_get manifest "wheels" (JArr []) = Ok (JArr entries)
    /\ collect_wheels sha w (wheels args) (tag args) = Ok records
    /\ manifest_file (snd (main sha args w))
       = Some (json_dumps manifest' ++ String newline "")
    /\ py_get manifest' "wheels" JNull = Ok (JArr sorted)
    /\ Permutation sorted (entries ++ map record_json records)
    /\ mapM entry_key sorted = Ok keys
    /\ Sorted (not_after key3_lt) keys
    /\ (forall key default, key <> "repo" -> key <> "wheels" ->
          py_get manifest' key default = py_get manifest key default).
Proof.
  intros Hok. apply main_ok in Hok
    as (manifest & r & records & existing & manifest'
        & _ & Hload & Hr & _ & Hc & _ & _ & Hu & ->).
  destruct (updated_manifest_members _ _ _ _ Hu)
    as (members & entries & sorted & Hm & Hw & Hs & Hm').
  destruct (sort_wheels_sorted _ _ Hs) as (keys & Hkeys & Hsorted).
  exists manifest, manifest', entries, records, sorted, keys.
  split; [exact Hload|]. split; [exact Hw|]. split; [exact Hc|].
  split; [apply run_generate_index_keeps_manifest|].
  split; [rewrite Hm', py_get_obj, dict_get_set_same; reflexivity|].
  split; [exact (sort_wheels_perm _ _ Hs)|].
  split; [exact Hkeys|]. split; [exact Hsorted|].
  intros key default H1 H2.
  exact (proj2 (updated_manifest_get _ _ _ _ key Hu) H1 H2 default).
Qed.

(** X12: after a run of [main] that succeeds, the index is the page of the
    manifest: the generator loads the wheels of the manifest file that the
    run has left, and [dist/index.html] holds their page. *)
Theorem publish_regenerates_index sha args w :
  fst (main sha args w) = Ok tt ->
  exists repo wheels html,
    GenerateIndex.load_manifest (snd (main sha args w)) = Ok (repo, wheels)
    /\ GenerateIndex.render_index wheels = Ok html
    /\ index_html (snd (main sha args w)) = Some html
    /\ (wheels = [] \/ repo <> "").
Proof.
  intros Hok. pose proof Hok as Hok'. apply main_ok in Hok'
    as (manifest & r & records & existing & manifest' & _ & _ & _ & _ & _ & _ & _ & _ & E).
  rewrite E in *. clear E.
  set (w1 := with_manifest manifest' (add_release (release_call args) w)) in *.
  clearbody w1. revert Hok.
  unfold run_generate_index, GenerateIndex.main, GenerateIndex.build_dist.
  rewrite cbind_assoc, cbind_read.
  destruct (GenerateIndex.load_manifest w1) as [f|[repo wheels]] eqn:Hload.
  { destruct f; discriminate. }
  assert (G : forall c : cmd Z,
            c = (change clear_dist ;;;
                 index_html <~ lift (GenerateIndex.render_index wheels) ;;
                 change (set_index_html (Some index_html)) ;;;
                 ret (Z.of_nat (List.length wheels))) ->
            let out := (let (r, w') := (wheel_count <~ c ;; ret tt) w1 in
                        match r with
                        | inl Unmodelled => (Err Unmodelled, w')
                        | inl _ => (Err (Uncaught CalledProcessError), w')
                        | inr _ => (Ok tt, w')
                        end) in
            fst out = Ok tt ->
            exists html,
              GenerateIndex.load_manifest (snd out) = Ok (repo, wheels)
              /\ GenerateIndex.render_index wheels = Ok html
              /\ index_html (snd out) = Some html).
  { intros c ->. cbv zeta.
    rewrite cbind_assoc, cbind_change, cbind_assoc, cbind_lift.
    destruct (GenerateIndex.render_index wheels) as [f|html]; [destruct f; discriminate|].
    intros _. exists html. repeat split. exact Hload. }
  destruct wheels as [|wheel wheels].
  - intros Hok. destruct (G _ eq_refl Hok) as (html & H1 & H2 & H3).
    exists repo, [], html. auto.
  - destruct (GenerateIndex.nonempty repo) eqn:Hn; [|discriminate].
    intros Hok. destruct (G _ eq_refl Hok) as (html & H1 & H2 & H3).
    exists repo, (wheel :: wheels), html. repeat split; auto.
    right. intros ->. discriminate Hn.
Qed.

(** ** Canonical names *)

Lemma canonicalize_again s :
  canonicalize_package_name (canonicalize_package_name s) = canonicalize_package_name s.
Proof.
  rewrite !canonicalize_refines. unfold canonicalize_spec.
  now rewrite collapse_lower, collapse_idem, lower_idem.
Qed.

Lemma lower_char_canonical c :
  is_sep c = false ->
  is_canonical_char (lower_char c) = true /\ Ascii.eqb (lower_char c) "-" = false.
Proof.
  destruct c as [[] [] [] [] [] [] [] []]; vm_compute; intros H;
    first [discriminate H | split; reflexivity].
Qed.

Lemma collapse_canonical s : forall b,
  all_chars is_canonical_char (lower (collapse b s)) = true
  /\ single_dashes b (lower (collapse b s)) = true.
Proof.
  induction s as [|c t IH]; intros b; [now split|].
  cbn [collapse]. destruct (is_sep c) eqn:E.
  - destruct b; [apply IH|].
    destruct (IH true) as [H1 H2]. cbn [lower all_chars single_dashes].
    change (lower_char "-") with "-"%char.
    change (is_canonical_char "-") with true.
    change (Ascii.eqb "-" "-") with true. cbn [andb negb]. now split.
  - destruct (IH false) as [H1 H2]. destruct (lower_char_canonical c E) as [H3 H4].
    cbn [lower all_chars single_dashes]. rewrite H3, H4. now split.
Qed.

Lemma single_dashes_spec a : forall p b,
  single_dashes p (a ++ String "-" (String "-" b)) = false.
Proof.
  induction a as [|c a IH]; intros p b.
  - cbn. now rewrite andb_false_r.
  - cbn [append single_dashes]. destruct (Ascii.eqb c "-"); [|apply IH].
    rewrite IH. apply andb_false_r.
Qed.

(** X13: a canonical name holds no [_], no [.] and no capital letter of
    ASCII, and no two dashes in a row; it is empty only for the empty name,
    and it is its own canonical name. *)
Theorem canonical_name_form s :
  let name := canonicalize_package_name s in
  all_chars is_canonical_char name = true
  /\ (forall a b, name <> a ++ "--" ++ b)
  /\ (name = "" <-> s = "")
  /\ canonicalize_package_name name = name.
Proof.
  cbv zeta. split; [|split; [|split]].
  - rewrite canonicalize_refines. apply collapse_canonical.
  - intros a b E.
    pose proof (proj2 (collapse_canonical s false)) as H.
    rewrite canonicalize_refines in E. unfold canonicalize_spec in E.
    rewrite E in H. cbn [append] in H. rewrite single_dashes_spec in H.
    discriminate H.
  - rewrite canonicalize_refines. unfold canonicalize_spec. split.
    + destruct s as [|c t]; [reflexivity|]. cbn [collapse].
      destruct (is_sep c); discriminate.
    + now intros ->.
  - apply canonicalize_again.
Qed.

(** ** The entries that the index generator loads *)

Lemma gen_nonempty_true s : GenerateIndex.nonempty s = true <-> s <> "".
Proof.
  unfold GenerateIndex.nonempty. destruct (String.eqb_spec s ""); cbn; split; congruence.
Qed.

Lemma keep_in {A} (l : list (option A)) x : In x (GenerateIndex.keep l) <-> In (Some x) l.
Proof.
  induction l as [|[y|] l IH]; cbn [GenerateIndex.keep In].
  - tauto.
  - rewrite IH. split; intros [H|H]; auto; left; congruence.
  - rewrite IH. split; [auto|]. intros [H|H]; [discriminate|exact H].
Qed.

Lemma load_item_some repo item entry :
  GenerateIndex.load_item repo item = Ok (Some entry) -> complete_entry repo entry.
Proof.
  unfold GenerateIndex.load_item, complete_entry.
  destruct (py_get item "filename" (JStr "")) as [f|v1]; [discriminate|]. cbn [bind].
  destruct (py_get item "release_tag" (JStr "")) as [f|v2]; [discriminate|]. cbn [bind].
  destruct (py_get item "package" (JStr "")) as [f|v3]; [discriminate|]. cbn [bind].
  destruct (py_get item "version" (JStr "")) as [f|v4]; [discriminate|]. cbn [bind].
  destruct (py_get item "size_bytes" (JInt 0)) as [f|v5]; [discriminate|]. cbn [bind].
  destruct (py_int v5) as [f|n]; [discriminate|]. cbn [bind].
  destruct (py_get item "sha256" (JStr "")) as [f|v6]; [discriminate|]. cbn [bind].
  destruct (GenerateIndex.nonempty (strip (py_str v1))) eqn:H1; [|discriminate].
  destruct (GenerateIndex.nonempty (canonicalize_package_name (strip (py_str v3))))
    eqn:H3; [|discriminate].
  destruct (GenerateIndex.nonempty (strip (py_str v4))) eqn:H4; [|discriminate].
  destruct (GenerateIndex.nonempty (strip (py_str v6))) eqn:H6; [|discriminate].
  destruct (GenerateIndex.nonempty (strip (py_str v2))) eqn:H2; [|discriminate].
  cbn [andb]. unfold Ok. intros [= <-]. cbn.
  apply gen_nonempty_true in H1, H2, H3, H4, H6.
  repeat (split; [assumption|]).
  split; [apply canonicalize_again|].
  exists (strip (py_str v2)). split; [exact H2|reflexivity].
Qed.

(** X14: the wheels that the generator loads are in the order of their keys
    (package, version, file name), and each of them is complete: its file
    name, package, version and digest are not empty, its package is
    canonical, and its url is the download url of the repo, a release tag
    that is not empty and the file name (the empty url when the repo is
    empty). *)
Theorem load_manifest_entries w repo wheels :
  GenerateIndex.load_manifest w = Ok (repo, wheels) ->
  Sorted (fun a b => not_after key3_lt (GenerateIndex.sort_key a) (GenerateIndex.sort_key b))
    wheels
  /\ Forall (complete_entry repo) wheels.
Proof.
  unfold GenerateIndex.load_manifest.
  destruct (manifest_file w) as [text|].
  2:{ unfold Ok. intros [= <- <-]. split; constructor. }
  destruct (decode_manifest text) as [f|manifest]; [discriminate|]. cbn [bind].
  destruct (py_get manifest "repo" (JStr "")) as [f|v]; [discriminate|]. cbn [bind].
  destruct (py_get manifest "wheels" (JArr [])) as [f|ws]; [discriminate|]. cbn [bind].
  destruct (py_iter ws) as [f|items]; [discriminate|]. cbn [bind].
  destruct (mapM _ items) as [f|entries] eqn:E; [discriminate|]. cbn [bind].
  unfold Ok at 1. intros [= <- <-]. split.
  - apply (sort_by_sorted
             (fun a b => key3_lt (GenerateIndex.sort_key a) (GenerateIndex.sort_key b))).
    intros a b. apply key3_lt_asym.
  - apply (Permutation_Forall (Permutation_sym (sort_by_perm _ _))).
    apply Forall_forall. intros entry Hin. apply keep_in in Hin.
    apply mapM_ok_forall2 in E.
    assert (Hitem : exists item, GenerateIndex.load_item (strip (py_str v)) item
                                 = Ok (Some entry)).
    { clear -E Hin. induction E as [|x y l l' Hxy Hl IH]; [contradiction|].
      destruct Hin as [->|Hin]; [now exists x|auto]. }
    destruct Hitem as (item & Hitem). exact (load_item_some _ _ _ Hitem).
Qed.

(** ** The records of a batch *)

Lemma canonicalize_nonempty s : s <> "" -> canonicalize_package_name s <> "".
Proof.
  intros Hs. rewrite canonicalize_refines. unfold canonicalize_spec.
  destruct s as [|c s]; [contradiction|].
  cbn [collapse]. destruct (is_sep c); discriminate.
Qed.

Lemma collect_wheel_ok sha w tag path record :
  collect_wheel sha w tag path = Ok record -> record_of_path sha w tag path record.
Proof.
  intros H. unfold record_of_path.
  destruct (Re.re_match WHEEL_NAME_RE (path_name path)) as [caps|] eqn:Hm.
  2:{ unfold collect_wheel in H. rewrite Hm in H. discriminate H. }
  destruct (fs w (path_str path)) as [| |content] eqn:Hfs;
    try (unfold collect_wheel, st_size in H; rewrite Hm, Hfs in H; discriminate H).
  destruct (collect_wheel_matching sha w tag path content caps Hm Hfs)
    as (name & version & Hshape & E).
  rewrite E in H. unfold Ok in H. injection H as <-.
  cbn [filename release_tag size_bytes sha256 package PublishRelease.version].
  split; [reflexivity|]. split; [reflexivity|].
  split; [now exists content|]. split; [now exists name|].
  split; [|apply canonicalize_again].
  apply canonicalize_nonempty.
  destruct Hshape as (build & py & abi & plat & tail & _ & Hn & _). exact Hn.
Qed.

(** X15: [collect_wheels] returns one record for each path of the batch, in
    the order of the batch: the record of a path has the name of the file,
    the tag of the release, the size and the digest of the content of the
    file, the package and the version of a reading of the name, and its
    package is canonical and not empty. *)
Theorem collect_wheels_per_path sha w paths tag records :
  collect_wheels sha w paths tag = Ok records ->
  Forall2 (record_of_path sha w tag) paths records.
Proof.
  unfold collect_wheels. intros H. apply mapM_ok_forall2 in H.
  induction H as [|path record paths records Hr Hrest IH]; constructor; [|exact IH].
  now apply collect_wheel_ok.
Qed.

(** ** From the publisher to the generator *)

(** X16: the generator reads an entry that the publisher wrote back as the
    same wheel: for a record whose texts are clean (not empty, without white
    space around them) and whose package is canonical, [load_item] on the
    entry of the record gives the wheel with the fields of the record and
    the download url of the repo, the tag and the file name. *)
Theorem load_item_of_record repo record :
  is_clean (filename record) -> is_clean (package record) ->
  is_clean (version record) -> is_clean (sha256 record) ->
  is_clean (release_tag record) ->
  canonicalize_package_name (package record) = package record ->
  GenerateIndex.load_item repo (record_json record)
  = Ok (Some {| GenerateIndex.filename := filename record;
                GenerateIndex.package := package record;
                GenerateIndex.version := version record;
                GenerateIndex.size_bytes := size_bytes record;
                GenerateIndex.sha256 := sha256 record;
                GenerateIndex.url :=
                  wheel_url repo (release_tag record) (filename record) |}).
Proof.
  intros [F1 F2] [P1 P2] [V1 V2] [S1 S2] [T1 T2] Hcanon.
  unfold GenerateIndex.load_item, record_json. rewrite !py_get_obj.
  cbn [dict_get]. cbv beta iota delta [bind Ok].
  repeat match goal with
         | |- context [String.eqb ?a ?b] =>
             let v := eval vm_compute in (String.eqb a b) in
             change (String.eqb a b) with v
         end.
  cbv iota. cbn [py_str py_int]. cbv beta iota delta [bind Ok].
  rewrite F1, P1, V1, S1, T1, Hcanon.
  apply gen_nonempty_true in F2, P2, V2, S2, T2.
  rewrite F2, P2, V2, S2, T2. reflexivity.
Qed.

(** ** Publishing a batch twice *)

Lemma run_generate_index_world w :
  snd (run_generate_index w) = w
  \/ exists page, snd (run_generate_index w) = set_index_html page (clear_dist w).
Proof.
  unfold run_generate_index, GenerateIndex.main, GenerateIndex.build_dist.
  rewrite cbind_assoc, cbind_read.
  destruct (GenerateIndex.load_manifest w) as [f|[repo wheels]].
  { left. destruct f; reflexivity. }
  assert (G : forall c : cmd Z,
            c = (change clear_dist ;;;
                 index_html <~ lift (GenerateIndex.render_index wheels) ;;
                 change (set_index_html (Some index_html)) ;;;
                 ret (Z.of_nat (List.length wheels))) ->
            exists page,
              snd (let (r, w') := (wheel_count <~ c ;; ret tt) w in
                   match r with
                   | inl Unmodelled => (Err Unmodelled, w')
                   | inl _ => (Err (Uncaught CalledProcessError), w')
                   | inr _ => (Ok tt, w')
                   end) = set_index_html page (clear_dist w)).
  { intros c ->. rewrite cbind_assoc, cbind_change, cbind_assoc, cbind_lift.
    destruct (GenerateIndex.render_index wheels) as [f|html].
    - exists None. destruct f; reflexivity.
    - exists (Some html). reflexivity. }
  destruct wheels as [|wheel wheels]; [right; now apply G|].
  destruct (GenerateIndex.nonempty repo); [right; now apply G|left; reflexivity].
Qed.

(** a run of the generator that succeeds has removed [dist/] and written the
    page *)
Lemma run_generate_index_ok w :
  fst (run_generate_index w) = Ok tt ->
  exists html,
    snd (run_generate_index w) = set_index_html (Some html) (clear_dist w).
Proof.
  unfold run_generate_index, GenerateIndex.main, GenerateIndex.build_dist.
  rewrite cbind_assoc, cbind_read.
  destruct (GenerateIndex.load_manifest w) as [f|[repo wheels]].
  { destruct f; discriminate. }
  assert (G : forall c : cmd Z,
            c = (change clear_dist ;;;
                 index_html <~ lift (GenerateIndex.render_index wheels) ;;
                 change (set_index_html (Some index_html)) ;;;
                 ret (Z.of_nat (List.length wheels))) ->
            let out := (let (r, w') := (wheel_count <~ c ;; ret tt) w in
                        match r with
                        | inl Unmodelled => (Err Unmodelled, w')
                        | inl _ => (Err (Uncaught CalledProcessError), w')
                        | inr _ => (Ok tt, w')
                        end) in
            fst out = Ok tt ->
            exists html, snd out = set_index_html (Some html) (clear_dist w)).
  { intros c ->. cbv zeta.
    rewrite cbind_assoc, cbind_change, cbind_assoc, cbind_lift.
    destruct (GenerateIndex.render_index wheels) as [f|html].
    - destruct f; discriminate.
    - intros _. now exists html. }
  destruct wheels as [|wheel wheels]; [now apply G|].
  destruct (GenerateIndex.nonempty repo); [now apply G|discriminate].
Qed.

Lemma py_get_normalize_default manifest key default :
  wf_json manifest ->
  py_get (normalize manifest) key (normalize default)
  = (v <- py_get manifest key default ;; Ok (normalize v)).
Proof.
  intros Hwf. destruct manifest as [| b | n | s | items | members]; try reflexivity.
  apply wf_json_obj in Hwf as [Hnd _]. cbn [normalize py_get].
  rewrite (dict_get_normalize key members Hnd).
  destruct (dict_get key members); reflexivity.
Qed.

Lemma missing_paths_in w paths path :
  In path paths -> path_exists w path = false ->
  In (path_str path) (missing_paths w paths).
Proof.
  intros Hin Hex. unfold missing_paths. apply in_map, filter_In.
  split; [exact Hin|]. now rewrite Hex.
Qed.

Lemma missing_paths_exists w paths path :
  missing_paths w paths = [] -> In path paths -> path_exists w path = true.
Proof.
  unfold missing_paths. intros Hm Hin.
  destruct (path_exists w path) eqn:E; [reflexivity|].
  apply map_eq_nil in Hm.
  assert (H : In path (filter (fun p => negb (path_exists w p)) paths)).
  { apply filter_In. split; [exact Hin|]. now rewrite E. }
  rewrite Hm in H. destruct H.
Qed.

(** X17: a batch that was published is refused when it is published
    again: the second run fails, and leaves the manifest file as the first
    run wrote it.  The first run ends with the index generator, which removes
    [dist/]: after it, a path of the batch exists when it does not lie in
    [dist/].  So when a wheel of the batch lies in [dist/], the second run
    stops at the files that are missing, before anything else; and when none
    does, the files are all there, and once the repo is resolved, the release
    made and the names read again, the second run stops at the name of a
    wheel that the manifest already holds under the tag. *)
Theorem publish_twice_fails sha args w :
  wheels args <> [] ->
  fst (main sha args w) = Ok tt ->
  let w' := snd (main sha args w) in
  manifest_file (snd (main sha args w')) = manifest_file w'
  /\ (exists f, fst (main sha args w') = Err f)
  /\ (forall path, In path (wheels args) ->
        path_exists w' path = negb (in_dist w (path_str path)))
  /\ (forall path, In path (wheels args) -> in_dist w (path_str path) = true ->
        main sha args w'
        = (Err (MissingArtifact (missing_paths w' (wheels args))), w')
        /\ In (path_str path) (missing_paths w' (wheels args)))
  /\ (Forall (fun path => in_dist w (path_str path) = false) (wheels args) ->
      forall manifest r records existing,
        load_manifest w' = Ok manifest ->
        resolved_repo args w' manifest = Ok r ->
        gh_succeeds w' (release_call args) = true ->
        collect_wheels sha w' (wheels args) (tag args) = Ok records ->
        existing_keys manifest = Ok existing ->
        exists name,
          fst (main sha args w') = Err (DuplicateArtifact name (tag args))
          /\ In name (map path_name (wheels args))
          /\ in_existing (tag args) name existing = true).
Proof.
  intros Hne Hok w'.
  destruct (main_ok _ _ _ Hok)
    as (manifest & r & records & existing & manifest'
        & Hmiss & Hload & Hr & Hg & Hc & He & Hn & Hu & E).
  set (w1 := with_manifest manifest' (add_release (release_call args) w)) in E.
  assert (Hwf : wf_json manifest').
  { eapply updated_manifest_wf; [|exact Hu]. now apply load_manifest_wf in Hload. }
  assert (Hload' : load_manifest w' = Ok (normalize manifest')).
  { unfold w'. rewrite E. now apply load_with_manifest. }
  (* the first run removed [dist/] *)
  assert (Hfs : forall path,
            fs w' path = if in_dist w path then Missing else fs w path).
  { unfold w'. rewrite E. rewrite E in Hok.
    destruct (run_generate_index_ok w1 Hok) as (html & ->). reflexivity. }
  assert (Hex : forall path, In path (wheels args) ->
            path_exists w' path = negb (in_dist w (path_str path))).
  { intros path Hin. pose proof (missing_paths_exists _ _ _ Hmiss Hin) as Hw.
    unfold path_exists in Hw |- *. rewrite Hfs.
    destruct (in_dist w (path_str path)); [reflexivity|exact Hw]. }
  assert (Hgone : forall path, In path (wheels args) ->
            in_dist w (path_str path) = true ->
            main sha args w'
            = (Err (MissingArtifact (missing_paths w' (wheels args))), w')
            /\ In (path_str path) (missing_paths w' (wheels args))).
  { intros path Hin Hd.
    assert (Hm : In (path_str path) (missing_paths w' (wheels args))).
    { apply missing_paths_in; [exact Hin|]. rewrite (Hex _ Hin), Hd. reflexivity. }
    split; [|exact Hm]. rewrite main_unfold.
    destruct (missing_paths w' (wheels args)); [contradiction|reflexivity]. }
  (* the first wheel of the batch is in the manifest *)
  assert (Hdup : exists path sorted record,
            In path (wheels args)
            /\ py_get (normalize manifest') "wheels" (JArr [])
               = Ok (JArr (map normalize sorted))
            /\ In (normalize (record_json record)) (map normalize sorted)
            /\ py_get (normalize (record_json record)) "release_tag" JNull
               = Ok (JStr (tag args))
            /\ py_get (normalize (record_json record)) "filename" JNull
               = Ok (JStr (path_name path))).
  { destruct (wheels args) as [|path paths] eqn:Hpaths; [contradiction|].
    destruct (collect_wheels_records sha _ _ _ _ Hc) as [Hnames Htags].
    destruct records as [|record rest]; [discriminate Hnames|].
    cbn [map] in Hnames. injection Hnames as Hname _.
    inversion Htags as [|? ? Htag _]; subst.
    destruct (updated_manifest_members _ _ _ _ Hu)
      as (members & entries & sorted & Hm & Hw & Hs & Hm').
    exists path, sorted, record. split; [now left|].
    split.
    { change (JArr []) with (normalize (JArr [])).
      rewrite (py_get_normalize_default _ _ _ Hwf).
      rewrite Hm', py_get_obj, dict_get_set_same. reflexivity. }
    split.
    { apply in_map.
      apply (Permutation_in _ (Permutation_sym (sort_wheels_perm _ _ Hs))).
      apply in_or_app. right. now left. }
    split.
    - rewrite (py_get_normalize _ _ (record_json_wf record)). now rewrite <- Htag.
    - rewrite (py_get_normalize _ _ (record_json_wf record)). now rewrite <- Hname. }
  destruct Hdup as (path & sorted & record & Hpath & Hwheels & Hin & Hrt & Hfn).
  split; [|split; [|split; [exact Hex|split; [exact Hgone|]]]].
  - rewrite main_unfold.
    destruct (missing_paths w' (wheels args)); [|reflexivity].
    rewrite publish_existing_unfold, Hload'. cbv beta iota delta [Ok].
    destruct (resolved_repo args w' (normalize manifest')) as [f|repo2];
      [reflexivity|].
    destruct (gh_succeeds w' (release_call args)); [|reflexivity].
    destruct (record_wheels_duplicate sha args (normalize manifest')
                (map normalize sorted) (normalize (record_json record)) path
                Hwheels Hin Hrt Hfn Hpath
                repo2 (add_release (release_call args) w')) as (H1 & _).
    now rewrite H1.
  - rewrite main_unfold.
    destruct (missing_paths w' (wheels args)); [|eexists; reflexivity].
    rewrite publish_existing_unfold, Hload'. cbv beta iota delta [Ok].
    destruct (resolved_repo args w' (normalize manifest')) as [f|repo2];
      [eexists; reflexivity|].
    destruct (gh_succeeds w' (release_call args)); [|eexists; reflexivity].
    destruct (record_wheels_duplicate sha args (normalize manifest')
                (map normalize sorted) (normalize (record_json record)) path
                Hwheels Hin Hrt Hfn Hpath
                repo2 (add_release (release_call args) w')) as (_ & H2 & _).
    exact H2.
  - intros Hout manifest2 r2 records2 existing2 Hl2 Hr2 Hg2 Hc2 He2.
    rewrite Hload' in Hl2. unfold Ok in Hl2. injection Hl2 as <-.
    assert (Hmiss' : missing_paths w' (wheels args) = []).
    { apply missing_paths_none. rewrite Forall_forall in Hout |- *.
      intros p Hp. rewrite (Hex _ Hp), (Hout _ Hp). reflexivity. }
    rewrite main_unfold, Hmiss', publish_existing_unfold, Hload'.
    cbv beta iota delta [Ok]. rewrite Hr2. cbv beta iota delta [Ok]. rewrite Hg2.
    destruct (record_wheels_duplicate sha args (normalize manifest')
                (map normalize sorted) (normalize (record_json record)) path
                Hwheels Hin Hrt Hfn Hpath
                r2 (add_release (release_call args) w')) as (_ & _ & H3).
    apply (H3 records2 existing2 Hc2).
    unfold existing_keys in He2. rewrite Hwheels in He2. exact He2.
Qed.

Import GenerateIndex.

(** ** Runs of the index generator *)

Lemma render_index_err wheels f :
  render_index wheels = Err f -> f = Uncaught OverflowError.
Proof.
  unfold render_index, render_lines.
  destruct wheels as [|wheel wheels]; [discriminate|].
  destruct (mapM _ (sections (wheel :: wheels))) as [f1|parts] eqn:E; [|discriminate].
  cbn [bind]. unfold Err. intros [= <-].
  apply mapM_err in E as (s & _ & E). unfold section_lines in E.
  destruct (mapM wheel_line (snd s)) as [f2|items] eqn:E2; [|discriminate].
  cbn [bind] in E. unfold Err in E. injection E as <-.
  apply mapM_err in E2 as (x & _ & E2). unfold wheel_line, bytes_to_human in E2.
  destruct (float_of_int (size_bytes x)); [|now injection E2 as <-].
  destruct (human_loop _ _ _); discriminate.
Qed.

(** X18: the index generator never changes the manifest file.  When it
    succeeds, the index holds the page of the wheels of the manifest, and
    the manifest has a repo or no wheels.  When it fails, the index is as it
    was, or the failure is an [OverflowError] of a size and the index is
    gone.  A manifest with wheels and without a repo is refused with a
    message, before the index is touched. *)
Theorem generate_index_outcomes w :
  let done := GenerateIndex.main w in
  manifest_file (snd done) = manifest_file w
  /\ (fst done = Ok tt ->
      exists repo wheels html,
        load_manifest w = Ok (repo, wheels)
        /\ (wheels = [] \/ repo <> "")
        /\ render_index wheels = Ok html
        /\ index_html (snd done) = Some html)
  /\ (forall f, fst done = Err f ->
        index_html (snd done) = index_html w
        \/ (f = Uncaught OverflowError /\ index_html (snd done) = None))
  /\ (forall wheel wheels,
        load_manifest w = Ok ("", wheel :: wheels) ->
        done = (Err (SystemExit "wheels.json must include a non-empty repo field."), w)).
Proof.
  cbv zeta. split; [apply generate_index_keeps_manifest|].
  unfold GenerateIndex.main, build_dist. rewrite cbind_assoc, cbind_read.
  destruct (load_manifest w) as [f|[repo wheels]] eqn:Hload.
  { split; [discriminate|]. split; [now left|discriminate]. }
  assert (G : forall c : cmd Z,
            c = (change clear_dist ;;;
                 index_html <~ lift (render_index wheels) ;;
                 change (set_index_html (Some index_html)) ;;;
                 ret (Z.of_nat (List.length wheels))) ->
            let out := (wheel_count <~ c ;; ret tt) w in
            (fst out = Ok tt ->
             exists html, render_index wheels = Ok html /\ index_html (snd out) = Some html)
            /\ (forall f, fst out = Err f ->
                  index_html (snd out) = index_html w
                  \/ (f = Uncaught OverflowError /\ index_html (snd out) = None))).
  { intros c ->. cbv zeta.
    rewrite cbind_assoc, cbind_change, cbind_assoc, cbind_lift.
    destruct (render_index wheels) as [f|html] eqn:Hr.
    - split; [discriminate|]. intros f' [= <-]. right.
      split; [now apply render_index_err in Hr|reflexivity].
    - split; [|discriminate]. intros _. now exists html. }
  destruct wheels as [|wheel wheels].
  - destruct (G _ eq_refl) as [G1 G2]. split; [|split; [exact G2|discriminate]].
    intros Hok. destruct (G1 Hok) as (html & H1 & H2).
    exists repo, [], html. auto.
  - destruct (nonempty repo) eqn:Hn.
    + destruct (G _ eq_refl) as [G1 G2]. split; [|split; [exact G2|]].
      * intros Hok. destruct (G1 Hok) as (html & H1 & H2).
        exists repo, (wheel :: wheels), html. repeat split; auto.
        right. now apply gen_nonempty_true.
      * intros wheel' wheels' [= -> _ _]. discriminate Hn.
    + split; [discriminate|]. split; [now left|].
      intros wheel' wheels' _. reflexivity.
Qed.

(** ** Sizes *)

Lemma float_of_nat_int_exact n :
  (0 <= n < 2 ^ 53)%Z -> float_of_nat_int n = Some n.
Proof.
  intros [H0 Hn]. unfold float_of_nat_int.
  destruct (Z.eq_dec n 0) as [->|Hne]; [reflexivity|].
  assert (Hlog : (Z.log2 n < 53)%Z) by (apply Z.log2_lt_pow2; lia).
  destruct (Z.leb_spec (Z.log2 n + 1) 53); [reflexivity|lia].
Qed.

Lemma float_of_int_exact n :
  (- 2 ^ 53 < n < 2 ^ 53)%Z -> float_of_int n = Some n.
Proof.
  intros H. unfold float_of_int. destruct (Z.ltb_spec n 0).
  - rewrite float_of_nat_int_exact by lia. cbn [option_map]. f_equal. lia.
  - apply float_of_nat_int_exact. lia.
Qed.

Lemma round_half_even_near num den :
  (0 <= num)%Z -> (0 < den)%Z ->
  (2 * Z.abs (round_half_even num den * den - num) <= den)%Z.
Proof.
  intros Hn Hd. unfold round_half_even.
  pose proof (Z.div_mod num den ltac:(lia)) as E.
  pose proof (Z.mod_pos_bound num den Hd) as Hm.
  destruct (Z.ltb_spec (2 * (num mod den)) den); [nia|].
  destruct (Z.ltb_spec den (2 * (num mod den))); [nia|].
  destruct (Z.even (num / den)); nia.
Qed.

Lemma human_loop_some num den :
  exists number suffix,
    In suffix suffixes /\ human_loop num den suffixes = Some (number ++ " " ++ suffix).
Proof.
  unfold suffixes at 2. cbn [human_loop].
  change (last suffixes "") with "TB". change ("TB" =? "TB") with true.
  rewrite orb_true_r.
  repeat match goal with
         | |- context [if ?c then _ else _] => destruct c
         end;
    eexists _, _; (split; [|reflexivity]); cbn; tauto.
Qed.

Lemma human_loop_units num :
  human_loop num 1 suffixes
  = Some (if (num <? 1024)%Z then str_of_int num ++ " B"
          else if (num <? 1024 ^ 2)%Z then format_1f num 1024 ++ " KB"
          else if (num <? 1024 ^ 3)%Z then format_1f num (1024 ^ 2) ++ " MB"
          else if (num <? 1024 ^ 4)%Z then format_1f num (1024 ^ 3) ++ " GB"
          else format_1f num (1024 ^ 4) ++ " TB").
Proof.
  unfold suffixes at 1. cbn [human_loop].
  change (last suffixes "") with "TB".
  change ("B" =? "TB") with false. change ("KB" =? "TB") with false.
  change ("MB" =? "TB") with false. change ("GB" =? "TB") with false.
  change ("TB" =? "TB") with true. change ("TB" =? "B") with false.
  rewrite !orb_false_r, orb_true_r. cbn [negb]. rewrite Z.quot_1_r.
  change (1024 * 1)%Z with 1024%Z.
  change (1024 * 1024)%Z with (1024 ^ 2)%Z.
  change (1024 * 1024 ^ 2)%Z with (1024 ^ 3)%Z.
  change (1024 * 1024 ^ 3)%Z with (1024 ^ 4)%Z.
  destruct (num <? 1024)%Z; [reflexivity|].
  destruct (num <? 1024 ^ 2)%Z; [reflexivity|].
  destruct (num <? 1024 ^ 3)%Z; [reflexivity|].
  destruct (num <? 1024 ^ 4)%Z; reflexivity.
Qed.

(** X19: [bytes_to_human] on a size that a float holds exactly.  A size
    below 1024, also a negative one, is printed as it is, in B.  A size from
    1024 on is printed in the largest unit below it, up to TB, with one
    decimal: the tenths printed are the size in that unit rounded to the
    nearest tenth.  For every size the result is a number and one of the
    five units (the last line of the function is never reached), or an
    [OverflowError] for a size of 2^1023 or more. *)
Theorem bytes_to_human_units value :
  ((- 2 ^ 53 < value < 1024)%Z ->
   bytes_to_human value = Ok (str_of_int value ++ " B"))
  /\ (forall k unit,
        nth_error suffixes k = Some unit -> (1 <= k)%nat ->
        (1024 ^ Z.of_nat k <= value < 2 ^ 53)%Z ->
        (value < 1024 ^ Z.of_nat (S k))%Z \/ k = 4%nat ->
        exists tenths,
          (2 * Z.abs (tenths * 1024 ^ Z.of_nat k - 10 * value) <= 1024 ^ Z.of_nat k)%Z
          /\ bytes_to_human value
             = Ok (str_of_int (tenths / 10) ++ "." ++ str_of_int (tenths mod 10)
                     ++ " " ++ unit))
  /\ ((exists number unit,
         In unit suffixes /\ bytes_to_human value = Ok (number ++ " " ++ unit))
      \/ ((2 ^ 1023 <= Z.abs value)%Z
          /\ bytes_to_human value = Err (Uncaught OverflowError))).
Proof.
  split; [|split].
  - intros H. unfold bytes_to_human. rewrite float_of_int_exact by lia.
    rewrite human_loop_units. destruct (Z.ltb_spec value 1024); [reflexivity|lia].
  - intros k unit Hk H1 [Hlo Hhi] Hup.
    exists (round_half_even (10 * value) (1024 ^ Z.of_nat k)).
    split.
    { apply round_half_even_near; [lia|]. apply Z.pow_pos_nonneg; lia. }
    unfold bytes_to_human. rewrite float_of_int_exact by lia.
    rewrite human_loop_units. unfold format_1f.
    assert (Hpos : (0 <= value)%Z).
    { assert (0 < 1024 ^ Z.of_nat k)%Z by (apply Z.pow_pos_nonneg; lia). lia. }
    rewrite (Z.abs_eq value Hpos).
    destruct (Z.ltb_spec value 0); [lia|]. cbn [append].
    unfold suffixes in Hk.
    destruct k as [|[|[|[|[|k]]]]]; try lia; cbn [nth_error] in Hk;
      try (destruct k; discriminate Hk); injection Hk as <-;
      change (Z.of_nat 1) with 1%Z in *; change (Z.of_nat 2) with 2%Z in *;
      change (Z.of_nat 3) with 3%Z in *; change (Z.of_nat 4) with 4%Z in *;
      change (Z.of_nat 5) with 5%Z in *;
      rewrite ?Z.pow_1_r in *;
      repeat match goal with
             | |- context [(value <? ?b)%Z] => destruct (Z.ltb_spec value b); try lia
             end;
      try reflexivity.
    all: now rewrite append_assoc.
  - unfold bytes_to_human. destruct (float_of_int value) as [size|] eqn:E.
    + left. destruct (human_loop_some size 1) as (number & unit & Hin & ->).
      now exists number, unit.
    + right. split; [|reflexivity].
      destruct (Z.lt_ge_cases (Z.abs value) (2 ^ 1023)) as [Hlt|Hge]; [|exact Hge].
      exfalso. unfold float_of_int in E. destruct (Z.ltb_spec value 0).
      * destruct (float_of_nat_int_total (- value)) as (v & Hv); [lia|].
        rewrite Hv in E. discriminate E.
      * destruct (float_of_nat_int_total value) as (v & Hv); [lia|]. congruence.
Qed.

(** ** Escaping *)



(** ** Every wheel is listed once *)

Lemma filter_partition {A} (f : A -> bool) l :
  Permutation (filter f l ++ filter (fun x => negb (f x)) l) l.
Proof.
  induction l as [|x l IH]; [reflexivity|].
  cbn [filter]. destruct (f x); cbn [negb app].
  - now constructor.
  - rewrite <- Permutation_middle. now constructor.
Qed.

Lemma wheels_of_sections ks : forall wheels,
  NoDup ks -> (forall w, In w wheels -> In (package w) ks) ->
  Permutation (List.concat (map (fun p => wheels_of p wheels) ks)) wheels.
Proof.
  induction ks as [|p ks IH]; intros wheels Hnd Hin.
  - destruct wheels as [|w wheels]; [reflexivity|]. destruct (Hin w (or_introl eq_refl)).
  - inversion Hnd as [|? ? Hp Hks]; subst. cbn [map List.concat].
    set (others := filter (fun w => negb (String.eqb (package w) p)) wheels).
    assert (E : map (fun p' => wheels_of p' wheels) ks
                = map (fun p' => wheels_of p' others) ks).
    { apply map_ext_in. intros p' Hp'. unfold wheels_of, others.
      induction wheels as [|w wheels IHw]; [reflexivity|].
      cbn [filter]. destruct (String.eqb_spec (package w) p') as [E1|E1].
      - destruct (String.eqb_spec (package w) p) as [E2|E2].
        + exfalso. apply Hp. congruence.
        + cbn [negb filter]. rewrite E1, String.eqb_refl. f_equal.
          apply IHw. intros x Hx. apply Hin. now right.
      - destruct (String.eqb (package w) p); cbn [negb filter].
        + apply IHw. intros x Hx. apply Hin. now right.
        + destruct (String.eqb_spec (package w) p'); [contradiction|].
          apply IHw. intros x Hx. apply Hin. now right. }
    rewrite E.
    rewrite (IH others Hks).
    + apply filter_partition.
    + intros w Hw. unfold others in Hw. apply filter_In in Hw as [Hw Hne].
      destruct (Hin w Hw) as [E0|H]; [|exact H].
      cbn beta in Hne. rewrite <- E0, String.eqb_refl in Hne. discriminate Hne.
Qed.

Lemma sections_snd wheels :
  map snd (sections wheels)
  = map (fun p => wheels_of p wheels) (map fst (sections wheels)).
Proof.
  rewrite map_map. apply map_ext_in. intros [p ws] Hin. cbn [fst snd].
  exact (sections_wheels _ _ _ Hin).
Qed.

Lemma strongly_sorted_nodup l : StronglySorted str_lt l -> NoDup l.
Proof.
  induction 1 as [|a l Hl IH Ha]; constructor; [|exact IH].
  intros Hin. rewrite Forall_forall in Ha. exact (str_lt_irrefl a (Ha a Hin)).
Qed.

Lemma section_lines_length p ws lines :
  section_lines p ws = Ok lines -> List.length lines = (3 + List.length ws)%nat.
Proof.
  unfold section_lines. destruct (mapM wheel_line ws) as [f|items] eqn:E; [discriminate|].
  cbn [bind]. unfold Ok. intros [= <-].
  apply mapM_ok_forall2, Forall2_length in E.
  cbn [app List.length]. rewrite length_app. cbn [List.length]. lia.
Qed.

Lemma forall2_in {A B} (R : A -> B -> Prop) l l' x :
  Forall2 R l l' -> In x l -> exists y, In y l' /\ R x y.
Proof.
  induction 1 as [|a b l l' Hab _ IH]; intros Hin; [destruct Hin|].
  destruct Hin as [<-|Hin].
  - exists b. split; [now left|exact Hab].
  - destruct (IH Hin) as (y & Hy & Hr). exists y. split; [now right|exact Hr].
Qed.

Lemma section_lines_items p ws part :
  section_lines p ws = Ok part ->
  exists items,
    Forall2 (fun w line => wheel_line w = Ok line) ws items
    /\ part = ([heading_line p; "  <ul>"] ++ items ++ ["  </ul>"])%list.
Proof.
  unfold section_lines. destruct (mapM wheel_line ws) as [f|items] eqn:E; [discriminate|].
  cbn [bind]. unfold Ok. intros [= <-]. exists items.
  split; [now apply mapM_ok_forall2|reflexivity].
Qed.

Lemma sections_all_wheels wheels :
  Permutation (List.concat (map snd (sections wheels))) wheels.
Proof.
  rewrite sections_snd. apply wheels_of_sections.
  - apply strongly_sorted_nodup, sections_sorted.
  - intros w Hw. apply sections_packages. now exists w.
Qed.

(** X21: the page that [render_index] returns for a list of wheels lists
    every wheel once.  The page is the fixed lines of the head, then for each
    package its heading, the opening of its list, one line for each of its
    wheels and the closing of the list, then the fixed lines of the foot,
    joined by newlines; the wheels of the sections, taken together, are the
    wheels of the list; the line of every wheel of the list is in the page;
    and the page has three lines for each package and one for each wheel
    beside the fixed ones. *)
Theorem render_lists_every_wheel wheels html :
  wheels <> [] -> render_index wheels = Ok html ->
  exists parts,
    Forall2 (fun s part =>
               exists items,
                 Forall2 (fun w line => wheel_line w = Ok line) (snd s) items
                 /\ part = ([heading_line (fst s); "  <ul>"] ++ items
                            ++ ["  </ul>"])%list)
      (sections wheels) parts
    /\ html = join (String newline "")
                (head_lines ++ List.concat parts ++ foot_lines)%list
    /\ Permutation (List.concat (map snd (sections wheels))) wheels
    /\ (forall w, In w wheels ->
          exists line, wheel_line w = Ok line /\ text_in line html)
    /\ List.length (head_lines ++ List.concat parts ++ foot_lines)%list
       = (List.length head_lines + 3 * List.length (sections wheels)
          + List.length wheels + List.length foot_lines)%nat.
Proof.
  intros Hne Hr. rewrite (render_index_sections _ Hne) in Hr.
  destruct (mapM _ (sections wheels)) as [f|parts] eqn:E; [discriminate|].
  cbn [bind] in Hr. revert Hr. generalize head_lines, foot_lines.
  intros hd ft Hr. unfold Ok in Hr. injection Hr as <-.
  pose proof (sections_all_wheels wheels) as Hperm.
  apply mapM_ok_forall2 in E.
  assert (Hparts : Forall2 (fun s part =>
               exists items,
                 Forall2 (fun w line => wheel_line w = Ok line) (snd s) items
                 /\ part = ([heading_line (fst s); "  <ul>"] ++ items
                            ++ ["  </ul>"])%list)
            (sections wheels) parts).
  { clear -E. induction E as [|s part l l' Hs _ IH]; constructor; [|exact IH].
    now apply section_lines_items. }
  exists parts. split; [exact Hparts|]. split; [reflexivity|].
  split; [exact Hperm|]. split.
  - intros w Hw.
    apply (Permutation_in _ (Permutation_sym Hperm)) in Hw.
    apply in_concat in Hw as (ws & Hws & Hw).
    apply in_map_iff in Hws as (s & <- & Hs).
    destruct (forall2_in _ _ _ _ Hparts Hs) as (part & Hpart & items & Hitems & ->).
    destruct (forall2_in _ _ _ _ Hitems Hw) as (line & Hline & Hwl).
    exists line. split; [exact Hwl|]. apply in_text.
    apply in_or_app. right. apply in_or_app. left.
    apply in_concat. eexists. split; [exact Hpart|].
    cbn [List.app]. right. right. apply in_or_app. left. exact Hline.
  - rewrite !length_app.
    enough (G : List.length (List.concat parts)
                = (3 * List.length (sections wheels)
                   + List.length (List.concat (map snd (sections wheels))))%nat).
    { rewrite G, (Permutation_length Hperm). lia. }
    clear -E. induction E as [|s part l l' Hs Hl IH]; [reflexivity|].
    cbn [List.concat map List.length]. rewrite !length_app, IH.
    apply section_lines_length in Hs. lia.
Qed.

Import PublishRelease.

(** ** The text of a manifest is ASCII *)

Lemma escape_char_ascii c : all_chars is_plain_ascii (escape_char c) = true.
Proof.
  destruct c as [[] [] [] [] [] [] [] []]; vm_compute; reflexivity.
Qed.

Lemma encode_basestring_ascii_ascii s :
  all_chars is_plain_ascii (encode_basestring_ascii s) = true.
Proof.
  unfold encode_basestring_ascii. cbn [all_chars].
  change (is_plain_ascii dquote) with true. cbn [andb].
  rewrite all_chars_app. cbn [all_chars].
  change (is_plain_ascii dquote) with true. cbn [andb]. rewrite andb_true_r.
  induction s as [|c s IH]; [reflexivity|].
  cbn [escape_chars]. now rewrite all_chars_app, escape_char_ascii, IH.
Qed.

Lemma string_of_uint_ascii d :
  all_chars is_plain_ascii (NilZero.string_of_uint d) = true.
Proof.
  destruct d as [|d|d|d|d|d|d|d|d|d|d]; [reflexivity|..]; cbn [NilZero.string_of_uint];
    induction d; cbn [NilEmpty.string_of_uint all_chars]; try reflexivity;
    cbn [all_chars] in *; assumption.
Qed.

Lemma str_of_int_ascii n : all_chars is_plain_ascii (str_of_int n) = true.
Proof.
  unfold str_of_int, NilZero.string_of_int.
  destruct (Z.to_int n) as [d|d]; [apply string_of_uint_ascii|].
  cbn [all_chars]. now rewrite string_of_uint_ascii.
Qed.

Lemma spaces_ascii n : all_chars is_plain_ascii (spaces n) = true.
Proof. induction n; [reflexivity|exact IHn]. Qed.

Lemma newline_indent_ascii L : all_chars is_plain_ascii (newline_indent L) = true.
Proof. unfold newline_indent. cbn [all_chars]. apply spaces_ascii. Qed.

Lemma join_all_chars p sep parts :
  all_chars p sep = true -> Forall (fun s => all_chars p s = true) parts ->
  all_chars p (join sep parts) = true.
Proof.
  intros Hsep. unfold join. induction 1 as [|x l Hx Hl IH]; [reflexivity|].
  destruct l as [|y l]; [exact Hx|].
  change (String.concat sep (x :: y :: l)) with (x ++ sep ++ String.concat sep (y :: l)).
  now rewrite !all_chars_app, Hx, Hsep, IH.
Qed.

Lemma dumps_at_ascii v : forall L, all_chars is_plain_ascii (dumps_at L v) = true.
Proof.
  induction v as [| b | n | s | items IH | members IH] using json_induction; intros L.
  - reflexivity.
  - destruct b; reflexivity.
  - apply str_of_int_ascii.
  - apply encode_basestring_ascii_ascii.
  - destruct items as [|x items]; [reflexivity|].
    cbn [dumps_at]. cbn [append all_chars].
    change (is_plain_ascii "[") with true. cbn [andb].
    rewrite !all_chars_app, !newline_indent_ascii. cbn [all_chars andb].
    rewrite andb_true_r. apply join_all_chars.
    + unfold item_separator. cbn [append all_chars]. apply newline_indent_ascii.
    + apply Forall_map. eapply Forall_impl; [|exact IH]. intros y Hy. apply Hy.
  - destruct members as [|kv members]; [reflexivity|].
    cbn [dumps_at]. cbn [append all_chars].
    change (is_plain_ascii "{") with true. cbn [andb].
    rewrite !all_chars_app, !newline_indent_ascii. cbn [all_chars andb].
    rewrite andb_true_r. apply join_all_chars.
    + unfold item_separator. cbn [append all_chars]. apply newline_indent_ascii.
    + apply Forall_map.
      apply (Permutation_Forall (Permutation_sym (sort_by_perm _ _))).
      apply Forall_map. eapply Forall_impl; [|exact IH].
      intros y Hy. cbn [fst snd]. rewrite !all_chars_app, encode_basestring_ascii_ascii.
      cbn [all_chars andb]. apply Hy.
Qed.

(** X22: the text that [write_manifest] writes holds printable ASCII
    characters and line feeds only, and ends with a line feed. *)
Theorem write_manifest_ascii manifest w :
  exists text,
    manifest_file (snd (PublishRelease.write_manifest manifest w)) = Some text
    /\ all_chars is_plain_ascii text = true
    /\ exists body, text = body ++ String newline "".
Proof.
  exists (json_dumps manifest ++ String newline ""). split; [reflexivity|]. split.
  - rewrite all_chars_app. unfold json_dumps. now rewrite dumps_at_ascii.
  - now exists (json_dumps manifest).
Qed.

(** ** Runs on the sample checkout *)

(** the remote over HTTPS, without [.git], with the line feed of [git] *)
Lemma infer_repo_github_witness :
  infer_repo_from_git (demo_world None https_origin) = "owner/name".
Proof.
  apply (infer_repo_github (demo_world None https_origin)
           ("https://github.com/owner/name" ++ String newline "")
           "https://github.com/" "owner" "name" "").
  - reflexivity.
  - reflexivity.
  - now right.
  - split; [discriminate|reflexivity].
  - split; [discriminate|reflexivity].
  - right. split; [reflexivity|]. intros a Ha E.
    apply (f_equal String.length) in E. rewrite length_append in E.
    destruct a; [now apply Ha|]. cbn [String.length] in E. lia.
Defined.

Lemma publish_missing_files_witness :
  let w := demo_world None github_origin in
  main demo_sha256 (demo_args [demo_path; absent_path]) w
  = (Err (SystemExit "Missing wheel files: dist/absent-1.0-py3-none-any.whl"), w).
Proof.
  intros w.
  exact (proj1 (publish_missing_files demo_sha256 (demo_args [demo_path; absent_path])
                  w absent_path (or_intror (or_introl eq_refl)) eq_refl)).
Defined.

(** the wheel of the checkout is in the manifest already *)
Lemma publish_exit_keeps_manifest_witness :
  let w := demo_world (Some demo_manifest_text) github_origin in
  let done := main demo_sha256 (demo_args [demo_path]) w in
  fst done = Err (DuplicateArtifact demo_name "v1")
  /\ manifest_file (snd done) = manifest_file w
  /\ index_html (snd done) = index_html w.
Proof.
  intros w done.
  assert (E : fst done = Err (DuplicateArtifact demo_name "v1"))
    by (vm_compute; reflexivity).
  split; [exact E|].
  exact (publish_exit_keeps_manifest demo_sha256 (demo_args [demo_path]) w _ E).
Defined.

Lemma publish_checks_after_release_witness :
  let w := demo_world (Some demo_manifest_text) github_origin in
  let args := demo_args [demo_path] in
  snd (main demo_sha256 args w) = add_release (release_call args) w
  /\ gh_succeeds w (release_call args) = true
  /\ In demo_name (map path_name (wheels args)).
Proof.
  intros w args.
  apply (publish_checks_after_release demo_sha256 args w demo_name).
  right. vm_compute. reflexivity.
Defined.

(** the flag names another repo than the remote *)
Lemma publish_conflicting_repos_witness :
  let w := demo_world None github_origin in
  main demo_sha256 other_repo_args w
  = (Err (SystemExit "Manifest repo is other/name, but CLI repo is owner/name."), w).
Proof.
  intros w.
  refine (proj1 (publish_conflicting_repos demo_sha256 other_repo_args w _) _).
  - repeat constructor.
  - split; [discriminate|]. split; intros E; vm_compute in E; discriminate E.
Defined.

Lemma json_loads_distinct_keys_witness :
  json_loads repeated_key_text = Parsed (JObj [("a", JInt 2)])
  /\ wf_json (JObj [("a", JInt 2)]).
Proof.
  assert (E : json_loads repeated_key_text = Parsed (JObj [("a", JInt 2)]))
    by (vm_compute; reflexivity).
  split; [exact E|].
  exact (json_loads_distinct_keys repeated_key_text _ E).
Defined.

(** the first release of the wheel of the checkout *)
Lemma publish_sets_repo_witness :
  let w := demo_world None github_origin in
  let args := demo_args [demo_path] in
  exists manifest manifest' r v,
    load_manifest w = Ok manifest
    /\ py_get manifest "repo" (JStr "") = Ok v
    /\ manifest_file (snd (main demo_sha256 args w))
       = Some (json_dumps manifest' ++ String newline "")
    /\ load_manifest (snd (main demo_sha256 args w)) = Ok (normalize manifest')
    /\ py_get manifest' "repo" JNull = Ok (JStr r)
    /\ r <> ""
    /\ (or_else (repo args) "" = r \/ infer_repo_from_git w = r)
    /\ (or_else (repo args) "" = "" \/ or_else (repo args) "" = r)
    /\ (infer_repo_from_git w = "" \/ infer_repo_from_git w = r)
    /\ (strip (py_str v) = "" \/ strip (py_str v) = r).
Proof.
  intros w args. apply (publish_sets_repo demo_sha256 args w).
  vm_compute. reflexivity.
Defined.

Lemma publish_records_wheels_witness :
  let w := stocked_world stocked_manifest in
  fst (main demo_sha256 both_args w) = Ok tt
  /\ written_manifest (snd (main demo_sha256 both_args w))
     = JObj [ ("note", JStr "kept"); ("repo", JStr "owner/name");
              ("wheels", JArr [alpha_record; demo_record; zeta_record]) ]
  /\ exists manifest' sorted keys,
       manifest_file (snd (main demo_sha256 both_args w))
       = Some (json_dumps manifest' ++ String newline "")
       /\ py_get manifest' "wheels" JNull = Ok (JArr sorted)
       /\ Permutation sorted
            ([zeta_record]
             ++ map record_json [demo_wheel_record; alpha_wheel_record])
       /\ mapM entry_key sorted = Ok keys
       /\ Sorted (not_after key3_lt) keys
       /\ (forall key default, key <> "repo" -> key <> "wheels" ->
             py_get manifest' key default = py_get stocked_manifest key default).
Proof.
  intros w.
  assert (Hok : fst (main demo_sha256 both_args w) = Ok tt)
    by (vm_compute; reflexivity).
  split; [exact Hok|]. split; [vm_compute; reflexivity|].
  destruct (publish_records_wheels demo_sha256 both_args w Hok)
    as (manifest & manifest' & entries & records & sorted & keys
        & Hload & Hw & Hc & Hfile & Hget & Hperm & Hkeys & Hsorted & Hkeep).
  assert (E1 : load_manifest w = Ok stocked_manifest) by (vm_compute; reflexivity).
  rewrite E1 in Hload. unfold Ok in Hload. injection Hload as <-.
  assert (E2 : py_get stocked_manifest "wheels" (JArr []) = Ok (JArr [zeta_record]))
    by reflexivity.
  rewrite E2 in Hw. unfold Ok in Hw. injection Hw as <-.
  assert (E3 : collect_wheels demo_sha256 w (wheels both_args) (tag both_args)
               = Ok [demo_wheel_record; alpha_wheel_record])
    by (vm_compute; reflexivity).
  rewrite E3 in Hc. unfold Ok in Hc. injection Hc as <-.
  exists manifest', sorted, keys.
  repeat (split; [assumption|]). exact Hkeep.
Defined.

Lemma publish_regenerates_index_witness :
  let w := demo_world None github_origin in
  let args := demo_args [demo_path] in
  exists repo wheels html,
    GenerateIndex.load_manifest (snd (main demo_sha256 args w)) = Ok (repo, wheels)
    /\ GenerateIndex.render_index wheels = Ok html
    /\ index_html (snd (main demo_sha256 args w)) = Some html
    /\ (wheels = [] \/ repo <> "").
Proof.
  intros w args. apply (publish_regenerates_index demo_sha256 args w).
  vm_compute. reflexivity.
Defined.

Lemma publish_twice_fails_witness :
  let args := demo_args [demo_path] in
  let w' := snd (main demo_sha256 args (demo_world None github_origin)) in
  let args2 := demo_args [linux_path] in
  let v' := snd (main demo_sha256 args2 two_builds_world) in
  main demo_sha256 args w'
  = (Err (SystemExit ("Missing wheel files: " ++ demo_path)), w')
  /\ fst (main demo_sha256 args2 v') = Err (DuplicateArtifact demo_name "v1")
  /\ manifest_file (snd (main demo_sha256 args2 v')) = manifest_file v'.
Proof.
  intros args w' args2 v'. split.
  - destruct (publish_twice_fails demo_sha256 args (demo_world None github_origin))
      as (_ & _ & _ & Hgone & _).
    + discriminate.
    + vm_compute. reflexivity.
    + destruct (Hgone demo_path (or_introl eq_refl) eq_refl) as [Hmain _].
      fold w' in Hmain. rewrite Hmain. f_equal.
  - destruct (publish_twice_fails demo_sha256 args2 two_builds_world)
      as (Hfile & _ & _ & _ & Hdup).
    + discriminate.
    + vm_compute. reflexivity.
    + fold v' in Hfile, Hdup. split; [|exact Hfile].
      destruct (Hdup ltac:(repeat constructor) demo_manifest "owner/name"
                  [demo_wheel_record] [(JStr "v1", JStr demo_name)])
        as (name & Hmain & [Hin|[]] & _).
      * vm_compute. reflexivity.
      * vm_compute. reflexivity.
      * reflexivity.
      * vm_compute. reflexivity.
      * vm_compute. reflexivity.
      * rewrite Hmain. now rewrite <- Hin.
Defined.

Lemma load_manifest_entries_witness :
  Sorted (fun a b => not_after key3_lt (GenerateIndex.sort_key a) (GenerateIndex.sort_key b))
    [demo_entry]
  /\ Forall (complete_entry "owner/name") [demo_entry].
Proof.
  apply (load_manifest_entries (world_with_manifest demo_manifest_text)).
  vm_compute. reflexivity.
Defined.

Lemma collect_wheels_per_path_witness :
  Forall2 (record_of_path demo_sha256 (demo_world None github_origin) "v1")
    [demo_path] [demo_wheel_record].
Proof.
  apply collect_wheels_per_path. vm_compute. reflexivity.
Defined.

Lemma load_item_of_record_witness :
  GenerateIndex.load_item "owner/name" (record_json demo_wheel_record)
  = Ok (Some demo_entry).
Proof.
  apply (load_item_of_record "owner/name" demo_wheel_record);
    try (split; [reflexivity|discriminate]).
  reflexivity.
Defined.

Lemma render_lists_every_wheel_witness :
  let wheels := [zeta_wheel; alpha_wheel] in
  exists html,
    GenerateIndex.render_index wheels = Ok html
    /\ Permutation (List.concat (map snd (GenerateIndex.sections wheels))) wheels
    /\ (forall w, In w wheels ->
          exists line,
            GenerateIndex.wheel_line w = Ok line /\ text_in line html).
Proof.
  intros wheels. eexists. split; [reflexivity|].
  destruct (render_lists_every_wheel wheels _ ltac:(discriminate) eq_refl)
    as (parts & _ & _ & Hperm & Hlines & _).
  split; [exact Hperm|exact Hlines].
Defined.
